(** * The media-relay session coordinator of server/src/server.ts

    A shallow embedding of the socket handlers of [server.ts] that manage
    peers, transports, producers and consumers (JOIN_REQUEST, disconnecting,
    JOIN_ROUTER, CREATE_PRODUCER_TRANSPORT, CREATE_CONSUMER_TRANSPORT,
    PRODUCE, CONSUME, RESUME_CONSUMER, TOGGLE_VIDEO, TOGGLE_AUDIO) and of the
    helpers they call ([getUsersInRoom], [getUserBySocketId],
    [createWebRtcTransport], [createConsumer], [pauseProducer],
    [resumeProducer]), followed by the properties of the coordinator that the
    code has or has not.  The handlers for files, chat, drawing, status,
    typing and the active editor come after the coordinator, with
    [getRoomId], the functions of [types/editor.ts] and [getLocalIp] of
    [config.ts], and JOIN_ROOM.  GET_ROUTER_RTP_CAPABILITIES and the two
    CONNECT_..._TRANSPORT handlers are not part of it.

    How the program is modelled.

    - JavaScript objects are held by reference.  [User] objects, the arrays
      bound to [userSocketMap], the Maps [producers] and [consumers] of a
      peer and the engine objects (transports, producers, consumers) live in
      heaps, a reference being an index; the program only holds references
      it got when the object was made.  A handler that is suspended keeps
      the references it captured, and a copy [{ ...user }] holds the Maps of
      the object it was made from.
    - An [async] function runs until it awaits a reply of the media engine;
      what remains is a [Task] parked with the [Request] it waits for.  The
      reply comes back as the event [EvSettle]; other messages may be handled
      before it does.  An await on a promise that is already settled (a
      helper that threw before reaching the engine) does not let another
      handler in.  [react] is one step of the server, [run] a sequence of
      steps, and [drive] runs one suspended function to its end with nothing
      else in between.
    - mediasoup and socket.io are outside the repository.  The engine is seen
      at its interface: a request resolves or rejects, a resolved [consume],
      [produce] or [createWebRtcTransport] yields a new object, a resolved
      [pause] or [resume] sets the [paused] flag.  Rooms of socket.io are sets
      of socket ids and an emit to a room reaches each member but the sender;
      a socket that disconnects is taken out of all its rooms once its
      [disconnecting] listener has run.
    - A message carries its payload at the type its handler declares.  The
      [User] sent with JOIN_REQUEST is spread into the new peer, so that
      what a client puts in it beside the name and the room stays there.
    - [console.error] and [console.warn] lines are outputs; [console.log]
      lines only print and are left out.
    - Nothing in [server.ts] calls [close()] on a transport, producer or
      consumer, so the listeners for [close], [transportclose] and
      [producerclose], which delete map entries, never run: the maps
      [producers] and [consumers] only grow, and an iterator over them, which
      in JavaScript sees the entries added while it runs, is an index into
      the list of entries.
    - The handlers outside the coordinator send events of their own.  What
      they send is kept in [sent], beside the [trace] of the coordinator;
      the order between the two is not recorded.  [Server] adds to the
      [World] what only these handlers use: [activeEditorMap] and
      [rooms]. *)

From stdpp Require Import gmap strings list.

(** ** JavaScript values received from clients ([any]) *)

Inductive JsValue : Type :=
  | VUndefined
  | VNull
  | VBool (b : bool)
  | VNumber (n : Z)
  | VString (s : string)
  | VObject (json : string).   (* an object or an array, by its JSON text *)

(** What [if (v)] and [!v] test. *)
Definition truthy (v : JsValue) : bool :=
  match v with
  | VUndefined | VNull => false
  | VBool b => b
  | VNumber n => negb (n =? 0)%Z
  | VString s => negb (String.eqb s EmptyString)
  | VObject _ => true
  end.

(** ** [Map<string, any>]: entries in insertion order *)

Module JsMap.
Definition t (V : Type) : Type := list (string * V).

Definition get {V} (k : string) (m : t V) : option V :=
  snd <$> List.find (fun e => String.eqb (fst e) k) m.

Definition has {V} (k : string) (m : t V) : bool :=
  bool_decide (is_Some (get k m)).

(** [m.set(k, v)]: an existing key keeps its place, a new key goes last. *)
Fixpoint set {V} (k : string) (v : V) (m : t V) : t V :=
  match m with
  | [] => [(k, v)]
  | (k', v') :: m' =>
      if String.eqb k' k then (k', v) :: m' else (k', v') :: set k v m'
  end.

Definition values {V} (m : t V) : list V := snd <$> m.
Definition size {V} (m : t V) : nat := length m.
End JsMap.

(** ** Engine objects *)

Inductive MediaKind : Type := audio | video.

Definition is_video (k : MediaKind) : bool :=
  match k with video => true | audio => false end.

Definition is_audio (k : MediaKind) : bool :=
  match k with audio => true | video => false end.

(** References into the heaps of transports, producers, consumers, users,
    arrays and Maps. *)
Abbreviation tref := nat.
Abbreviation pref := nat.
Abbreviation cref := nat.
Abbreviation uref := nat.
Abbreviation aref := nat.
Abbreviation mref := nat.

(** [appData: { peerId, peerName }] *)
Record AppData : Type := mkAppData {
  peerId : option string;
  peerName : option string
}.

Record Transport : Type := mkTransport {
  transport_id : string;
  transport_params : JsValue;   (* ICE, DTLS and SCTP parameters *)
  transport_closed : bool
}.

Record Producer : Type := mkProducer {
  producer_id : string;
  producer_kind : MediaKind;
  producer_paused : bool;
  producer_closed : bool;
  producer_appData : AppData
}.

Record Consumer : Type := mkConsumer {
  consumer_id : string;
  consumer_producerId : string;
  consumer_kind : MediaKind;
  consumer_rtpParameters : JsValue;
  consumer_type : string;
  consumer_paused : bool;
  consumer_closed : bool;
  consumer_appData : AppData
}.

Definition producer_set_paused (b : bool) (p : Producer) : Producer :=
  mkProducer (producer_id p) (producer_kind p) b (producer_closed p)
    (producer_appData p).

Definition consumer_set_paused (b : bool) (c : Consumer) : Consumer :=
  mkConsumer (consumer_id c) (consumer_producerId c) (consumer_kind c)
    (consumer_rtpParameters c) (consumer_type c) b (consumer_closed c)
    (consumer_appData c).

(** ** [interface User] *)

Inductive USER_CONNECTION_STATUS : Type := OFFLINE | ONLINE.

Record User : Type := mkUser {
  username : string;
  roomId : string;
  status : USER_CONNECTION_STATUS;
  cursorPosition : Z;
  typing : bool;
  currentFile : option string;
  socketId : string;
  rtpCapabilities : JsValue;               (* [VUndefined] until stored *)
  producerTransport : option tref;
  consumerTransport : option tref;
  producers : option mref;                 (* the Map, once there is one *)
  consumers : option mref;
  hasVideo : option bool;
  hasAudio : option bool
}.

Definition user_set_rtpCapabilities (v : JsValue) (u : User) : User :=
  mkUser (username u) (roomId u) (status u) (cursorPosition u) (typing u)
    (currentFile u) (socketId u) v (producerTransport u)
    (consumerTransport u) (producers u) (consumers u) (hasVideo u)
    (hasAudio u).

Definition user_set_producerTransport (t : option tref) (u : User) : User :=
  mkUser (username u) (roomId u) (status u) (cursorPosition u) (typing u)
    (currentFile u) (socketId u) (rtpCapabilities u) t
    (consumerTransport u) (producers u) (consumers u) (hasVideo u)
    (hasAudio u).

Definition user_set_consumerTransport (t : option tref) (u : User) : User :=
  mkUser (username u) (roomId u) (status u) (cursorPosition u) (typing u)
    (currentFile u) (socketId u) (rtpCapabilities u) (producerTransport u)
    t (producers u) (consumers u) (hasVideo u) (hasAudio u).

Definition user_set_producers (m : option mref) (u : User) : User :=
  mkUser (username u) (roomId u) (status u) (cursorPosition u) (typing u)
    (currentFile u) (socketId u) (rtpCapabilities u) (producerTransport u)
    (consumerTransport u) m (consumers u) (hasVideo u) (hasAudio u).

Definition user_set_consumers (m : option mref) (u : User) : User :=
  mkUser (username u) (roomId u) (status u) (cursorPosition u) (typing u)
    (currentFile u) (socketId u) (rtpCapabilities u) (producerTransport u)
    (consumerTransport u) (producers u) m (hasVideo u) (hasAudio u).

Definition user_set_hasVideo (b : option bool) (u : User) : User :=
  mkUser (username u) (roomId u) (status u) (cursorPosition u) (typing u)
    (currentFile u) (socketId u) (rtpCapabilities u) (producerTransport u)
    (consumerTransport u) (producers u) (consumers u) b (hasAudio u).

Definition user_set_hasAudio (b : option bool) (u : User) : User :=
  mkUser (username u) (roomId u) (status u) (cursorPosition u) (typing u)
    (currentFile u) (socketId u) (rtpCapabilities u) (producerTransport u)
    (consumerTransport u) (producers u) (consumers u) (hasVideo u) b.

Global Instance AppData_inhabited : Inhabited AppData :=
  populate (mkAppData None None).
Global Instance Transport_inhabited : Inhabited Transport :=
  populate (mkTransport EmptyString VUndefined false).
Global Instance Producer_inhabited : Inhabited Producer :=
  populate (mkProducer EmptyString audio false false inhabitant).
Global Instance Consumer_inhabited : Inhabited Consumer :=
  populate (mkConsumer EmptyString EmptyString audio VUndefined EmptyString
              false false inhabitant).
Global Instance User_inhabited : Inhabited User :=
  populate (mkUser EmptyString EmptyString ONLINE 0 false None EmptyString
              VUndefined None None None None None None).

(** ** What the server sends and prints *)

Inductive ServerEvent : Type :=
  | USERNAME_EXISTS
  | JOIN_ACCEPTED (user : User) (users : list User)
  | USER_JOINED (user : User)
  | USER_DISCONNECTED (user : User)
  | VIDEO_STATE_CHANGED (sid : string) (enabled : bool)
  | AUDIO_STATE_CHANGED (sid : string) (enabled : bool).

(** The object [createConsumer] returns. *)
Record ConsumerDetails : Type := mkConsumerDetails {
  cd_producerId : string;
  cd_id : string;
  cd_kind : MediaKind;
  cd_rtpParameters : JsValue;
  cd_type : string;
  cd_producerPaused : bool;
  cd_paused : bool;
  cd_producerAppData : AppData
}.

(** What a handler passes to its [callback]. *)
Inductive Response : Type :=
  | RError (error : string)                            (* { error } *)
  | RSuccess                                           (* { success: true } *)
  | RAlreadyJoined                 (* { success: true, alreadyJoined: true } *)
  | RTransportParams (id : string) (params : JsValue)  (* params, iceServers *)
  | RProduced (id : string)                            (* { id } *)
  | RConsumed (consumerDetailsArray : list ConsumerDetails).


Inductive Output : Type :=
  | OEmit (to : string) (ev : ServerEvent)     (* a packet for one socket *)
  | OAck (to : string) (r : Response)          (* [callback(r)] *)
  | OError (msg : string) (err : option string)   (* [console.error] *)
  | OWarn (msg : string).                         (* [console.warn] *)

(** ** Calls into the media engine and the code that waits for them *)

Inductive Mode : Type := Pause | Resume.

Definition paused_after (m : Mode) : bool :=
  match m with Pause => true | Resume => false end.

Inductive Direction : Type := ProducerSide | ConsumerSide.

Inductive Request : Type :=
  | RqCreateWebRtcTransport
  | RqSetMaxIncomingBitrate (t : tref)
  | RqProduce (t : tref) (kind : MediaKind) (rtpParameters : JsValue)
      (appData : AppData)
  | RqConsume (t : tref) (producer : pref) (caps : JsValue) (paused : bool)
      (appData : AppData)
  | RqProducer (m : Mode) (p : pref)      (* [producer.pause()], [.resume()] *)
  | RqConsumer (m : Mode) (c : cref).     (* [consumer.pause()], [.resume()] *)

(** What the engine hands back when a request resolves: the id of a new
    object and its parameters; a pause or resume uses none of it. *)
Record Reply : Type := mkReply {
  reply_id : string;
  reply_data : JsValue;
  reply_type : string
}.

Inductive Outcome : Type :=
  | Resolved (r : Reply)
  | Rejected (error : string).

(** The rest of an [async] function, from the [await] it is suspended at. *)
Inductive Task : Type :=
  (* createWebRtcTransport, at [await mediasoupRouter.createWebRtcTransport] *)
  | KCreated (d : Direction) (peer : uref) (sid : string)
  (* createWebRtcTransport, at [await transport.setMaxIncomingBitrate] *)
  | KBitrateSet (d : Direction) (peer : uref) (sid : string) (t : tref)
  (* PRODUCE, at [await peer.producerTransport.produce] *)
  | KProduced (peer : uref) (sid : string) (kind : MediaKind)
  (* CONSUME inside createConsumer, at [await consumerTransport.consume];
     [idx] is the position of the iterator over [otherPeer.producers] *)
  | KConsumed (peer : uref) (sid : string) (otherPeer : uref) (idx : nat)
      (consumerDetailsArray : list ConsumerDetails) (producer : pref)
  (* RESUME_CONSUMER, at [await consumer.resume()] *)
  | KConsumerResumed (sid : string) (callback : bool)
  (* pauseProducer and resumeProducer, at [await producer.pause()] *)
  | KProducerDone (m : Mode) (p : pref)
  (* the same, at [await consumer.pause()], inside the two loops: [arr] is
     the array being walked, [ui] and [ci] the positions of the two
     iterators *)
  | KCascade (m : Mode) (p : pref) (arr : aref) (ui ci : nat) (c : cref)
  (* the [.then(..).catch(..)] of the producerpause / producerresume
     listener *)
  | KForwarded (m : Mode) (c : cref).

Definition Parked : Type := option (Request * Task).

(** ** The state of the server *)

Record World : Type := mkWorld {
  users : list User;                  (* the User objects *)
  arrays : list (list uref);      (* the arrays userSocketMap was bound to *)
  userSocketMap : aref;               (* the array it is bound to now *)
  ioRooms : gmap string (gset string);   (* socket.io: room -> socket ids *)
  transportObjs : list Transport;
  producerObjs : list Producer;
  consumerObjs : list Consumer;
  producerMaps : list (JsMap.t pref);    (* the Maps [producers] of peers *)
  consumerMaps : list (JsMap.t cref);    (* the Maps [consumers] of peers *)
  pending : list Parked;              (* requests in flight, by number *)
  trace : list Output                 (* everything sent or printed, in order *)
}.

(** [let userSocketMap: User[] = []], nothing else yet. *)
Definition initial : World :=
  mkWorld [] [[]] 0 ∅ [] [] [] [] [] [] [].

Definition set_users (f : list User → list User) (w : World) : World :=
  mkWorld (f (users w)) (arrays w) (userSocketMap w) (ioRooms w)
    (transportObjs w) (producerObjs w) (consumerObjs w) (producerMaps w)
    (consumerMaps w) (pending w) (trace w).

Definition set_arrays (f : list (list uref) → list (list uref)) (w : World)
  : World :=
  mkWorld (users w) (f (arrays w)) (userSocketMap w) (ioRooms w)
    (transportObjs w) (producerObjs w) (consumerObjs w) (producerMaps w)
    (consumerMaps w) (pending w) (trace w).

Definition set_userSocketMap (a : aref) (w : World) : World :=
  mkWorld (users w) (arrays w) a (ioRooms w)
    (transportObjs w) (producerObjs w) (consumerObjs w) (producerMaps w)
    (consumerMaps w) (pending w) (trace w).

Definition set_ioRooms
    (f : gmap string (gset string) → gmap string (gset string)) (w : World)
  : World :=
  mkWorld (users w) (arrays w) (userSocketMap w) (f (ioRooms w))
    (transportObjs w) (producerObjs w) (consumerObjs w) (producerMaps w)
    (consumerMaps w) (pending w) (trace w).

Definition set_transportObjs (f : list Transport → list Transport)
    (w : World) : World :=
  mkWorld (users w) (arrays w) (userSocketMap w) (ioRooms w)
    (f (transportObjs w)) (producerObjs w) (consumerObjs w) (producerMaps w)
    (consumerMaps w) (pending w) (trace w).

Definition set_producerObjs (f : list Producer → list Producer) (w : World)
  : World :=
  mkWorld (users w) (arrays w) (userSocketMap w) (ioRooms w)
    (transportObjs w) (f (producerObjs w)) (consumerObjs w) (producerMaps w)
    (consumerMaps w) (pending w) (trace w).

Definition set_consumerObjs (f : list Consumer → list Consumer) (w : World)
  : World :=
  mkWorld (users w) (arrays w) (userSocketMap w) (ioRooms w)
    (transportObjs w) (producerObjs w) (f (consumerObjs w)) (producerMaps w)
    (consumerMaps w) (pending w) (trace w).

Definition set_producerMaps
    (f : list (JsMap.t pref) → list (JsMap.t pref)) (w : World) : World :=
  mkWorld (users w) (arrays w) (userSocketMap w) (ioRooms w)
    (transportObjs w) (producerObjs w) (consumerObjs w) (f (producerMaps w))
    (consumerMaps w) (pending w) (trace w).

Definition set_consumerMaps
    (f : list (JsMap.t cref) → list (JsMap.t cref)) (w : World) : World :=
  mkWorld (users w) (arrays w) (userSocketMap w) (ioRooms w)
    (transportObjs w) (producerObjs w) (consumerObjs w) (producerMaps w)
    (f (consumerMaps w)) (pending w) (trace w).

Definition set_pending (f : list Parked → list Parked) (w : World) : World :=
  mkWorld (users w) (arrays w) (userSocketMap w) (ioRooms w)
    (transportObjs w) (producerObjs w) (consumerObjs w) (producerMaps w)
    (consumerMaps w) (f (pending w)) (trace w).

(** Append to what was sent or printed. *)
Definition out (os : list Output) (w : World) : World :=
  mkWorld (users w) (arrays w) (userSocketMap w) (ioRooms w)
    (transportObjs w) (producerObjs w) (consumerObjs w) (producerMaps w)
    (consumerMaps w) (pending w) (trace w ++ os).

(** ** Helpers of the handlers *)

Local Open Scope string_scope.
Local Open Scope list_scope.

Definition error (msg : string) (err : option string) : World → World :=
  out [OError msg err].

Definition ack (sid : string) (r : Response) : World → World :=
  out [OAck sid r].

(** [callback?.(r)] and [if (typeof callback === 'function') callback(r)] *)
Definition ack_if (callback : bool) (sid : string) (r : Response)
    (w : World) : World :=
  if callback then ack sid r w else w.

(** The array [userSocketMap] is bound to, as references. *)
Definition registry (w : World) : list uref :=
  arrays w !!! userSocketMap w.

(** A test on the object behind a reference. *)
Definition user_is (w : World) (f : User → bool) (r : uref) : bool :=
  f (users w !!! r).

Definition update_user (r : uref) (f : User → User) : World → World :=
  set_users (alter f r).

(** [u.producers] and [u.consumers] as they are read: the entries of the Map
    the field refers to, in the order of insertion, if it refers to one. *)
Definition producers_in (w : World) (u : User) : option (JsMap.t pref) :=
  (λ m, producerMaps w !!! m) <$> producers u.

Definition consumers_in (w : World) (u : User) : option (JsMap.t cref) :=
  (λ m, consumerMaps w !!! m) <$> consumers u.

(** [userSocketMap.push(u)] for a new object [u]. *)
Definition push_user (u : User) (w : World) : World :=
  let r := length (users w) in
  set_arrays (alter (λ a, a ++ [r]) (userSocketMap w))
    (set_users (λ us, us ++ [u]) w).

(** [userSocketMap = a] for a new array [a]. *)
Definition rebind (a : list uref) (w : World) : World :=
  set_userSocketMap (length (arrays w)) (set_arrays (λ h, h ++ [a]) w).

(** socket.io: the members of a room, [socket.join], [socket.leave] and
    [socket.to(room).emit], which skips the sender. *)
Definition room_members (room : string) (w : World) : gset string :=
  default ∅ (ioRooms w !! room).

Definition socket_join (sid room : string) (w : World) : World :=
  set_ioRooms <[room := {[sid]} ∪ room_members room w]> w.

Definition socket_leave (sid room : string) (w : World) : World :=
  set_ioRooms <[room := room_members room w ∖ {[sid]}]> w.

(** What socket.io does with a socket that disconnects, once the listeners
    for [disconnecting] have run: it takes the socket out of every room it
    is in, the room of its own id among them. *)
Definition socket_leave_all (sid : string) (w : World) : World :=
  set_ioRooms (fmap (λ members, members ∖ {[sid]})) w.

Definition recipients (room sender : string) (w : World) : list string :=
  elements (room_members room w ∖ {[sender]}).

Definition emit_to_room (room sender : string) (ev : ServerEvent)
    (w : World) : World :=
  out ((λ s, OEmit s ev) <$> recipients room sender w) w.

(** Put a suspended function among the requests in flight. *)
Definition park (r : World * Parked) : World :=
  match r with
  | (w, Some rt) => set_pending (λ q, q ++ [Some rt]) w
  | (w, None) => w
  end.

(** [function getUsersInRoom(roomId)] *)
Definition getUsersInRoom (room : string) (w : World) : World * list uref :=
  if String.eqb room EmptyString then
    (error "Attempted to get users with undefined roomId" None w, [])
  else
    (w, List.filter (user_is w (λ u, String.eqb (roomId u) room))
          (registry w)).

(** [function getUserBySocketId(socketId)]: the object and what it holds. *)
Definition getUserBySocketId (sid : string) (w : World)
  : World * option (uref * User) :=
  match List.find (user_is w (λ u, String.eqb (socketId u) sid))
          (registry w) with
  | Some r => (w, Some (r, users w !!! r))
  | None =>
      (error ("User not found for socket ID: " +:+ sid) None w, None)
  end.

(** What a resolved request has done inside the engine.  A new object is
    the last of its heap. *)
Definition engine (rq : Request) (rep : Reply) (w : World) : World :=
  match rq with
  | RqCreateWebRtcTransport =>
      set_transportObjs
        (λ h, h ++ [mkTransport (reply_id rep) (reply_data rep) false]) w
  | RqSetMaxIncomingBitrate _ => w
  | RqProduce _ kind _ appData =>
      set_producerObjs
        (λ h, h ++ [mkProducer (reply_id rep) kind false false appData]) w
  | RqConsume _ p _ paused appData =>
      let P := producerObjs w !!! p in
      set_consumerObjs
        (λ h, h ++ [mkConsumer (reply_id rep) (producer_id P)
                      (producer_kind P) (reply_data rep) (reply_type rep)
                      paused false appData]) w
  | RqProducer m p =>
      set_producerObjs (alter (producer_set_paused (paused_after m)) p) w
  | RqConsumer m c =>
      set_consumerObjs (alter (consumer_set_paused (paused_after m)) c) w
  end.

(** [config.server.mediasoup.webRtcTransport.maxIncomingBitrate] *)
Definition maxIncomingBitrate : Z := 1500000.

Definition verb (m : Mode) : string :=
  match m with Pause => "pausing" | Resume => "resuming" end.

(** The texts of the two CREATE_..._TRANSPORT handlers. *)
Definition already_exists (d : Direction) : string :=
  match d with
  | ProducerSide => "Producer transport already exists"
  | ConsumerSide => "Consumer transport already exists"
  end.

Definition create_error (d : Direction) : string :=
  match d with
  | ProducerSide => "createProducerTransport error:"
  | ConsumerSide => "createConsumerTransport error:"
  end.

Definition failed_to_create (d : Direction) : string :=
  match d with
  | ProducerSide => "Failed to create producer transport"
  | ConsumerSide => "Failed to create consumer transport"
  end.

Definition transport_of (d : Direction) (u : User) : option tref :=
  match d with
  | ProducerSide => producerTransport u
  | ConsumerSide => consumerTransport u
  end.

Definition user_set_transport (d : Direction) (t : option tref)
  : User → User :=
  match d with
  | ProducerSide => user_set_producerTransport t
  | ConsumerSide => user_set_consumerTransport t
  end.

(** ** The handlers *)

Section Coordinator.

(** [mediasoupRouter.canConsume({ producerId, rtpCapabilities })] *)
Variable canConsume : string → JsValue → bool.

(** *** createWebRtcTransport and the two CREATE_..._TRANSPORT handlers *)

Definition createWebRtcTransport (d : Direction) (peer : uref) (sid : string)
  : Request * Task :=
  (RqCreateWebRtcTransport, KCreated d peer sid).

(** After [const { transport, params } = await createWebRtcTransport()]. *)
Definition transport_created (d : Direction) (peer : uref) (sid : string)
    (t : tref) (w : World) : World :=
  let T := transportObjs w !!! t in
  ack sid (RTransportParams (transport_id T) (transport_params T))
    (update_user peer (user_set_transport d (Some t)) w).

Definition transport_failed (d : Direction) (sid : string) (e : string)
    (w : World) : World :=
  ack sid (RError (failed_to_create d))
    (error (create_error d) (Some e)
       (error "Error creating WebRTC transport:" (Some e) w)).

Definition create_transport (d : Direction) (sid : string) (w : World)
  : World * Parked :=
  let '(w, found) := getUserBySocketId sid w in
  match found with
  | None => (ack sid (RError "Peer not found") w, None)
  | Some (peer, U) =>
      match transport_of d U with
      | Some _ => (ack sid (RError (already_exists d)) w, None)
      | None => (w, Some (createWebRtcTransport d peer sid))
      end
  end.

Definition on_CREATE_PRODUCER_TRANSPORT : string → World → World * Parked :=
  create_transport ProducerSide.

Definition on_CREATE_CONSUMER_TRANSPORT : string → World → World * Parked :=
  create_transport ConsumerSide.

(** *** JOIN_REQUEST, disconnecting, JOIN_ROUTER *)

(** [socket.on(SocketEvent.JOIN_REQUEST, async (user: User) => ..)].  The
    new object is [{ ...user, socketId: socket.id, status, cursorPosition,
    typing, currentFile }]: the five fields named are set by the handler and
    whatever else the payload holds stays on the new peer. *)
Definition on_JOIN_REQUEST (sid : string) (user : User) (w : World) : World :=
  let existingUser :=
    List.find
      (user_is w (λ u, String.eqb (roomId u) (roomId user)
                       && String.eqb (username u) (username user)))
      (registry w) in
  match existingUser with
  | Some _ => out [OEmit sid USERNAME_EXISTS] w
  | None =>
      let newUser :=
        mkUser (username user) (roomId user) ONLINE 0 false None sid
          (rtpCapabilities user) (producerTransport user)
          (consumerTransport user) (producers user) (consumers user)
          (hasVideo user) (hasAudio user) in
      let room := roomId user in
      let w := socket_join sid room w in
      let w := push_user newUser w in
      let '(w, inRoom) := getUsersInRoom room w in
      let roomUsers :=
        List.filter
          (user_is w (λ u, negb (String.eqb (socketId u) sid))) inRoom in
      let w :=
        out [OEmit sid
               (JOIN_ACCEPTED newUser ((λ r, users w !!! r) <$> roomUsers))]
          w in
      emit_to_room room sid (USER_JOINED newUser) w
  end.

(** [socket.on("disconnecting", () => ..)]: the listener, which leaves the
    room of the first peer of the socket; [react] adds what socket.io does
    after it. *)
Definition on_disconnecting (sid : string) (w : World) : World :=
  let '(w, found) := getUserBySocketId sid w in
  match found with
  | None => w
  | Some (_, user) =>
      let w := emit_to_room (roomId user) sid (USER_DISCONNECTED user) w in
      let w :=
        rebind
          (List.filter
             (user_is w (λ u, negb (String.eqb (socketId u) sid)))
             (registry w)) w in
      socket_leave sid (roomId user) w
  end.

Definition on_JOIN_ROUTER (sid : string) (caps : JsValue) (w : World)
  : World :=
  let '(w, found) := getUserBySocketId sid w in
  match found with
  | None => ack sid (RError "Peer not found") w
  | Some (peer, U) =>
      if truthy (rtpCapabilities U) then ack sid RAlreadyJoined w
      else
        ack sid RSuccess (update_user peer (user_set_rtpCapabilities caps) w)
  end.

(** *** PRODUCE *)

Definition on_PRODUCE (sid : string) (kind : MediaKind)
    (rtpParameters : JsValue) (transportId : option string) (w : World)
  : World * Parked :=
  let '(w, found) := getUserBySocketId sid w in
  match found with
  | None => (ack sid (RError "Peer or producer transport not found") w, None)
  | Some (peer, U) =>
      match producerTransport U with
      | None =>
          (ack sid (RError "Peer or producer transport not found") w, None)
      | Some t =>
          let mismatch :=
            match transportId with
            | Some i =>
                negb (String.eqb i EmptyString)
                && negb (String.eqb i (transport_id (transportObjs w !!! t)))
            | None => false
            end in
          if mismatch then (ack sid (RError "Invalid transport ID") w, None)
          else
            (w, Some (RqProduce t kind rtpParameters
                        (mkAppData (Some sid) (Some (username U))),
                      KProduced peer sid kind))
      end
  end.

(** [if (!peer.producers) { peer.producers = new Map() }]: the world and
    the Map of [peer] after it. *)
Definition producers_map (peer : uref) (w : World) : World * mref :=
  match producers (users w !!! peer) with
  | Some m => (w, m)
  | None =>
      let m := length (producerMaps w) in
      (update_user peer (user_set_producers (Some m))
         (set_producerMaps (λ h, h ++ [[]]) w), m)
  end.

(** After [const producer = await peer.producerTransport.produce(..)]:
    [p] is the new producer. *)
Definition produced (peer : uref) (sid : string) (kind : MediaKind)
    (p : pref) (w : World) : World :=
  let id := producer_id (producerObjs w !!! p) in
  let '(w, m) := producers_map peer w in
  let w := set_producerMaps (alter (JsMap.set id p) m) w in
  let room := roomId (users w !!! peer) in
  let w :=
    match kind with
    | video =>
        emit_to_room room sid (VIDEO_STATE_CHANGED sid true)
          (update_user peer (user_set_hasVideo (Some true)) w)
    | audio =>
        emit_to_room room sid (AUDIO_STATE_CHANGED sid true)
          (update_user peer (user_set_hasAudio (Some true)) w)
    end in
  ack sid (RProduced id) w.

(** *** createConsumer and CONSUME *)

(** [createConsumer] up to [await consumerTransport.consume(..)]: the error
    it throws, or the request it makes. *)
Definition createConsumer (consumerPeer : uref) (producer : pref) (w : World)
  : World * (string + Request) :=
  let U := users w !!! consumerPeer in
  let P := producerObjs w !!! producer in
  match consumerTransport U with
  | None =>
      (error "consumerTransport not found" None w,
       inl "consumerTransport not found")
  | Some t =>
      if negb (truthy (rtpCapabilities U))
         || negb (canConsume (producer_id P) (rtpCapabilities U))
      then
        (error "Cannot consume - incompatible RTP capabilities" None w,
         inl "cannot consume - incompatible RTP capabilities")
      else
        (w, inr (RqConsume t producer (rtpCapabilities U)
                   (is_video (producer_kind P))
                   (mkAppData (peerId (producer_appData P))
                      (peerName (producer_appData P)))))
  end.

(** [if (!consumerPeer.consumers) { consumerPeer.consumers = new Map() }] *)
Definition consumers_map (consumerPeer : uref) (w : World) : World * mref :=
  match consumers (users w !!! consumerPeer) with
  | Some m => (w, m)
  | None =>
      let m := length (consumerMaps w) in
      (update_user consumerPeer (user_set_consumers (Some m))
         (set_consumerMaps (λ h, h ++ [[]]) w), m)
  end.

(** [createConsumer] after the [await]: store the consumer [c], return its
    details. *)
Definition consumer_created (consumerPeer : uref) (producer : pref)
    (c : cref) (w : World) : World * ConsumerDetails :=
  let P := producerObjs w !!! producer in
  let C := consumerObjs w !!! c in
  let '(w, m) := consumers_map consumerPeer w in
  (set_consumerMaps (alter (JsMap.set (consumer_id C) c) m) w,
   mkConsumerDetails (producer_id P) (consumer_id C) (consumer_kind C)
     (consumer_rtpParameters C) (consumer_type C) (producer_paused P)
     (consumer_paused C) (producer_appData P)).

Definition consume_failed (producer : pref) (e : string) (w : World)
  : World :=
  error ("Failed to create consumer for producer "
           +:+ producer_id (producerObjs w !!! producer) +:+ ":") (Some e) w.

(** The loop [for (const producer of otherPeer.producers.values())] from the
    entries [es] the iterator has not reached yet, [idx] being the position
    of the first of them. *)
Fixpoint consume_from (peer : uref) (sid : string) (otherPeer : uref)
    (es : list (string * pref)) (idx : nat) (acc : list ConsumerDetails)
    (w : World) : World * Parked :=
  match es with
  | [] => (ack sid (RConsumed acc) w, None)
  | (_, producer) :: es' =>
      match createConsumer peer producer w with
      | (w, inl e) =>
          consume_from peer sid otherPeer es' (S idx) acc
            (consume_failed producer e w)
      | (w, inr rq) =>
          (w, Some (rq, KConsumed peer sid otherPeer idx acc producer))
      end
  end.

(** The loop resumed at position [idx] of the map as it is now. *)
Definition consume_loop (peer : uref) (sid : string) (otherPeer : uref)
    (idx : nat) (acc : list ConsumerDetails) (w : World) : World * Parked :=
  consume_from peer sid otherPeer
    (drop idx (default [] (producers_in w (users w !!! otherPeer)))) idx acc
    w.

Definition on_CONSUME (sid : string) (peerId : string) (w : World)
  : World * Parked :=
  let '(w, found) := getUserBySocketId sid w in
  match found with
  | None => (ack sid (RError "Peer not found") w, None)
  | Some (peer, _) =>
      match List.find (user_is w (λ u, String.eqb (socketId u) peerId))
              (registry w) with
      | None => (ack sid (RError "Source peer not found") w, None)
      | Some otherPeer =>
          match producers_in w (users w !!! otherPeer) with
          | Some m =>
              if (0 <? JsMap.size m)%nat then
                consume_loop peer sid otherPeer 0 [] w
              else (ack sid (RConsumed []) w, None)
          | None => (ack sid (RConsumed []) w, None)
          end
      end
  end.

(** *** RESUME_CONSUMER *)

Definition on_RESUME_CONSUMER (sid : string) (consumerId : string)
    (callback : bool) (w : World) : World * Parked :=
  let '(w, found) := getUserBySocketId sid w in
  match found with
  | None => (ack_if callback sid (RError "Peer not found") w, None)
  | Some (_, U) =>
      match consumers_in w U ≫= JsMap.get consumerId with
      | None => (ack_if callback sid (RError "Consumer not found") w, None)
      | Some c => (w, Some (RqConsumer Resume c, KConsumerResumed sid callback))
      end
  end.

(** *** pauseProducer, resumeProducer *)

(** The inner loop [for (const [consumerId, consumer] of
    user.consumers.entries())] over the entries [es] not reached yet: the
    first whose [producerId] is [pid], with its position. *)
Fixpoint scan_entries (w : World) (pid : string) (es : list (string * cref))
    (ci : nat) : option (nat * cref) :=
  match es with
  | [] => None
  | (_, c) :: es' =>
      if String.eqb (consumer_producerId (consumerObjs w !!! c)) pid
      then Some (ci, c)
      else scan_entries w pid es' (S ci)
  end.

(** The outer loop [for (const user of userSocketMap)] over the users [us]
    not left yet; the first of them is at position [ui] and its entries
    are taken from position [ci]. *)
Fixpoint scan_users (w : World) (pid : string) (us : list uref)
    (ui ci : nat) : option (nat * nat * cref) :=
  match us with
  | [] => None
  | r :: us' =>
      match consumers_in w (users w !!! r) with
      | Some m =>
          match scan_entries w pid (drop ci m) ci with
          | Some (i, c) => Some (ui, i, c)
          | None => scan_users w pid us' (S ui) 0
          end
      | None => scan_users w pid us' (S ui) 0
      end
  end.

(** The next consumer of producer [p] at or after the positions [ui], [ci]
    in the array [arr], as array and maps are now. *)
Definition next_consumer (w : World) (p : pref) (arr : aref) (ui ci : nat)
  : option (nat * nat * cref) :=
  scan_users w (producer_id (producerObjs w !!! p))
    (drop ui (arrays w !!! arr)) ui ci.

(** The two loops, up to the next [await consumer.pause()] (or
    [consumer.resume()]) or to their end. *)
Definition cascade_loop (m : Mode) (p : pref) (arr : aref) (ui ci : nat)
    (w : World) : World * Parked :=
  match next_consumer w p arr ui ci with
  | Some (ui', ci', c) =>
      (w, Some (RqConsumer m c, KCascade m p arr ui' ci' c))
  | None => (w, None)
  end.

(** [catch (error) { console.error(`Error pausing producer ..`, error) }] *)
Definition cascade_failed (m : Mode) (p : pref) (e : string) (w : World)
  : World :=
  error ("Error " +:+ verb m +:+ " producer "
           +:+ producer_id (producerObjs w !!! p) +:+ ":") (Some e) w.

(** The listeners [consumer.on('producerpause', ..)] and
    [consumer.on('producerresume', ..)] set up by createConsumer: they call
    [consumer.pause()] or [consumer.resume()] and wait for nothing. *)
Definition forward (m : Mode) (c : cref) : Request * Task :=
  (RqConsumer m c, KForwarded m c).

(** [async function pauseProducer(producer)] up to [await producer.pause()]
    and [async function resumeProducer(producer)] up to
    [await producer.resume()]. *)
Definition pauseProducer (producer : pref) : Request * Task :=
  (RqProducer Pause producer, KProducerDone Pause producer).

Definition resumeProducer (producer : pref) : Request * Task :=
  (RqProducer Resume producer, KProducerDone Resume producer).

(** *** TOGGLE_VIDEO, TOGGLE_AUDIO *)

Definition kind_eqb (a b : MediaKind) : bool :=
  match a, b with
  | audio, audio | video, video => true
  | _, _ => false
  end.

Definition user_set_has (k : MediaKind) (b : option bool) : User → User :=
  match k with
  | video => user_set_hasVideo b
  | audio => user_set_hasAudio b
  end.

Definition state_changed (k : MediaKind) (sid : string) (enabled : bool)
  : ServerEvent :=
  match k with
  | video => VIDEO_STATE_CHANGED sid enabled
  | audio => AUDIO_STATE_CHANGED sid enabled
  end.

Definition toggle (k : MediaKind) (sid : string) (enabled callback : bool)
    (w : World) : World :=
  let '(w, _) := getUserBySocketId sid w in       (* in the first log line *)
  let '(w, found) := getUserBySocketId sid w in
  let not_found (w : World) :=
    ack_if callback sid (RError "User not found")
      (out [OWarn ("User not found or has no producers: " +:+ sid)] w) in
  match found with
  | None => not_found w
  | Some (user, U) =>
      match producers_in w U with
      | None => not_found w
      | Some m =>
          let kindProducers :=
            List.filter
              (λ p, kind_eqb (producer_kind (producerObjs w !!! p)) k)
              (JsMap.values m) in
          let w :=
            foldl
              (λ w producer,
                 park (w, Some (if enabled then resumeProducer producer
                                else pauseProducer producer)))
              w kindProducers in
          let w := update_user user (user_set_has k (Some enabled)) w in
          let room := roomId (users w !!! user) in
          let w :=
            if negb (String.eqb room EmptyString)
            then emit_to_room room sid (state_changed k sid enabled) w
            else w in
          ack_if callback sid RSuccess w
      end
  end.

Definition on_TOGGLE_VIDEO : string → bool → bool → World → World :=
  toggle video.

Definition on_TOGGLE_AUDIO : string → bool → bool → World → World :=
  toggle audio.

(** ** Resuming a suspended function *)

(** The request [rq] the task [k] waits for has settled with [o]. *)
Definition resume (rq : Request) (k : Task) (o : Outcome) (w : World)
  : World * Parked :=
  match k, o with
  | KCreated d peer sid, Resolved rep =>
      let t := length (transportObjs w) in
      let w := engine rq rep w in
      if negb (maxIncomingBitrate =? 0)%Z then
        (w, Some (RqSetMaxIncomingBitrate t, KBitrateSet d peer sid t))
      else (transport_created d peer sid t w, None)
  | KCreated d peer sid, Rejected e => (transport_failed d sid e w, None)
  | KBitrateSet d peer sid t, Resolved rep =>
      (transport_created d peer sid t (engine rq rep w), None)
  | KBitrateSet d peer sid t, Rejected e =>
      (transport_created d peer sid t
         (error "setMaxIncomingBitrate error:" (Some e) w), None)
  | KProduced peer sid kind, Resolved rep =>
      let p := length (producerObjs w) in
      (produced peer sid kind p (engine rq rep w), None)
  | KProduced peer sid kind, Rejected e =>
      (ack sid (RError e) (error "produce error:" (Some e) w), None)
  | KConsumed peer sid otherPeer idx acc producer, Resolved rep =>
      let c := length (consumerObjs w) in
      let '(w, details) :=
        consumer_created peer producer c (engine rq rep w) in
      consume_loop peer sid otherPeer (S idx) (acc ++ [details]) w
  | KConsumed peer sid otherPeer idx acc producer, Rejected e =>
      consume_loop peer sid otherPeer (S idx) acc
        (consume_failed producer e (error "consume error:" (Some e) w))
  | KConsumerResumed sid callback, Resolved rep =>
      (ack_if callback sid RSuccess (engine rq rep w), None)
  | KConsumerResumed sid callback, Rejected e =>
      (ack_if callback sid (RError "Failed to resume consumer")
         (error "resumeConsumer error:" (Some e) w), None)
  | KProducerDone m p, Resolved rep =>
      let w := engine rq rep w in
      cascade_loop m p (userSocketMap w) 0 0 w
  | KProducerDone m p, Rejected e => (cascade_failed m p e w, None)
  | KCascade m p arr ui ci c, Resolved rep =>
      let w := park (engine rq rep w, Some (forward m c)) in
      cascade_loop m p arr ui (S ci) w
  | KCascade m p arr ui ci c, Rejected e => (cascade_failed m p e w, None)
  | KForwarded m c, Resolved rep => (engine rq rep w, None)
  | KForwarded m c, Rejected e =>
      (error ("Error " +:+ verb m +:+ " consumer "
                +:+ consumer_id (consumerObjs w !!! c) +:+ ":") (Some e) w,
       None)
  end.

(** A suspended function run on its own: each request it awaits is answered
    by [eng] and it is resumed at once, nothing else running in between.
    [fuel] bounds the number of awaits. *)
Fixpoint drive (fuel : nat) (eng : Request → Outcome) (s : World * Parked)
  : World * Parked :=
  match fuel, s with
  | S fuel', (w, Some (rq, k)) => drive fuel' eng (resume rq k (eng rq) w)
  | _, _ => s
  end.

(** ** The server as a whole *)

Inductive Message : Type :=
  | JOIN_REQUEST (user : User)
  | JOIN_ROUTER (caps : JsValue)
  | CREATE_PRODUCER_TRANSPORT
  | CREATE_CONSUMER_TRANSPORT
  | PRODUCE (kind : MediaKind) (rtpParameters : JsValue)
      (transportId : option string)
  | CONSUME (sourcePeerId : string)
  | RESUME_CONSUMER (consumerId : string) (callback : bool)
  | TOGGLE_VIDEO (enabled callback : bool)
  | TOGGLE_AUDIO (enabled callback : bool).

Inductive Event : Type :=
  | EvConnect (sid : string)                  (* [io.on("connection")] *)
  | EvMessage (sid : string) (m : Message)    (* a message of socket [sid] *)
  | EvDisconnecting (sid : string)            (* socket [sid] disconnects *)
  | EvSettle (n : nat) (o : Outcome)      (* the engine answers request [n] *)
  | EvNotify (c : cref) (m : Mode).           (* the engine raises producerpause
                                                 or producerresume on [c] *)

Definition handle (sid : string) (m : Message) (w : World) : World :=
  match m with
  | JOIN_REQUEST user => on_JOIN_REQUEST sid user w
  | JOIN_ROUTER caps => on_JOIN_ROUTER sid caps w
  | CREATE_PRODUCER_TRANSPORT => park (on_CREATE_PRODUCER_TRANSPORT sid w)
  | CREATE_CONSUMER_TRANSPORT => park (on_CREATE_CONSUMER_TRANSPORT sid w)
  | PRODUCE kind rtpParameters transportId =>
      park (on_PRODUCE sid kind rtpParameters transportId w)
  | CONSUME sourcePeerId => park (on_CONSUME sid sourcePeerId w)
  | RESUME_CONSUMER consumerId callback =>
      park (on_RESUME_CONSUMER sid consumerId callback w)
  | TOGGLE_VIDEO enabled callback => on_TOGGLE_VIDEO sid enabled callback w
  | TOGGLE_AUDIO enabled callback => on_TOGGLE_AUDIO sid enabled callback w
  end.

Definition react (ev : Event) (w : World) : World :=
  match ev with
  | EvConnect sid => socket_join sid sid w
  | EvMessage sid m => handle sid m w
  | EvDisconnecting sid => socket_leave_all sid (on_disconnecting sid w)
  | EvSettle n o =>
      match pending w !! n with
      | Some (Some (rq, k)) =>
          park (resume rq k o (set_pending <[n := None]> w))
      | _ => w
      end
  | EvNotify c m => park (w, Some (forward m c))
  end.

Definition run (evs : list Event) (w : World) : World :=
  foldl (flip react) w evs.

End Coordinator.

(** ** The handlers for files, chat, drawing, status and typing *)

(** These handlers send events the coordinator does not; what they send is
    returned as a list of deliveries. *)

(** [function getRoomId(socketId)] *)
Definition getRoomId (sid : string) (w : World) : World * option string :=
  match List.find (user_is w (λ u, String.eqb (socketId u) sid))
          (registry w) with
  | Some r =>
      let room := roomId (users w !!! r) in
      if String.eqb room EmptyString then
        (error ("Room ID is undefined for socket ID: " +:+ sid) None w, None)
      else (w, Some room)
  | None =>
      (error ("Room ID is undefined for socket ID: " +:+ sid) None w, None)
  end.

(** The messages whose handler passes the fields it picks from the payload
    on to the room of the sender. *)
Inductive RoomMessage : Type :=
  | DIRECTORY_CREATED (parentDirId newDirectory : JsValue)
  | DIRECTORY_UPDATED (dirId children : JsValue)
  | DIRECTORY_RENAMED (dirId newName : JsValue)
  | DIRECTORY_DELETED (dirId : JsValue)
  | FILE_CREATED (parentDirId newFile : JsValue)
  | FILE_UPDATED (fileId newContent : JsValue)
  | FILE_RENAMED (fileId newName : JsValue)
  | FILE_DELETED (fileId : JsValue)
  | SEND_MESSAGE (message : JsValue)
  | REQUEST_DRAWING
  | DRAWING_UPDATE (snapshot : JsValue).

(** The other messages handled here. *)
Inductive Signal : Type :=
  | ToRoom (m : RoomMessage)
  | SYNC_FILE_STRUCTURE (fileStructure openFiles activeFile : JsValue)
      (socketId : string)
  | USER_OFFLINE (socketId : string)
  | USER_ONLINE (socketId : string)
  | TYPING_START (cursorPosition : Z)
  | TYPING_PAUSE
  | SYNC_DRAWING (drawingData : JsValue) (socketId : string)
  | VIDEO_CALL_STARTED (username roomId : string)
  | GET_USERS_IN_ROOM (callback : bool)
  | ACTIVE_EDITOR_CHANGED (roomId fileId : string) (cursor : option Z)
  | JOIN_ROOM (roomId username : string).

(** What these handlers send. *)
Module Sent.
Inductive t : Type :=
  | DIRECTORY_CREATED (parentDirId newDirectory : JsValue)
  | DIRECTORY_UPDATED (dirId children : JsValue)
  | DIRECTORY_RENAMED (dirId newName : JsValue)
  | DIRECTORY_DELETED (dirId : JsValue)
  | FILE_CREATED (parentDirId newFile : JsValue)
  | FILE_UPDATED (fileId newContent : JsValue)
  | FILE_RENAMED (fileId newName : JsValue)
  | FILE_DELETED (fileId : JsValue)
  | RECEIVE_MESSAGE (message : JsValue)
  | REQUEST_DRAWING (socketId : string)
  | DRAWING_UPDATE (snapshot : JsValue)
  | SYNC_FILE_STRUCTURE (fileStructure openFiles activeFile : JsValue)
  | USER_OFFLINE (socketId : string)
  | USER_ONLINE (socketId : string)
  | TYPING_START (user : User)
  | TYPING_PAUSE (user : User)
  | SYNC_DRAWING (drawingData : JsValue)
  | VIDEO_CALL_STARTED (username roomId : string)
  | USERS_IN_ROOM (users : list User)
  | ACTIVE_EDITOR_CHANGED (socketId fileId : string) (cursor : option Z)
  | USER_JOINED (userId username socketId : string) (hasVideo hasAudio : bool).
End Sent.

(** An entry of the list JOIN_ROOM answers with. *)
Record RoomMember : Type := mkRoomMember {
  rm_id : string;
  rm_username : string;
  rm_socketId : string;
  rm_activeFile : option string;
  rm_cursorPosition : option Z;
  rm_isVideoEnabled : bool;
  rm_isAudioEnabled : bool;
  rm_status : USER_CONNECTION_STATUS;
  rm_typing : bool;
  rm_currentFile : option string;
  rm_hasVideo : bool;
  rm_hasAudio : bool
}.

Inductive Delivery : Type :=
  | Emit (to : string) (ev : Sent.t)            (* a packet for one socket *)
  | Answer (to : string) (users : list User)    (* [callback({ users })] *)
  | Joined (to : string) (users : list RoomMember)
  | Failed (to : string) (error : string).      (* [callback({ error })] *)

(** [socket.broadcast.to(room).emit(ev)] and [socket.to(room).emit(ev)] *)
Definition broadcast (room sender : string) (ev : Sent.t) (w : World)
  : list Delivery :=
  (λ s, Emit s ev) <$> recipients room sender w.

(** [io.to(room).emit(ev)], which skips nobody *)
Definition emit_to_all (room : string) (ev : Sent.t) (w : World)
  : list Delivery :=
  (λ s, Emit s ev) <$> elements (room_members room w).

(** The event a message to the room is passed on as. *)
Definition passed_on (sid : string) (m : RoomMessage) : Sent.t :=
  match m with
  | DIRECTORY_CREATED parentDirId newDirectory =>
      Sent.DIRECTORY_CREATED parentDirId newDirectory
  | DIRECTORY_UPDATED dirId children => Sent.DIRECTORY_UPDATED dirId children
  | DIRECTORY_RENAMED dirId newName => Sent.DIRECTORY_RENAMED dirId newName
  | DIRECTORY_DELETED dirId => Sent.DIRECTORY_DELETED dirId
  | FILE_CREATED parentDirId newFile => Sent.FILE_CREATED parentDirId newFile
  | FILE_UPDATED fileId newContent => Sent.FILE_UPDATED fileId newContent
  | FILE_RENAMED fileId newName => Sent.FILE_RENAMED fileId newName
  | FILE_DELETED fileId => Sent.FILE_DELETED fileId
  | SEND_MESSAGE message => Sent.RECEIVE_MESSAGE message
  | REQUEST_DRAWING => Sent.REQUEST_DRAWING sid
  | DRAWING_UPDATE snapshot => Sent.DRAWING_UPDATE snapshot
  end.

(** The handlers of DIRECTORY_CREATED to FILE_DELETED, SEND_MESSAGE,
    REQUEST_DRAWING and DRAWING_UPDATE:
    [const roomId = getRoomId(socket.id); if (!roomId) return;
     socket.broadcast.to(roomId).emit(..)] *)
Definition on_room_message (sid : string) (m : RoomMessage) (w : World)
  : World * list Delivery :=
  let '(w, found) := getRoomId sid w in
  match found with
  | None => (w, [])
  | Some room => (w, broadcast room sid (passed_on sid m) w)
  end.

Definition on_SYNC_FILE_STRUCTURE (fileStructure openFiles activeFile : JsValue)
    (target : string) (w : World) : World * list Delivery :=
  (w, emit_to_all target
        (Sent.SYNC_FILE_STRUCTURE fileStructure openFiles activeFile) w).

Definition on_SYNC_DRAWING (sid : string) (drawingData : JsValue)
    (target : string) (w : World) : World * list Delivery :=
  (w, broadcast target sid (Sent.SYNC_DRAWING drawingData) w).

Definition on_VIDEO_CALL_STARTED (sid name room : string) (w : World)
  : World * list Delivery :=
  (w, broadcast room sid (Sent.VIDEO_CALL_STARTED name room) w).

(** [user.hasVideo || false] *)
Definition or_false (b : option bool) : option bool :=
  Some (default false b).

Definition on_GET_USERS_IN_ROOM (sid : string) (callback : bool) (w : World)
  : World * list Delivery :=
  let '(w, found) := getRoomId sid w in
  match found with
  | None => (w, if callback then [Answer sid []] else [])
  | Some room =>
      let '(w, inRoom) := getUsersInRoom room w in
      let users :=
        (λ r, let user := users w !!! r in
              user_set_hasAudio (or_false (hasAudio user))
                (user_set_hasVideo (or_false (hasVideo user)) user))
          <$> inRoom in
      (w, [if callback then Answer sid users
           else Emit sid (Sent.USERS_IN_ROOM users)])
  end.

(** *** Status and typing: [userSocketMap] rebuilt with copies *)

Definition user_set_status (s : USER_CONNECTION_STATUS) (u : User) : User :=
  mkUser (username u) (roomId u) s (cursorPosition u) (typing u)
    (currentFile u) (socketId u) (rtpCapabilities u) (producerTransport u)
    (consumerTransport u) (producers u) (consumers u) (hasVideo u)
    (hasAudio u).

Definition user_set_cursorPosition (n : Z) (u : User) : User :=
  mkUser (username u) (roomId u) (status u) n (typing u)
    (currentFile u) (socketId u) (rtpCapabilities u) (producerTransport u)
    (consumerTransport u) (producers u) (consumers u) (hasVideo u)
    (hasAudio u).

Definition user_set_typing (b : bool) (u : User) : User :=
  mkUser (username u) (roomId u) (status u) (cursorPosition u) b
    (currentFile u) (socketId u) (rtpCapabilities u) (producerTransport u)
    (consumerTransport u) (producers u) (consumers u) (hasVideo u)
    (hasAudio u).

Definition user_set_currentFile (f : option string) (u : User) : User :=
  mkUser (username u) (roomId u) (status u) (cursorPosition u) (typing u)
    f (socketId u) (rtpCapabilities u) (producerTransport u)
    (consumerTransport u) (producers u) (consumers u) (hasVideo u)
    (hasAudio u).

(** [rs.map((user) => test(user) ? { ...user, .. } : user)] over the
    references [rs], [us] being the User objects: an entry that passes the
    test becomes a new object, the copy [f] describes, and the others stay
    the objects they were.  The objects copied stay in the heap as they are:
    a suspended handler that holds one goes on using it. *)
Fixpoint map_users (test : User → bool) (f : User → User) (rs : list uref)
    (us : list User) : list User * list uref :=
  match rs with
  | [] => (us, [])
  | r :: rs' =>
      let user := us !!! r in
      let rest :=
        map_users test f rs' (if test user then us ++ [f user] else us) in
      (rest.1, (if test user then length us else r) :: rest.2)
  end.

(** [userSocketMap = userSocketMap.map(..)].  The copy [{ ...user }] has
    the fields of the object copied, and so the same Maps [producers] and
    [consumers]: what is stored in them later through either object is
    there for both. *)
Definition remap (test : User → bool) (f : User → User) (w : World) : World :=
  let res := map_users test f (registry w) (users w) in
  rebind res.2 (set_users (λ _, res.1) w).

Definition set_status (s : USER_CONNECTION_STATUS) (sender target : string)
    (ev : Sent.t) (w : World) : World * list Delivery :=
  let w :=
    remap (λ u, String.eqb (socketId u) target) (user_set_status s) w in
  let '(w, found) := getRoomId target w in
  match found with
  | None => (w, [])
  | Some room => (w, broadcast room sender ev w)
  end.

Definition on_USER_OFFLINE (sid target : string)
  : World → World * list Delivery :=
  set_status OFFLINE sid target (Sent.USER_OFFLINE target).

Definition on_USER_ONLINE (sid target : string)
  : World → World * list Delivery :=
  set_status ONLINE sid target (Sent.USER_ONLINE target).

Definition on_TYPING_START (sid : string) (pos : Z) (w : World)
  : World * list Delivery :=
  let w :=
    remap (λ u, String.eqb (socketId u) sid)
      (λ u, user_set_cursorPosition pos (user_set_typing true u)) w in
  let '(w, found) := getUserBySocketId sid w in
  match found with
  | None => (w, [])
  | Some (_, user) =>
      (w, broadcast (roomId user) sid (Sent.TYPING_START user) w)
  end.

Definition on_TYPING_PAUSE (sid : string) (w : World)
  : World * list Delivery :=
  let w :=
    remap (λ u, String.eqb (socketId u) sid) (user_set_typing false) w in
  let '(w, found) := getUserBySocketId sid w in
  match found with
  | None => (w, [])
  | Some (_, user) =>
      (w, broadcast (roomId user) sid (Sent.TYPING_PAUSE user) w)
  end.

(** *** [types/editor.ts]: the active editor of each user, by room *)

Record ActiveEditor : Type := mkActiveEditor {
  editor_fileId : string;
  editor_cursor : option Z
}.

(** [Map<string, Map<SocketId, { fileId, cursor }>>]; nothing iterates over
    it, so the order of its entries plays no part. *)
Abbreviation EditorMap := (gmap string (gmap string ActiveEditor)).

Definition getActiveEditor (room sid : string) (m : EditorMap)
  : option ActiveEditor :=
  match m !! room with
  | None => None
  | Some roomEditors => roomEditors !! sid
  end.

Definition setActiveEditor (room sid file : string) (cursor : option Z)
    (m : EditorMap) : EditorMap :=
  let m :=
    match m !! room with
    | Some _ => m
    | None => <[room := ∅]> m
    end in
  let roomEditors := m !!! room in
  <[room := <[sid := mkActiveEditor file cursor]> roomEditors]> m.

Definition clearActiveEditor (room sid : string) (m : EditorMap)
  : EditorMap :=
  match m !! room with
  | Some roomEditors =>
      let roomEditors := delete sid roomEditors in
      if (size roomEditors =? 0)%nat then delete room m
      else <[room := roomEditors]> m
  | None => m
  end.

(** *** JOIN_ROOM and the [rooms] it keeps *)

(** [interface RoomUser] *)
Record RoomUser : Type := mkRoomUser {
  ru_id : string;
  ru_username : string;
  ru_activeFile : option string;
  ru_cursorPosition : option Z;
  ru_videoProducerId : option string;
  ru_audioProducerId : option string;
  ru_producers : list JsValue;
  ru_consumers : list JsValue;
  ru_isVideoEnabled : bool;
  ru_isAudioEnabled : bool
}.

(** [rooms]: for each room the object [users], whose properties
    [Object.values] lists in the order they were added.  (The keys of
    [users] are socket ids; those socket.io makes are twenty characters
    long and are neither array indices, which would be listed first, nor
    [__proto__].) *)
Abbreviation Rooms := (gmap string (JsMap.t RoomUser)).

(** The names [rooms] has without any room being added: the properties of
    [Object.prototype], which are not rooms. *)
Definition inherited : list string :=
  [ "constructor"; "__defineGetter__"; "__defineSetter__"; "hasOwnProperty";
    "__lookupGetter__"; "__lookupSetter__"; "isPrototypeOf";
    "propertyIsEnumerable"; "toString"; "valueOf"; "__proto__";
    "toLocaleString" ].

(** What JOIN_ROOM answers for an entry of [users]. *)
Definition member (user : RoomUser) : RoomMember :=
  mkRoomMember (ru_id user) (ru_username user) (ru_id user)
    (ru_activeFile user) (ru_cursorPosition user)
    (ru_isVideoEnabled user || false) (ru_isAudioEnabled user || false)
    ONLINE false None
    (ru_isVideoEnabled user || false) (ru_isAudioEnabled user || false).

(** ** The coordinator and the other handlers together *)

Record Server : Type := mkServer {
  world : World;
  activeEditorMap : EditorMap;
  rooms : Rooms;
  sent : list Delivery          (* what the other handlers sent, in order *)
}.

Definition start : Server := mkServer initial ∅ ∅ [].

(** JOIN_ROOM.  The socket joins and the peer is registered before [rooms]
    is looked at; for a room name that [rooms] inherits, [rooms[roomId]] is
    not a room, the assignment into its [users] throws and the handler
    answers with the error. *)
Definition on_JOIN_ROOM (sid room name : string) (s : Server) : Server :=
  let w := socket_join sid room (world s) in
  let w :=
    match List.find (user_is w (λ u, String.eqb (socketId u) sid))
            (registry w) with
    | Some _ => w
    | None =>
        push_user
          (mkUser name room ONLINE 0 false None sid VUndefined None None None
             None (Some false) (Some false)) w
    end in
  if bool_decide (room ∈ inherited) then
    mkServer (error "Error joining room:" (Some "TypeError") w)
      (activeEditorMap s) (rooms s)
      (sent s ++ [Failed sid "Failed to join room"])
  else
    let roomUsers :=
      JsMap.set sid
        (mkRoomUser sid name None None None None [] [] false false)
        (default [] (rooms s !! room)) in
    mkServer w (activeEditorMap s) (<[room := roomUsers]> (rooms s))
      (sent s
       ++ broadcast room sid (Sent.USER_JOINED sid name sid false false) w
       ++ [Joined sid (member <$> JsMap.values roomUsers)]).

(** A handler that works on [userSocketMap] and the rooms alone. *)
Definition within (h : World → World * list Delivery) (s : Server) : Server :=
  let '(w, ds) := h (world s) in
  mkServer w (activeEditorMap s) (rooms s) (sent s ++ ds).

Definition on_ACTIVE_EDITOR_CHANGED (sid room file : string)
    (cursor : option Z) (s : Server) : Server :=
  let editors := setActiveEditor room sid file cursor (activeEditorMap s) in
  let w :=
    remap (λ u, String.eqb (socketId u) sid)
      (user_set_currentFile (Some file)) (world s) in
  mkServer w editors (rooms s)
    (sent s ++ broadcast room sid (Sent.ACTIVE_EDITOR_CHANGED sid file cursor)
                 w).

Definition signal (sid : string) (m : Signal) : Server → Server :=
  match m with
  | ToRoom m => within (on_room_message sid m)
  | SYNC_FILE_STRUCTURE fileStructure openFiles activeFile target =>
      within (on_SYNC_FILE_STRUCTURE fileStructure openFiles activeFile target)
  | USER_OFFLINE target => within (on_USER_OFFLINE sid target)
  | USER_ONLINE target => within (on_USER_ONLINE sid target)
  | TYPING_START pos => within (on_TYPING_START sid pos)
  | TYPING_PAUSE => within (on_TYPING_PAUSE sid)
  | SYNC_DRAWING drawingData target =>
      within (on_SYNC_DRAWING sid drawingData target)
  | VIDEO_CALL_STARTED name room => within (on_VIDEO_CALL_STARTED sid name room)
  | GET_USERS_IN_ROOM callback => within (on_GET_USERS_IN_ROOM sid callback)
  | ACTIVE_EDITOR_CHANGED room file cursor =>
      on_ACTIVE_EDITOR_CHANGED sid room file cursor
  | JOIN_ROOM room name => on_JOIN_ROOM sid room name
  end.

Inductive Incoming : Type :=
  | Core (ev : Event)                     (* an event of the coordinator *)
  | Other (sid : string) (m : Signal).    (* another message of socket [sid] *)

Definition serve (canConsume : string → JsValue → bool) (i : Incoming)
    (s : Server) : Server :=
  match i with
  | Core ev => mkServer (react canConsume ev (world s)) (activeEditorMap s)
                 (rooms s) (sent s)
  | Other sid m => signal sid m s
  end.

Definition serve_all (canConsume : string → JsValue → bool)
    (ins : list Incoming) (s : Server) : Server :=
  foldl (flip (serve canConsume)) s ins.

(** ** [config.ts]: the address the media engine listens on *)

(** An entry of [os.networkInterfaces()]. *)
Record NetworkInterfaceInfo : Type := mkNetworkInterfaceInfo {
  address : string;
  family : string;
  internal : bool
}.

(** [function getLocalIp()], given [os.networkInterfaces()] as its entries
    in the order of [Object.keys]; the [return] inside the [for] leaves the
    callback of [forEach] for one interface, not the search. *)
Definition getLocalIp
    (ifaces : list (string * option (list NetworkInterfaceInfo))) : string :=
  foldl
    (λ localIp entry,
       match entry.2 with
       | None => localIp
       | Some iface =>
           match List.find
                   (λ info, String.eqb (family info) "IPv4"
                            && negb (internal info)) iface with
           | Some info => address info
           | None => localIp
           end
       end)
    "127.0.0.1" ifaces.

(** ** Notions the properties are stated with *)

(** Socket [sid] is registered and [getUserBySocketId] returns [peer]. *)
Definition registered (w : World) (sid : string) (peer : uref) : Prop :=
  List.find (user_is w (λ u, String.eqb (socketId u) sid)) (registry w)
  = Some peer.

(** Consumer [c] has [producerId === pid]. *)
Definition sourced_from (w : World) (pid : string) (c : cref) : bool :=
  String.eqb (consumer_producerId (consumerObjs w !!! c)) pid.

Definition matching (w : World) (pid : string) (es : list (string * cref))
  : list cref :=
  List.filter (sourced_from w pid) (es.*2).

Definition user_matching (w : World) (pid : string) (ci : nat) (r : uref)
  : list cref :=
  match consumers_in w (users w !!! r) with
  | Some m => matching w pid (drop ci m)
  | None => []
  end.

Definition rest_matching (w : World) (pid : string) (us : list uref)
    (ci : nat) : list cref :=
  match us with
  | [] => []
  | r :: us' =>
      user_matching w pid ci r ++ concat (user_matching w pid 0 <$> us')
  end.

(** The consumers of producer [p] that the two loops of a cascade over the
    array [arr] meet from the positions [ui], [ci] on, in order. *)
Definition remaining (w : World) (p : pref) (arr : aref) (ui ci : nat)
  : list cref :=
  rest_matching w (producer_id (producerObjs w !!! p))
    (drop ui (arrays w !!! arr)) ci.

(** The consumers of producer [p] held by the registered peers. *)
Definition consumers_of (w : World) (p : pref) : list cref :=
  remaining w p (userSocketMap w) 0 0.

(** The flags of the consumers [l] set as a resolved pause or resume does. *)
Definition flagged (m : Mode) (l : list cref) (h : list Consumer)
  : list Consumer :=
  foldl (λ h c, alter (consumer_set_paused (paused_after m)) c h) h l.

(** The world once a cascade has paused (resumed) the consumers [l]: their
    flags are set and the calls their listeners made are in flight. *)
Definition after_cascade (m : Mode) (l : list cref) (w : World) : World :=
  set_pending (λ q, q ++ ((λ c, Some (forward m c)) <$> l))
    (set_consumerObjs (flagged m l) w).

(** An engine that resolves every request. *)
Definition obliging (eng : Request → Outcome) : Prop :=
  ∀ rq, ∃ rep, eng rq = Resolved rep.

(** [pauseProducer] or [resumeProducer], by what it does. *)
Definition start_cascade (m : Mode) (producer : pref) : Request * Task :=
  match m with
  | Pause => pauseProducer producer
  | Resume => resumeProducer producer
  end.

(** CREATE_PRODUCER_TRANSPORT or CREATE_CONSUMER_TRANSPORT, by direction. *)
Definition CREATE_TRANSPORT (d : Direction) : Message :=
  match d with
  | ProducerSide => CREATE_PRODUCER_TRANSPORT
  | ConsumerSide => CREATE_CONSUMER_TRANSPORT
  end.

(** TOGGLE_VIDEO or TOGGLE_AUDIO, by the kind it is about. *)
Definition TOGGLE (k : MediaKind) : bool → bool → Message :=
  match k with
  | video => TOGGLE_VIDEO
  | audio => TOGGLE_AUDIO
  end.

(** Every registered peer is in the socket.io room of its [roomId]. *)
Definition rooms_ok (w : World) : Prop :=
  ∀ r, r ∈ registry w →
    socketId (users w !!! r) ∈ room_members (roomId (users w !!! r)) w.

(** The producers of [h] are still there in [h'], with their kind. *)
Definition kept (h h' : list Producer) : Prop :=
  ∀ p, p < length h →
    p < length h' ∧ producer_kind (h' !!! p) = producer_kind (h !!! p).

(** What every step but a join or a disconnect leaves alone: who is
    registered, the rooms, and which socket and room a peer belongs to. *)
Record steady (w w' : World) : Prop := mkSteady {
  steady_arrays : arrays w' = arrays w;
  steady_userSocketMap : userSocketMap w' = userSocketMap w;
  steady_ioRooms : ioRooms w' = ioRooms w;
  steady_length : length (users w') = length (users w);
  steady_socketId : ∀ r, socketId (users w' !!! r) = socketId (users w !!! r);
  steady_roomId : ∀ r, roomId (users w' !!! r) = roomId (users w !!! r);
  steady_kept : kept (producerObjs w) (producerObjs w')
}.

(** The references of the registry point to users. *)
Definition registry_ok (w : World) : Prop :=
  ∀ r, r ∈ registry w → r < length (users w).

(** ** A call, to try the properties on *)

(** A router that lets everybody consume everything. *)
Definition always : string → JsValue → bool := λ _ _, true.

Definition reply (id : string) : Reply := mkReply id (VObject "{}") "simple".

(** [const user: User = { username, roomId }] of EditorPage.tsx: the payload
    the client of the repository sends with JOIN_REQUEST.  It holds nothing
    else; the fields the handler sets have no value of their own here. *)
Definition client_user (username roomId : string) : User :=
  mkUser username roomId ONLINE 0 false None EmptyString VUndefined None None
    None None None None.

(** Alice, Bob and Carol join room r1; Alice sends video, Bob and Carol
    receive it and have resumed their consumers.  Producer 0 is Alice's,
    consumer 0 is Bob's and consumer 1 is Carol's. *)
Definition call_events : list Event :=
  [ EvConnect "A"; EvConnect "B"; EvConnect "C";
    EvMessage "A" (JOIN_REQUEST (client_user "alice" "r1"));
    EvMessage "B" (JOIN_REQUEST (client_user "bob" "r1"));
    EvMessage "C" (JOIN_REQUEST (client_user "carol" "r1"));
    EvMessage "B" (JOIN_ROUTER (VObject "caps"));
    EvMessage "C" (JOIN_ROUTER (VObject "caps"));
    EvMessage "A" CREATE_PRODUCER_TRANSPORT;
    EvSettle 0 (Resolved (reply "tA")); EvSettle 1 (Resolved (reply "ok"));
    EvMessage "B" CREATE_CONSUMER_TRANSPORT;
    EvSettle 2 (Resolved (reply "tB")); EvSettle 3 (Resolved (reply "ok"));
    EvMessage "C" CREATE_CONSUMER_TRANSPORT;
    EvSettle 4 (Resolved (reply "tC")); EvSettle 5 (Resolved (reply "ok"));
    EvMessage "A" (PRODUCE video (VObject "vp8") (Some "tA"));
    EvSettle 6 (Resolved (reply "p1"));
    EvMessage "B" (CONSUME "A"); EvSettle 7 (Resolved (reply "c1"));
    EvMessage "C" (CONSUME "A"); EvSettle 8 (Resolved (reply "c2"));
    EvMessage "B" (RESUME_CONSUMER "c1" true);
    EvSettle 9 (Resolved (reply "ok"));
    EvMessage "C" (RESUME_CONSUMER "c2" true);
    EvSettle 10 (Resolved (reply "ok")) ].

Definition call : World := run always call_events initial.

(** Alice and Bob join room r1 and Alice sends video (producer 0); Bob has
    neither capabilities nor a consumer transport yet. *)
Definition lobby_events : list Event :=
  [ EvConnect "A"; EvConnect "B";
    EvMessage "A" (JOIN_REQUEST (client_user "alice" "r1"));
    EvMessage "B" (JOIN_REQUEST (client_user "bob" "r1"));
    EvMessage "A" CREATE_PRODUCER_TRANSPORT;
    EvSettle 0 (Resolved (reply "tA")); EvSettle 1 (Resolved (reply "ok"));
    EvMessage "A" (PRODUCE video (VObject "vp8") (Some "tA"));
    EvSettle 2 (Resolved (reply "p1")) ].

Definition lobby : World := run always lobby_events initial.

(** Then Bob joins the router and gets his consumer transport. *)
Definition studio_events : list Event :=
  lobby_events
  ++ [ EvMessage "B" (JOIN_ROUTER (VObject "caps"));
       EvMessage "B" CREATE_CONSUMER_TRANSPORT;
       EvSettle 3 (Resolved (reply "tB"));
       EvSettle 4 (Resolved (reply "ok")) ].

Definition studio : World := run always studio_events initial.


(** In the call, Alice turns her video off; pauseProducer has paused the
    producer and Bob's consumer 0, whose listener has forwarded the pause,
    and waits for the engine to pause Carol's consumer 1 (request 14) when
    Bob's RESUME_CONSUMER for his consumer is handled and resolved (request
    15); then the engine answers the cascade and Carol's listener.  Every
    request resolves. *)
Definition resume_amid_pause : list Event :=
  [ EvMessage "A" (TOGGLE_VIDEO false true);
    EvSettle 11 (Resolved (reply "ok"));
    EvSettle 12 (Resolved (reply "ok"));
    EvSettle 13 (Resolved (reply "ok"));
    EvMessage "B" (RESUME_CONSUMER "c1" true);
    EvSettle 15 (Resolved (reply "ok"));
    EvSettle 14 (Resolved (reply "ok"));
    EvSettle 16 (Resolved (reply "ok")) ].

(** Alice alone in room r1. *)
Definition hall_events : list Event :=
  [ EvConnect "A"; EvMessage "A" (JOIN_REQUEST (client_user "alice" "r1")) ].

Definition hall : World := run always hall_events initial.

(** Alice asks twice for a producer transport before the engine has answered
    the first request; then the engine answers both. *)
Definition overlapping_creates : list Event :=
  [ EvMessage "A" CREATE_PRODUCER_TRANSPORT;
    EvMessage "A" CREATE_PRODUCER_TRANSPORT;
    EvSettle 0 (Resolved (reply "t1")); EvSettle 2 (Resolved (reply "ok"));
    EvSettle 1 (Resolved (reply "t2")); EvSettle 3 (Resolved (reply "ok")) ].

(** An engine that resolves everything. *)
Definition sound_engine : Request → Outcome := λ _, Resolved (reply "ok").

(** An engine that fails to pause consumer [c] and resolves the rest. *)
Definition engine_failing_on (c : cref) : Request → Outcome :=
  λ rq,
    match rq with
    | RqConsumer Pause c' =>
        if (c' =? c)%nat then Rejected "channel closed"
        else Resolved (reply "ok")
    | _ => Resolved (reply "ok")
    end.

(** The details CONSUME returns for producer [p] when [createConsumer]
    gets through for it: its checks pass in [w] and the engine resolves the
    request. *)
Definition created_details (canConsume : string → JsValue → bool)
    (eng : Request → Outcome) (w : World) (peer : uref) (p : pref)
  : option ConsumerDetails :=
  let P := producerObjs w !!! p in
  match createConsumer canConsume peer p w with
  | (_, inr rq) =>
      match eng rq with
      | Resolved rep =>
          Some (mkConsumerDetails (producer_id P) (reply_id rep)
                  (producer_kind P) (reply_data rep) (reply_type rep)
                  (producer_paused P) (is_video (producer_kind P))
                  (producer_appData P))
      | Rejected _ => None
      end
  | (_, inl _) => None
  end.

(** What the run of CONSUME relies on in the world [wi] it has reached from
    [w]; storing a consumer keeps it. *)
Definition same_footing (peer otherPeer : uref) (w wi : World) : Prop :=
  consumerTransport (users wi !!! peer) = consumerTransport (users w !!! peer)
  ∧ rtpCapabilities (users wi !!! peer) = rtpCapabilities (users w !!! peer)
  ∧ producers_in wi (users wi !!! otherPeer)
    = producers_in w (users w !!! otherPeer)
  ∧ producerObjs wi = producerObjs w.

(** What a line of [console.error] leaves in the trace. *)
Definition is_log (o : Output) : Prop := ∃ msg err, o = OError msg err.

(** ** Notions for the other handlers and the further properties *)

(** A call of [setActiveEditor] or [clearActiveEditor]. *)
Inductive EditorCall : Type :=
  | SetActiveEditor (room sid file : string) (cursor : option Z)
  | ClearActiveEditor (room sid : string).

Definition editor_call (c : EditorCall) (m : EditorMap) : EditorMap :=
  match c with
  | SetActiveEditor room sid file cursor =>
      setActiveEditor room sid file cursor m
  | ClearActiveEditor room sid => clearActiveEditor room sid m
  end.

(** No room of the map is left with an empty map of editors. *)
Definition editors_ok (m : EditorMap) : Prop :=
  ∀ room roomEditors, m !! room = Some roomEditors → roomEditors ≠ ∅.

(** What [getLocalIp] looks for in an interface: its first IPv4 address
    that is not internal. *)
Definition external_IPv4 (iface : list NetworkInterfaceInfo)
  : option NetworkInterfaceInfo :=
  List.find (λ info, String.eqb (family info) "IPv4" && negb (internal info))
    iface.

(** The pair JOIN_REQUEST compares: the room and the name of a peer. *)
Definition name_in_room (w : World) (r : uref) : string * string :=
  (roomId (users w !!! r), username (users w !!! r)).

(** No two registered peers have the same name in the same room. *)
Definition names_unique (w : World) : Prop :=
  NoDup (name_in_room w <$> registry w).

(** The array [userSocketMap] is bound to exists. *)
Definition bound (w : World) : Prop :=
  userSocketMap w < length (arrays w).

(** The object JOIN_REQUEST makes for a new peer out of the [user] sent:
    [{ ...user, socketId, status, cursorPosition, typing, currentFile }]. *)
Definition newcomer (sid : string) (user : User) : User :=
  mkUser (username user) (roomId user) ONLINE 0 false None sid
    (rtpCapabilities user) (producerTransport user) (consumerTransport user)
    (producers user) (consumers user) (hasVideo user) (hasAudio user).

(** The registered peers, as [userSocketMap] lists them. *)
Definition roster (w : World) : list User :=
  (λ r, users w !!! r) <$> registry w.

(** The peer [getUserBySocketId] finds for a socket. *)
Definition user_of (w : World) (sid : string) : option User :=
  List.find (λ u, String.eqb (socketId u) sid) (roster w).

(** The room [getRoomId] finds for a socket. *)
Definition room_of (w : World) (sid : string) : option string :=
  match user_of w sid with
  | Some u =>
      if String.eqb (roomId u) EmptyString then None else Some (roomId u)
  | None => None
  end.

(** USER_OFFLINE and USER_ONLINE, by the status they set. *)
Definition on_status (st : USER_CONNECTION_STATUS)
  : string → string → World → World * list Delivery :=
  match st with
  | OFFLINE => on_USER_OFFLINE
  | ONLINE => on_USER_ONLINE
  end.

Definition status_event (st : USER_CONNECTION_STATUS) (target : string)
  : Sent.t :=
  match st with
  | OFFLINE => Sent.USER_OFFLINE target
  | ONLINE => Sent.USER_ONLINE target
  end.

(** What a handler that rebuilds [userSocketMap] does to a peer. *)
Definition copy_if (test : User → bool) (f : User → User) (u : User) : User :=
  if test u then f u else u.

(** The socket a test is about. *)
Definition of_socket (sid : string) (u : User) : bool :=
  String.eqb (socketId u) sid.

(** What the coordinator relies on in a peer is the same in [u] and [u'];
    the Maps are the same objects. *)
Definition same_media (u u' : User) : Prop :=
  username u' = username u
  ∧ roomId u' = roomId u
  ∧ socketId u' = socketId u
  ∧ rtpCapabilities u' = rtpCapabilities u
  ∧ producerTransport u' = producerTransport u
  ∧ consumerTransport u' = consumerTransport u
  ∧ producers u' = producers u
  ∧ consumers u' = consumers u
  ∧ hasVideo u' = hasVideo u
  ∧ hasAudio u' = hasAudio u.

(** A server that has reached the world [w] and has recorded nothing
    else. *)
Definition serving (w : World) : Server := mkServer w ∅ ∅ [].

(** The object JOIN_ROOM makes for a new peer. *)
Definition roommate (sid name room : string) : User :=
  mkUser name room ONLINE 0 false None sid VUndefined None None None None
    (Some false) (Some false).

(** The entry JOIN_ROOM makes in [rooms]. *)
Definition room_entry (sid name : string) : RoomUser :=
  mkRoomUser sid name None None None None [] [] false false.

(** Socket [sid] has an entry of its own in the [users] of [room]. *)
Definition listed (s : Server) (room sid : string) : Prop :=
  ∃ user,
    JsMap.get sid (default [] (rooms s !! room)) = Some user
    ∧ ru_id user = sid.

(** The peer JOIN_ROOM adds to the registry for a socket: none when the
    socket has one. *)
Definition registered_by_join_room (w : World) (sid name room : string)
  : list User :=
  match user_of w sid with
  | Some _ => []
  | None => [roommate sid name room]
  end.

(** The handler of a message as it starts: the world it leaves and the
    call it is suspended at, if any. *)
Definition begin (canConsume : string → JsValue → bool) (sid : string)
    (m : Message) (w : World) : World * Parked :=
  match m with
  | JOIN_REQUEST user => (on_JOIN_REQUEST sid user w, None)
  | JOIN_ROUTER caps => (on_JOIN_ROUTER sid caps w, None)
  | CREATE_PRODUCER_TRANSPORT => on_CREATE_PRODUCER_TRANSPORT sid w
  | CREATE_CONSUMER_TRANSPORT => on_CREATE_CONSUMER_TRANSPORT sid w
  | PRODUCE kind rtpParameters transportId =>
      on_PRODUCE sid kind rtpParameters transportId w
  | CONSUME sourcePeerId => on_CONSUME canConsume sid sourcePeerId w
  | RESUME_CONSUMER consumerId callback =>
      on_RESUME_CONSUMER sid consumerId callback w
  | TOGGLE_VIDEO enabled callback =>
      (on_TOGGLE_VIDEO sid enabled callback w, None)
  | TOGGLE_AUDIO enabled callback =>
      (on_TOGGLE_AUDIO sid enabled callback w, None)
  end.

(** The message comes with a callback. *)
Definition expects_answer (m : Message) : bool :=
  match m with
  | JOIN_REQUEST _ => false
  | RESUME_CONSUMER _ callback
  | TOGGLE_VIDEO _ callback
  | TOGGLE_AUDIO _ callback => callback
  | _ => true
  end.

(** The calls of the engine the handler of a message may wait for. *)
Definition awaits (m : Message) (w : World) : nat :=
  match m with
  | CREATE_PRODUCER_TRANSPORT | CREATE_CONSUMER_TRANSPORT => 2
  | PRODUCE _ _ _ | RESUME_CONSUMER _ _ => 1
  | CONSUME sourcePeerId =>
      match List.find (user_is w (λ u, String.eqb (socketId u) sourcePeerId))
              (registry w) with
      | Some otherPeer =>
          length (default [] (producers_in w (users w !!! otherPeer)))
      | None => 0
      end
  | _ => 0
  end.

(** The answers given through a callback among some outputs. *)
Definition answers (os : list Output) : list (string * Response) :=
  omap (λ o, match o with OAck to r => Some (to, r) | _ => None end) os.

(** What the ACTIVE_EDITOR_CHANGED messages of socket [sid] for [room]
    among [ins] have announced, in the order they came. *)
Definition announced (room sid : string) (ins : list Incoming)
  : list ActiveEditor :=
  omap (λ i,
          match i with
          | Other sid' (ACTIVE_EDITOR_CHANGED room' file cursor) =>
              if decide (room' = room ∧ sid' = sid)
              then Some (mkActiveEditor file cursor) else None
          | _ => None
          end) ins.

(** * Properties *)

(** ** The loops of a cascade *)

Lemma scan_entries_spec w pid es ci :
  match scan_entries w pid es ci with
  | Some (i, c) =>
      ∃ k, i = ci + k ∧ matching w pid es = c :: matching w pid (drop (S k) es)
  | None => matching w pid es = []
  end.
Proof.
  revert ci. induction es as [|[key c] es IH]; intros ci; simpl; [done|].
  unfold matching; simpl. fold (sourced_from w pid c).
  destruct (sourced_from w pid c) eqn:Hc.
  - exists 0. split; [lia|]. by rewrite drop_0.
  - specialize (IH (S ci)).
    destruct (scan_entries w pid es (S ci)) as [[i c']|].
    + destruct IH as (k & -> & IH). exists (S k). split; [lia|]. exact IH.
    + exact IH.
Qed.

Lemma rest_matching_0 w pid us :
  rest_matching w pid us 0 = concat (user_matching w pid 0 <$> us).
Proof. by destruct us. Qed.

Lemma scan_users_spec w pid us ui ci :
  match scan_users w pid us ui ci with
  | Some (ui', ci', c) =>
      ∃ k, ui' = ui + k
           ∧ rest_matching w pid us ci
             = c :: rest_matching w pid (drop k us) (S ci')
  | None => rest_matching w pid us ci = []
  end.
Proof.
  revert ui ci. induction us as [|r us IH]; intros ui ci; [done|].
  assert (Hskip : user_matching w pid ci r = [] →
    match scan_users w pid us (S ui) 0 with
    | Some (ui', ci', c) =>
        ∃ k, ui' = ui + k
             ∧ rest_matching w pid (r :: us) ci
               = c :: rest_matching w pid (drop k (r :: us)) (S ci')
    | None => rest_matching w pid (r :: us) ci = []
    end).
  { intros Hnil. specialize (IH (S ui) 0).
    destruct (scan_users w pid us (S ui) 0) as [[[ui' ci'] c]|].
    - destruct IH as (k & -> & IH). exists (S k). split; [lia|].
      simpl. by rewrite Hnil, <- rest_matching_0.
    - simpl. by rewrite Hnil, <- rest_matching_0. }
  simpl scan_users. unfold user_matching in Hskip.
  destruct (consumers_in w (users w !!! r)) as [m|] eqn:Hm; [|by apply Hskip].
  pose proof (scan_entries_spec w pid (drop ci m) ci) as Hscan.
  destruct (scan_entries w pid (drop ci m) ci) as [[i c]|]; [|by apply Hskip].
  destruct Hscan as (k & -> & Hscan). exists 0. split; [lia|].
  simpl. unfold user_matching. rewrite Hm, Hscan, !drop_drop.
  by replace (ci + S k) with (S (ci + k)) by lia.
Qed.

Lemma next_consumer_spec w p arr ui ci :
  match next_consumer w p arr ui ci with
  | Some (ui', ci', c) =>
      remaining w p arr ui ci = c :: remaining w p arr ui' (S ci')
  | None => remaining w p arr ui ci = []
  end.
Proof.
  unfold next_consumer, remaining.
  pose proof (scan_users_spec w (producer_id (producerObjs w !!! p))
                (drop ui (arrays w !!! arr)) ui ci) as H.
  destruct (scan_users _ _ _ _ _) as [[[ui' ci'] c]|]; [|done].
  destruct H as (k & -> & ->). by rewrite drop_drop.
Qed.

(** Positions, arrays and maps fix what remains; flags and requests in
    flight do not matter. *)
Lemma remaining_ext w w' p arr ui ci :
  users w' = users w →
  arrays w' = arrays w →
  consumerMaps w' = consumerMaps w →
  (∀ c, consumer_producerId (consumerObjs w' !!! c)
        = consumer_producerId (consumerObjs w !!! c)) →
  producer_id (producerObjs w' !!! p) = producer_id (producerObjs w !!! p) →
  remaining w' p arr ui ci = remaining w p arr ui ci.
Proof.
  intros Hu Ha Hcm Hc Hp. unfold remaining. rewrite Ha, Hp. clear Hp.
  set (pid := producer_id (producerObjs w !!! p)).
  assert (Hm : ∀ es, matching w' pid es = matching w pid es).
  { intros es. unfold matching. induction (es.*2) as [|c l IH]; [done|].
    simpl. rewrite IH. unfold sourced_from. by rewrite Hc. }
  assert (Hum : ∀ i r, user_matching w' pid i r = user_matching w pid i r).
  { intros i r. unfold user_matching, consumers_in. rewrite Hu, Hcm.
    destruct (consumers (users w !!! r)); [apply Hm|done]. }
  destruct (drop ui (arrays w !!! arr)) as [|r us]; [done|].
  simpl. rewrite Hum. f_equal.
  induction us as [|r' us IH]; [done|].
  rewrite !fmap_cons. cbn [concat]. by rewrite Hum, IH.
Qed.

Lemma consumer_producerId_alter b c c' (h : list Consumer) :
  consumer_producerId (alter (consumer_set_paused b) c h !!! c')
  = consumer_producerId (h !!! c').
Proof.
  rewrite list_lookup_total_alter.
  by case_decide as H; [destruct H as [-> _]|].
Qed.

Lemma producer_id_alter b p p' (h : list Producer) :
  producer_id (alter (producer_set_paused b) p h !!! p')
  = producer_id (h !!! p').
Proof.
  rewrite list_lookup_total_alter.
  by case_decide as H; [destruct H as [-> _]|].
Qed.

Lemma after_cascade_nil m w : after_cascade m [] w = w.
Proof.
  destruct w. unfold after_cascade, set_pending, set_consumerObjs; simpl.
  by rewrite app_nil_r.
Qed.

Lemma after_cascade_cons m c l rep w :
  after_cascade m l
    (park (engine (RqConsumer m c) rep w, Some (forward m c)))
  = after_cascade m (c :: l) w.
Proof.
  unfold after_cascade, set_pending, set_consumerObjs; simpl.
  by rewrite <- app_assoc.
Qed.

Lemma flagged_lookup m l : ∀ (h : list Consumer) c C,
  h !! c = Some C →
  flagged m l h !! c
  = Some (if decide (c ∈ l) then consumer_set_paused (paused_after m) C
          else C).
Proof.
  induction l as [|a l IH]; intros h c C Hc.
  - change (flagged m [] h) with h. rewrite Hc.
    case_decide; [set_solver|done].
  - change (flagged m (a :: l) h)
      with (flagged m l (alter (consumer_set_paused (paused_after m)) a h)).
    destruct (decide (a = c)) as [->|Hne].
    + rewrite (IH _ c (consumer_set_paused (paused_after m) C))
        by (by rewrite list_lookup_alter_eq, Hc).
      rewrite (decide_True (P := c ∈ c :: l)) by set_solver.
      by destruct (decide (c ∈ l)).
    + rewrite (IH _ c C) by (by rewrite list_lookup_alter_ne).
      destruct (decide (c ∈ l)).
      * rewrite decide_True; [done|]. by apply elem_of_cons; right.
      * rewrite decide_False; [done|]. rewrite elem_of_cons. by intros [?|?].
Qed.

Lemma flagged_lookup_notin m l : ∀ (h : list Consumer) c,
  c ∉ l → flagged m l h !! c = h !! c.
Proof.
  induction l as [|a l IH]; intros h c Hc; [done|].
  change (flagged m (a :: l) h)
    with (flagged m l (alter (consumer_set_paused (paused_after m)) a h)).
  rewrite IH by set_solver. apply list_lookup_alter_ne. set_solver.
Qed.

(** A consumer in the map of a registered peer, with the id of [p] as its
    [producerId], is one the cascade has to reach. *)
Lemma consumers_of_elem w p r es key c :
  r ∈ registry w →
  consumers_in w (users w !!! r) = Some es →
  (key, c) ∈ es →
  sourced_from w (producer_id (producerObjs w !!! p)) c = true →
  c ∈ consumers_of w p.
Proof.
  intros Hr Hes Hc Hsrc.
  unfold consumers_of, remaining. rewrite drop_0, rest_matching_0.
  apply list_elem_of_In, in_concat.
  exists (user_matching w (producer_id (producerObjs w !!! p)) 0 r). split.
  - apply list_elem_of_In, list_elem_of_fmap. by exists r.
  - unfold user_matching. rewrite Hes, drop_0. unfold matching.
    apply filter_In. split; [|done].
    apply list_elem_of_In, list_elem_of_fmap. by exists (key, c).
Qed.

Section Cascade.

Variable canConsume : string → JsValue → bool.
Variable eng : Request → Outcome.

(** The cascade meets the consumers that remain one after the other, as long
    as the engine resolves the calls. *)
Lemma cascade_prefix m p arr l1 : ∀ rest w ui ci fuel,
  remaining w p arr ui ci = l1 ++ rest →
  (∀ c, c ∈ l1 → ∃ rep, eng (RqConsumer m c) = Resolved rep) →
  ∃ ui1 ci1,
    drive canConsume (length l1 + fuel) eng (cascade_loop m p arr ui ci w)
    = drive canConsume fuel eng
        (cascade_loop m p arr ui1 ci1 (after_cascade m l1 w))
    ∧ remaining (after_cascade m l1 w) p arr ui1 ci1 = rest.
Proof.
  induction l1 as [|c l1 IH]; intros rest w ui ci fuel Hrem Heng.
  - exists ui, ci. by rewrite after_cascade_nil.
  - unfold cascade_loop at 1.
    pose proof (next_consumer_spec w p arr ui ci) as Hnext.
    destruct (next_consumer w p arr ui ci) as [[[ui' ci'] c']|];
      rewrite Hrem in Hnext; [|done].
    simpl in Hnext. injection Hnext as <- Hrem'.
    destruct (Heng c) as [rep Hrep]; [set_solver|].
    change (length (c :: l1) + fuel) with (S (length l1 + fuel)).
    cbn [drive]. rewrite Hrep. cbn [resume].
    set (w1 := park (engine (RqConsumer m c) rep w, Some (forward m c))).
    destruct (IH rest w1 ui' (S ci') fuel) as (ui1 & ci1 & Hrun & Hrest).
    + rewrite Hrem'. apply remaining_ext; try done.
      intros c0. apply consumer_producerId_alter.
    + intros c0 Hc0. apply Heng. set_solver.
    + exists ui1, ci1. unfold w1 in *.
      rewrite after_cascade_cons in Hrun, Hrest. by rewrite Hrun.
Qed.

Lemma cascade_loop_done m p arr ui ci w :
  remaining w p arr ui ci = [] → cascade_loop m p arr ui ci w = (w, None).
Proof.
  intros Hrem. unfold cascade_loop.
  pose proof (next_consumer_spec w p arr ui ci) as Hnext.
  destruct (next_consumer w p arr ui ci) as [[[ui' ci'] c']|]; [|done].
  by rewrite Hrem in Hnext.
Qed.

Lemma drive_done fuel w : drive canConsume fuel eng (w, None) = (w, None).
Proof. by destruct fuel. Qed.

(** The whole run of a cascade whose calls all resolve. *)
Lemma cascade_complete m p w fuel :
  (∃ rep, eng (RqProducer m p) = Resolved rep) →
  (∀ c, c ∈ consumers_of w p → ∃ rep, eng (RqConsumer m c) = Resolved rep) →
  length (consumers_of w p) < fuel →
  drive canConsume fuel eng
    (w, Some (RqProducer m p, KProducerDone m p))
  = (after_cascade m (consumers_of w p)
       (set_producerObjs (alter (producer_set_paused (paused_after m)) p) w),
     None).
Proof.
  intros [rep Hrep] Heng Hfuel.
  destruct fuel as [|fuel]; [lia|]. cbn [drive]. rewrite Hrep.
  cbn [resume engine].
  set (w0 := set_producerObjs _ w).
  change (userSocketMap w0) with (userSocketMap w).
  assert (Hrem : remaining w0 p (userSocketMap w) 0 0
                 = consumers_of w p ++ []).
  { rewrite app_nil_r. apply remaining_ext; try done.
    apply producer_id_alter. }
  replace fuel with (length (consumers_of w p)
                     + (fuel - length (consumers_of w p))) by lia.
  destruct (cascade_prefix m p (userSocketMap w) _ _ _ _ _
              (fuel - length (consumers_of w p)) Hrem Heng)
    as (ui1 & ci1 & -> & Hrest).
  rewrite cascade_loop_done by done. apply drive_done.
Qed.

End Cascade.

(** ** C1 and C6: what a cascade reaches *)

(** C1, as stated, fails.  Consumers 0 (Bob's) and 1 (Carol's) have the id
    of Alice's producer 0 as their producerId, and pauseProducer completes
    with one of them running in each of three runs:
    - Bob has disconnected; his consumer, which nothing has closed, is in
      no map of a registered peer, the cascade does not meet it and every
      call of the engine resolves;
    - everybody is registered and every call resolves, and Bob's
      RESUME_CONSUMER is handled while the cascade waits for the engine
      ([resume_amid_pause]): in the end no request is in flight, the
      producer is paused and Bob's consumer runs;
    - the engine rejects the call that would pause Carol's consumer. *)
Lemma pause_leaves_consumers_running :
  consumers_of call 0 = [0; 1]
  ∧ consumer_producerId (consumerObjs call !!! 0)
    = producer_id (producerObjs call !!! 0)
  ∧ consumer_producerId (consumerObjs call !!! 1)
    = producer_id (producerObjs call !!! 0)
  ∧ (let w := react always (EvDisconnecting "B") call in
     let ended := drive always 5 sound_engine (w, Some (pauseProducer 0)) in
     consumerObjs w = consumerObjs call
     ∧ ended.2 = None
     ∧ producer_paused (producerObjs ended.1 !!! 0) = true
     ∧ consumer_paused (consumerObjs ended.1 !!! 0) = false)
  ∧ (let w := run always resume_amid_pause call in
     pending w = replicate (length (pending w)) None
     ∧ producer_paused (producerObjs w !!! 0) = true
     ∧ consumer_paused (consumerObjs w !!! 0) = false)
  ∧ (let ended :=
       drive always 5 (engine_failing_on 1) (call, Some (pauseProducer 0)) in
     ended.2 = None
     ∧ consumer_paused (consumerObjs ended.1 !!! 1) = false).
Proof. by vm_compute. Qed.

(** C1, amended: when every call of the cascade resolves and it runs on its
    own, pauseProducer(P) completes with every consumer that a registered
    peer holds for P paused, and resumeProducer(P) completes with every such
    consumer not paused; each of them has been reached (its listener's call
    is in flight).  What a rejected call does to the consumers after it is
    C6. *)
Theorem cascade_reaches_registered_consumers
    (canConsume : string → JsValue → bool) (eng : Request → Outcome)
    (w : World) (p : pref) (fuel : nat) :
  obliging eng →
  length (consumers_of w p) < fuel →
  ∃ wp wr,
    drive canConsume fuel eng (w, Some (pauseProducer p)) = (wp, None)
    ∧ drive canConsume fuel eng (w, Some (resumeProducer p)) = (wr, None)
    ∧ ∀ r es key c C,
        r ∈ registry w →
        consumers_in w (users w !!! r) = Some es →
        (key, c) ∈ es →
        consumerObjs w !! c = Some C →
        consumer_producerId C = producer_id (producerObjs w !!! p) →
        consumer_paused <$> consumerObjs wp !! c = Some true
        ∧ consumer_paused <$> consumerObjs wr !! c = Some false
        ∧ Some (forward Pause c) ∈ pending wp
        ∧ Some (forward Resume c) ∈ pending wr.
Proof.
  intros Heng Hfuel.
  eexists _, _. split; [|split].
  - apply (cascade_complete canConsume eng Pause); auto.
  - apply (cascade_complete canConsume eng Resume); auto.
  - intros r es key c C Hr Hes Hc HC Hsrc.
    assert (Hin : c ∈ consumers_of w p).
    { eapply consumers_of_elem; eauto. unfold sourced_from.
      rewrite (list_lookup_total_correct _ _ _ HC), Hsrc.
      apply String.eqb_refl. }
    cbn [after_cascade set_pending set_consumerObjs set_producerObjs
         consumerObjs pending].
    rewrite !(flagged_lookup _ _ _ _ _ HC), !decide_True by done.
    repeat split; try done.
    + apply elem_of_app. right. apply list_elem_of_fmap. by exists c.
    + apply elem_of_app. right. apply list_elem_of_fmap. by exists c.
Qed.

Lemma cascade_reaches_registered_consumers_witness :
  ∃ wp wr,
    drive always 3 sound_engine (call, Some (pauseProducer 0)) = (wp, None)
    ∧ drive always 3 sound_engine (call, Some (resumeProducer 0))
      = (wr, None)
    ∧ ∀ r es key c C,
        r ∈ registry call →
        consumers_in call (users call !!! r) = Some es →
        (key, c) ∈ es →
        consumerObjs call !! c = Some C →
        consumer_producerId C = producer_id (producerObjs call !!! 0) →
        consumer_paused <$> consumerObjs wp !! c = Some true
        ∧ consumer_paused <$> consumerObjs wr !! c = Some false
        ∧ Some (forward Pause c) ∈ pending wp
        ∧ Some (forward Resume c) ∈ pending wr.
Proof.
  apply (cascade_reaches_registered_consumers always sound_engine call 0 3).
  - intros rq. by exists (reply "ok").
  - vm_compute. lia.
Defined.

(** C6 holds of what the code is meant to do, not of what it does.  Both
    loops of pauseProducer sit in one [try]: in the call, the engine rejects
    the call that would pause Bob's consumer 0, the [catch] logs it and the
    function returns.  Carol's consumer 1 of the same producer is not
    visited: no call is made for it, nothing is emitted on it and it is
    still running. *)
Lemma pause_failure_skips_later_consumers :
  consumers_of call 0 = [0; 1]
  ∧ (let ended :=
       drive always 5 (engine_failing_on 0) (call, Some (pauseProducer 0)) in
     ended.2 = None
     ∧ trace ended.1
       = trace call
         ++ [OError "Error pausing producer p1:" (Some "channel closed")]
     ∧ consumer_paused (consumerObjs ended.1 !!! 1) = false
     ∧ pending ended.1 = pending call).
Proof. by vm_compute. Qed.

(** The same in any world, for pauseProducer and resumeProducer run on their
    own: a rejected pause (resume) of one consumer ends the cascade.  The
    consumers met before it have been paused (resumed); the error is logged
    and the function completes; the consumer whose call was rejected and
    every consumer after it are left as they were, and no call is made for
    those after it. *)
Theorem cascade_ends_at_rejected_consumer
    (canConsume : string → JsValue → bool) (eng : Request → Outcome)
    (m : Mode) (w : World) (p : pref) (l1 : list cref) (c : cref)
    (l2 : list cref) (e : string) (fuel : nat) :
  consumers_of w p = l1 ++ c :: l2 →
  (∃ rep, eng (RqProducer m p) = Resolved rep) →
  (∀ c', c' ∈ l1 → ∃ rep, eng (RqConsumer m c') = Resolved rep) →
  eng (RqConsumer m c) = Rejected e →
  length l1 + 1 < fuel →
  ∃ w',
    drive canConsume fuel eng (w, Some (start_cascade m p)) = (w', None)
    ∧ trace w'
      = trace w
        ++ [OError ("Error " +:+ verb m +:+ " producer "
                      +:+ producer_id (producerObjs w !!! p) +:+ ":")
              (Some e)]
    ∧ pending w' = pending w ++ ((λ c', Some (forward m c')) <$> l1)
    ∧ (∀ c' C, c' ∈ l1 → consumerObjs w !! c' = Some C →
         consumer_paused <$> consumerObjs w' !! c' = Some (paused_after m))
    ∧ (∀ c', c' ∉ l1 → consumerObjs w' !! c' = consumerObjs w !! c').
Proof.
  intros Hall [rep Hrep] Hl1 Hc Hfuel.
  replace (start_cascade m p) with (RqProducer m p, KProducerDone m p)
    by (by destruct m).
  destruct fuel as [|fuel]; [lia|]. cbn [drive]. rewrite Hrep.
  cbn [resume engine].
  set (w0 := set_producerObjs _ w).
  change (userSocketMap w0) with (userSocketMap w).
  assert (Hrem : remaining w0 p (userSocketMap w) 0 0 = l1 ++ c :: l2).
  { rewrite <- Hall. apply remaining_ext; try done. apply producer_id_alter. }
  replace fuel with (length l1 + (fuel - length l1)) by lia.
  destruct (cascade_prefix canConsume eng m p (userSocketMap w) _ _ _ _ _
              (fuel - length l1) Hrem Hl1)
    as (ui1 & ci1 & -> & Hrest).
  unfold cascade_loop.
  pose proof (next_consumer_spec (after_cascade m l1 w0) p
                (userSocketMap w) ui1 ci1) as Hnext.
  destruct (next_consumer _ _ _ _ _) as [[[ui' ci'] c0]|];
    rewrite Hrest in Hnext; [|done].
  injection Hnext as <- _.
  destruct (fuel - length l1) as [|fuel'] eqn:Hf; [lia|].
  cbn [drive]. rewrite Hc. cbn [resume]. rewrite drive_done.
  eexists. split; [done|].
  cbn [cascade_failed error out after_cascade set_pending set_consumerObjs
       trace pending consumerObjs producerObjs].
  unfold w0. cbn [set_producerObjs trace pending consumerObjs producerObjs].
  rewrite producer_id_alter.
  repeat split; try done.
  - intros c' C Hc' HC. by rewrite (flagged_lookup _ _ _ _ _ HC), decide_True.
  - intros c' Hc'. by apply flagged_lookup_notin.
Qed.

Lemma cascade_ends_at_rejected_consumer_witness :
  ∃ w',
    drive always 5 (engine_failing_on 1) (call, Some (start_cascade Pause 0))
    = (w', None)
    ∧ trace w'
      = trace call
        ++ [OError ("Error " +:+ verb Pause +:+ " producer "
                      +:+ producer_id (producerObjs call !!! 0) +:+ ":")
              (Some "channel closed")]
    ∧ pending w' = pending call ++ ((λ c', Some (forward Pause c')) <$> [0])
    ∧ (∀ c' C, c' ∈ [0] → consumerObjs call !! c' = Some C →
         consumer_paused <$> consumerObjs w' !! c'
         = Some (paused_after Pause))
    ∧ (∀ c', c' ∉ [0] → consumerObjs w' !! c' = consumerObjs call !! c').
Proof.
  apply (cascade_ends_at_rejected_consumer always (engine_failing_on 1)
           Pause call 0 [0] 1 [] "channel closed" 5).
  - by vm_compute.
  - by exists (reply "ok").
  - intros c' Hc'. exists (reply "ok").
    apply list_elem_of_singleton in Hc'. by subst.
  - reflexivity.
  - simpl. lia.
Defined.

(** ** C5 and C9: CONSUME *)

Lemma out_out a b w : out b (out a w) = out (a ++ b) w.
Proof. unfold out; simpl. by rewrite app_assoc. Qed.

Lemma out_nil w : out [] w = w.
Proof. destruct w. unfold out; simpl. by rewrite app_nil_r. Qed.

Lemma getUserBySocketId_registered w sid peer :
  registered w sid peer →
  getUserBySocketId sid w = (w, Some (peer, users w !!! peer)).
Proof. unfold registered, getUserBySocketId. by intros ->. Qed.

Lemma drop_S_tail {A} (l : list A) i x l' :
  drop i l = x :: l' → drop (S i) l = l'.
Proof.
  intros H. replace (S i) with (i + 1) by lia.
  by rewrite <- drop_drop, H.
Qed.

Section Consume.

Variable canConsume : string → JsValue → bool.

(** With no consumer transport, or no capabilities, every createConsumer
    throws before it reaches the engine. *)
Lemma createConsumer_unready peer p w :
  consumerTransport (users w !!! peer) = None
  ∨ truthy (rtpCapabilities (users w !!! peer)) = false →
  ∃ msg e, createConsumer canConsume peer p w = (error msg None w, inl e).
Proof.
  unfold createConsumer. intros [H|H].
  - rewrite H. eauto.
  - destruct (consumerTransport (users w !!! peer)); [|eauto].
    rewrite H. simpl. eauto.
Qed.

Lemma consume_from_unready peer sid otherPeer es : ∀ idx acc w,
  consumerTransport (users w !!! peer) = None
  ∨ truthy (rtpCapabilities (users w !!! peer)) = false →
  ∃ logs,
    Forall is_log logs
    ∧ length logs = 2 * length es
    ∧ consume_from canConsume peer sid otherPeer es idx acc w
      = (out (logs ++ [OAck sid (RConsumed acc)]) w, None).
Proof.
  induction es as [|[key p] es IH]; intros idx acc w Hun.
  - exists []. split; [constructor|done].
  - cbn [consume_from].
    destruct (createConsumer_unready peer p w Hun) as (msg & e & ->).
    destruct (IH (S idx) acc (consume_failed p e (error msg None w)) Hun)
      as (logs & Hlogs & Hlen & ->).
    unfold consume_failed, error. rewrite !out_out.
    eexists (_ :: _ :: logs). split; [|split; [|done]].
    + repeat constructor; [by eexists _, _ ..|done].
    + simpl. lia.
Qed.

Lemma same_footing_out peer otherPeer w wi os :
  same_footing peer otherPeer w wi → same_footing peer otherPeer w (out os wi).
Proof. done. Qed.

Lemma same_footing_stored peer otherPeer w wi rq rep p c :
  same_footing peer otherPeer w wi →
  (∃ t caps paused appData, rq = RqConsume t p caps paused appData) →
  same_footing peer otherPeer w
    (consumer_created peer p c (engine rq rep wi)).1.
Proof.
  intros (Ht & Hc & Hp & Ho) (t & caps & paused & appData & ->).
  unfold same_footing, consumer_created, consumers_map, producers_in in *.
  cbn [engine set_consumerObjs users].
  destruct (consumers (users wi !!! peer));
    cbn [fst set_consumerMaps update_user set_users users producerMaps
         producerObjs]; [done|].
  rewrite !list_lookup_total_alter. repeat case_decide; simpl; try done.
  all: destruct_and?; subst; done.
Qed.

Lemma consumer_created_trace peer p c w :
  trace (consumer_created peer p c w).1 = trace w.
Proof.
  unfold consumer_created, consumers_map.
  by destruct (consumers (users w !!! peer)).
Qed.

Lemma consumer_created_details peer p c w :
  (consumer_created peer p c w).2
  = mkConsumerDetails (producer_id (producerObjs w !!! p))
      (consumer_id (consumerObjs w !!! c))
      (consumer_kind (consumerObjs w !!! c))
      (consumer_rtpParameters (consumerObjs w !!! c))
      (consumer_type (consumerObjs w !!! c))
      (producer_paused (producerObjs w !!! p))
      (consumer_paused (consumerObjs w !!! c))
      (producer_appData (producerObjs w !!! p)).
Proof.
  unfold consumer_created, consumers_map.
  by destruct (consumers (users w !!! peer)).
Qed.

Lemma createConsumer_footing peer otherPeer p w wi :
  same_footing peer otherPeer w wi →
  match createConsumer canConsume peer p w with
  | (_, inl e) =>
      ∃ msg, createConsumer canConsume peer p wi = (error msg None wi, inl e)
  | (_, inr rq) => createConsumer canConsume peer p wi = (wi, inr rq)
  end.
Proof.
  intros (Ht & Hc & Hp & Ho). unfold createConsumer.
  rewrite Ht, Hc, Ho.
  destruct (consumerTransport (users w !!! peer)); [|eauto].
  destruct (negb _ || negb _); eauto.
Qed.

Variable eng : Request → Outcome.

(** The loop of CONSUME run on its own from position [idx]. *)
Lemma consume_from_run peer sid otherPeer w m es : ∀ idx acc wi fuel,
  same_footing peer otherPeer w wi →
  producers_in w (users w !!! otherPeer) = Some m →
  drop idx m = es →
  (length es ≤ fuel)%nat →
  ∃ w' logs,
    drive canConsume fuel eng
      (consume_from canConsume peer sid otherPeer es idx acc wi)
    = (w', None)
    ∧ Forall is_log logs
    ∧ trace w'
      = trace wi ++ logs
        ++ [OAck sid
              (RConsumed
                 (acc ++ omap (created_details canConsume eng w peer)
                           (es.*2)))].
Proof.
  induction es as [|[key p] es IH]; intros idx acc wi fuel Hfoot Hm Hdrop Hfuel.
  - exists (ack sid (RConsumed acc) wi), []. cbn [consume_from].
    rewrite drive_done.
    split; [done|]. split; [constructor|]. simpl. by rewrite app_nil_r.
  - cbn [consume_from].
    replace (omap (created_details canConsume eng w peer)
               (((key, p) :: es).*2))
      with (match created_details canConsume eng w peer p with
            | Some d => d :: omap (created_details canConsume eng w peer)
                               (es.*2)
            | None => omap (created_details canConsume eng w peer) (es.*2)
            end) by done.
    unfold created_details at 1.
    pose proof (createConsumer_footing peer otherPeer p w wi Hfoot) as Hcc.
    destruct (createConsumer canConsume peer p w) as [w0 [e|rq]] eqn:Hcre.
    + destruct Hcc as [msg ->].
      destruct (IH (S idx) acc (consume_failed p e (error msg None wi)) fuel)
        as (w' & logs & Hrun & Hlogs & Htr); try done.
      { by eapply drop_S_tail. }
      { simpl in Hfuel. lia. }
      exists w', (OError msg None :: OError
        ("Failed to create consumer for producer "
           +:+ producer_id (producerObjs wi !!! p) +:+ ":") (Some e) :: logs).
      split; [done|]. split.
      * repeat constructor; [by eexists _, _ ..|done].
      * rewrite Htr. simpl. by rewrite <- !app_assoc.
    + rewrite Hcc. destruct fuel as [|fuel]; [simpl in Hfuel; lia|].
      cbn [drive resume].
      assert (Hrq : ∃ t caps paused appData,
                 rq = RqConsume t p caps paused appData
                 ∧ paused = is_video (producer_kind (producerObjs w !!! p))).
      { revert Hcre. unfold createConsumer.
        destruct (consumerTransport _); [|done].
        destruct (negb _ || negb _); [done|]. intros [= _ <-]. eauto 10. }
      destruct Hrq as (t & caps & paused & appData & -> & ->).
      destruct (eng _) as [rep|e] eqn:Heng.
      * destruct (consumer_created peer p (length (consumerObjs wi))
                    (engine _ rep wi)) as [w1 details] eqn:Hcc1.
        assert (Hfoot1 : same_footing peer otherPeer w w1).
        { replace w1 with (w1, details).1 by done. rewrite <- Hcc1.
          apply same_footing_stored; eauto 10. }
        unfold consume_loop.
        destruct Hfoot1 as (? & ? & Hp1 & ?) eqn:Hfoot1'. rewrite Hp1, Hm.
        cbn [from_option id]. rewrite (drop_S_tail _ _ _ _ Hdrop).
        destruct (IH (S idx) (acc ++ [details]) w1 fuel)
          as (w' & logs & Hrun & Hlogs & Htr); try done.
        { by eapply drop_S_tail. }
        { simpl in Hfuel. lia. }
        exists w', logs. split; [done|]. split; [done|].
        rewrite Htr. f_equal.
        { replace w1 with (w1, details).1 by done.
          by rewrite <- Hcc1, consumer_created_trace. }
        do 3 f_equal. rewrite <- app_assoc. f_equal. simpl. f_equal.
        replace details with (w1, details).2 by done.
        rewrite <- Hcc1, consumer_created_details.
        destruct Hfoot as (_ & _ & _ & Hobjs).
        cbn [engine set_consumerObjs producerObjs consumerObjs].
        rewrite lookup_total_app_r, Nat.sub_diag by done.
        by rewrite Hobjs.
      * unfold consume_loop.
        destruct Hfoot as (? & ? & Hp1 & ?) eqn:Hfoot'.
        unfold producers_in in Hp1, Hm |- *.
        cbn [consume_failed error out users producerMaps]. rewrite Hp1, Hm.
        cbn [from_option id]. rewrite (drop_S_tail _ _ _ _ Hdrop).
        destruct (IH (S idx) acc
                    (consume_failed p e (error "consume error:" (Some e) wi))
                    fuel)
          as (w' & logs & Hrun & Hlogs & Htr); try done.
        { by eapply drop_S_tail. }
        { simpl in Hfuel. lia. }
        eexists w', (_ :: _ :: logs). split; [exact Hrun|]. split.
        -- repeat constructor; [by eexists _, _ ..|done].
        -- rewrite Htr. simpl. by rewrite <- !app_assoc.
Qed.

End Consume.

(** The loop of CONSUME resumed at position [idx] visits the producer that
    is at this position of the map now, whatever the map held when the call
    was made. *)
Lemma consume_loop_visits canConsume peer sid otherPeer idx acc w m key p rq :
  producers_in w (users w !!! otherPeer) = Some m →
  m !! idx = Some (key, p) →
  createConsumer canConsume peer p w = (w, inr rq) →
  consume_loop canConsume peer sid otherPeer idx acc w
  = (w, Some (rq, KConsumed peer sid otherPeer idx acc p)).
Proof.
  intros Hm Hidx Hcc. unfold consume_loop. rewrite Hm. cbn [from_option id].
  rewrite (drop_S _ _ _ Hidx). cbn [consume_from]. by rewrite Hcc.
Qed.




(** C9: a subscriber with no consumer transport, or with no capabilities,
    gets no error from CONSUME: every createConsumer throws, is logged twice
    and swallowed, no request reaches the engine, and the answer is the
    empty list. *)
Theorem consume_by_unready_subscriber
    (canConsume : string → JsValue → bool) (w : World)
    (sid sourcePeerId : string) (peer otherPeer : uref) :
  registered w sid peer →
  registered w sourcePeerId otherPeer →
  consumerTransport (users w !!! peer) = None
  ∨ truthy (rtpCapabilities (users w !!! peer)) = false →
  ∃ logs,
    Forall is_log logs
    ∧ length logs
      = 2 * length (default [] (producers_in w (users w !!! otherPeer)))
    ∧ react canConsume (EvMessage sid (CONSUME sourcePeerId)) w
      = out (logs ++ [OAck sid (RConsumed [])]) w.
Proof.
  intros Hpeer Hother Hun. cbn [react handle]. unfold on_CONSUME.
  rewrite (getUserBySocketId_registered _ _ _ Hpeer).
  unfold registered in Hother. rewrite Hother.
  destruct (producers_in w (users w !!! otherPeer)) as [m|] eqn:Hm.
  - destruct (0 <? JsMap.size m)%nat eqn:Hsize.
    + unfold consume_loop. rewrite Hm. cbn [from_option id]. rewrite drop_0.
      destruct (consume_from_unready canConsume peer sid otherPeer m 0 [] w
                  Hun) as (logs & Hlogs & Hlen & ->).
      by exists logs.
    + destruct m; [|done]. by exists [].
  - by exists [].
Qed.

Lemma consume_by_unready_subscriber_witness :
  ∃ logs,
    Forall is_log logs
    ∧ length logs
      = 2 * length (default [] (producers_in lobby (users lobby !!! 0)))
    ∧ react always (EvMessage "B" (CONSUME "A")) lobby
      = out (logs ++ [OAck "B" (RConsumed [])]) lobby.
Proof.
  apply (consume_by_unready_subscriber always lobby "B" "A" 1 0).
  - by vm_compute.
  - by vm_compute.
  - left. by vm_compute.
Defined.

(** ** C7, C8 and C3: join, negotiation, transports *)

(** C7: a JOIN_REQUEST with a username some peer of the room already has
    gets USERNAME_EXISTS and changes nothing else: no peer is registered and
    no room is joined. *)
Theorem join_with_taken_username
    (canConsume : string → JsValue → bool) (w : World)
    (sid : string) (user : User) (r : uref) :
  r ∈ registry w →
  roomId (users w !!! r) = roomId user →
  username (users w !!! r) = username user →
  react canConsume (EvMessage sid (JOIN_REQUEST user)) w
  = out [OEmit sid USERNAME_EXISTS] w
  ∧ registry (react canConsume (EvMessage sid (JOIN_REQUEST user)) w)
    = registry w
  ∧ users (react canConsume (EvMessage sid (JOIN_REQUEST user)) w)
    = users w
  ∧ ioRooms (react canConsume (EvMessage sid (JOIN_REQUEST user)) w)
    = ioRooms w.
Proof.
  intros Hr Hroom Hname. cbn [react handle]. unfold on_JOIN_REQUEST.
  destruct (List.find _ (registry w)) eqn:Hfind; [done|].
  apply list_elem_of_In in Hr.
  pose proof (List.find_none _ _ Hfind _ Hr) as Hno.
  unfold user_is in Hno. by rewrite Hroom, Hname, !String.eqb_refl in Hno.
Qed.

Lemma join_with_taken_username_witness :
  let w' :=
    react always (EvMessage "C" (JOIN_REQUEST (client_user "bob" "r1")))
      lobby in
  w' = out [OEmit "C" USERNAME_EXISTS] lobby
  ∧ registry w' = registry lobby
  ∧ users w' = users lobby
  ∧ ioRooms w' = ioRooms lobby.
Proof.
  apply (join_with_taken_username always lobby "C" (client_user "bob" "r1")
           1).
  - apply list_elem_of_In. vm_compute. tauto.
  - by vm_compute.
  - by vm_compute.
Defined.


(** A change of a peer's fields other than [socketId] keeps who is
    registered. *)
Lemma user_is_update_user w r f g x :
  (∀ u, g (f u) = g u) →
  user_is (update_user r f w) g x = user_is w g x.
Proof.
  intros Hg. unfold user_is, update_user, set_users; simpl.
  rewrite list_lookup_total_alter.
  by case_decide as Hd; [destruct Hd as [-> _]; rewrite Hg|].
Qed.

Lemma registered_update_user w sid peer r f :
  (∀ u, socketId (f u) = socketId u) →
  registered w sid peer → registered (update_user r f w) sid peer.
Proof.
  intros Hf. unfold registered.
  change (registry (update_user r f w)) with (registry w).
  intros <-. induction (registry w) as [|x l IH]; [done|].
  cbn [List.find]. rewrite user_is_update_user, IH; [done|].
  intros u. by rewrite Hf.
Qed.




(** The guard of the two CREATE_..._TRANSPORT handlers: a request that finds
    the field of its direction set is answered with the already-exists error
    and changes nothing: the transport stays, none is asked of the engine. *)
Lemma second_transport_is_rejected
    (canConsume : string → JsValue → bool) (d : Direction) (w : World)
    (sid : string) (peer : uref) (t : tref) :
  registered w sid peer →
  transport_of d (users w !!! peer) = Some t →
  react canConsume (EvMessage sid (CREATE_TRANSPORT d)) w
  = ack sid (RError (already_exists d)) w
  ∧ transport_of d
      (users (react canConsume (EvMessage sid (CREATE_TRANSPORT d)) w)
         !!! peer)
    = Some t
  ∧ transportObjs (react canConsume (EvMessage sid (CREATE_TRANSPORT d)) w)
    = transportObjs w
  ∧ pending (react canConsume (EvMessage sid (CREATE_TRANSPORT d)) w)
    = pending w.
Proof.
  intros Hpeer Ht.
  assert (Hr : react canConsume (EvMessage sid (CREATE_TRANSPORT d)) w
               = ack sid (RError (already_exists d)) w).
  { destruct d; cbn [CREATE_TRANSPORT react handle];
      unfold on_CREATE_PRODUCER_TRANSPORT, on_CREATE_CONSUMER_TRANSPORT,
        create_transport;
      rewrite (getUserBySocketId_registered _ _ _ Hpeer);
      by rewrite Ht. }
  by rewrite Hr.
Qed.

Lemma second_transport_is_rejected_in_studio :
  react always (EvMessage "A" (CREATE_TRANSPORT ProducerSide)) studio
  = ack "A" (RError (already_exists ProducerSide)) studio
  ∧ transport_of ProducerSide
      (users (react always (EvMessage "A" (CREATE_TRANSPORT ProducerSide))
                studio) !!! 0)
    = Some 0
  ∧ transportObjs
      (react always (EvMessage "A" (CREATE_TRANSPORT ProducerSide)) studio)
    = transportObjs studio
  ∧ pending
      (react always (EvMessage "A" (CREATE_TRANSPORT ProducerSide)) studio)
    = pending studio.
Proof.
  apply (second_transport_is_rejected always ProducerSide studio "A" 0 0).
  - by vm_compute.
  - by vm_compute.
Defined.

(** C3: the guard is tested before [await createWebRtcTransport()] and the
    field is set after it.  Two CREATE_PRODUCER_TRANSPORT of one peer that
    both arrive before the engine has answered pass the guard: once the first
    is served the peer holds transport 0; the second is served as well, so
    that two producer transports of the peer exist, neither closed, the
    second has replaced the first in the peer's field, and both requests were
    answered with parameters, none with the already-exists error. *)
Theorem overlapping_creates_are_both_served :
  registered hall "A" 0
  ∧ producerTransport (users hall !!! 0) = None
  ∧ producerTransport
      (users (run always (take 4 overlapping_creates) hall) !!! 0)
    = Some 0
  ∧ producerTransport (users (run always overlapping_creates hall) !!! 0)
    = Some 1
  ∧ transportObjs (run always overlapping_creates hall)
    = [mkTransport "t1" (VObject "{}") false;
       mkTransport "t2" (VObject "{}") false]
  ∧ drop (length (trace hall)) (trace (run always overlapping_creates hall))
    = [OAck "A" (RTransportParams "t1" (VObject "{}"));
       OAck "A" (RTransportParams "t2" (VObject "{}"))].
Proof. by vm_compute. Qed.

(** ** C10: the toggles do not wait for the cascade *)

Lemma park_all {A} (f : A → Request * Task) (l : list A) : ∀ w,
  foldl (λ w x, park (w, Some (f x))) w l
  = set_pending (λ q, q ++ ((λ x, Some (f x)) <$> l)) w.
Proof.
  induction l as [|x l IH]; intros w.
  - destruct w. unfold set_pending; simpl. by rewrite app_nil_r.
  - cbn [foldl]. rewrite IH. unfold park, set_pending; simpl.
    by rewrite <- app_assoc.
Qed.

Lemma roomId_alter r r' f (us : list User) :
  (∀ u, roomId (f u) = roomId u) →
  roomId (alter f r us !!! r') = roomId (us !!! r').
Proof.
  intros Hf. rewrite list_lookup_total_alter.
  by case_decide as Hd; [destruct Hd as [-> _]; rewrite Hf|].
Qed.



(** ** What the steps leave alone *)

Lemma kept_refl h : kept h h.
Proof. by intros p Hp. Qed.

Lemma kept_trans h1 h2 h3 : kept h1 h2 → kept h2 h3 → kept h1 h3.
Proof.
  intros H12 H23 p Hp. destruct (H12 p Hp) as [Hp2 Hk2].
  destruct (H23 p Hp2) as [Hp3 Hk3]. split; [done|]. by rewrite Hk3.
Qed.

Lemma kept_snoc h x : kept h (h ++ [x]).
Proof.
  intros p Hp. split; [rewrite length_app; lia|].
  by rewrite lookup_total_app_l.
Qed.

Lemma kept_alter h b p0 : kept h (alter (producer_set_paused b) p0 h).
Proof.
  intros p Hp. split; [by rewrite length_alter|].
  rewrite list_lookup_total_alter.
  by case_decide as Hd; [destruct Hd as [-> _]|].
Qed.

Lemma steady_refl w : steady w w.
Proof. split; try done; apply kept_refl. Qed.

Lemma steady_trans w1 w2 w3 : steady w1 w2 → steady w2 w3 → steady w1 w3.
Proof.
  intros [] []. split; try congruence; by eapply kept_trans.
Qed.

Lemma steady_out w0 w os : steady w0 w → steady w0 (out os w).
Proof. by intros []. Qed.

Lemma steady_set_pending w0 w f : steady w0 w → steady w0 (set_pending f w).
Proof. by intros []. Qed.

Lemma steady_set_producerMaps w0 w f :
  steady w0 w → steady w0 (set_producerMaps f w).
Proof. by intros []. Qed.

Lemma steady_set_consumerMaps w0 w f :
  steady w0 w → steady w0 (set_consumerMaps f w).
Proof. by intros []. Qed.

Lemma steady_park w0 r : steady w0 r.1 → steady w0 (park r).
Proof. destruct r as [w [rt|]]; [apply steady_set_pending|done]. Qed.

Lemma steady_update_user w0 w r f :
  (∀ u, socketId (f u) = socketId u) →
  (∀ u, roomId (f u) = roomId u) →
  steady w0 w → steady w0 (update_user r f w).
Proof.
  intros Hs Hr []. split; try done.
  - cbn [update_user set_users users]. by rewrite length_alter.
  - intros x. cbn [update_user set_users users].
    rewrite list_lookup_total_alter.
    case_decide as Hd; [destruct Hd as [-> _]; rewrite Hs|]; auto.
  - intros x. cbn [update_user set_users users].
    rewrite list_lookup_total_alter.
    case_decide as Hd; [destruct Hd as [-> _]; rewrite Hr|]; auto.
Qed.

Lemma steady_engine w0 w rq rep : steady w0 w → steady w0 (engine rq rep w).
Proof.
  intros []. destruct rq; split; try done; cbn [engine set_producerObjs
    producerObjs].
  - eapply kept_trans; [done|]. apply kept_snoc.
  - eapply kept_trans; [done|]. apply kept_alter.
Qed.

Ltac user_field :=
  intros [];
  first
    [ done
    | match goal with
      | |- context [user_set_has ?k] => by destruct k
      | |- context [user_set_transport ?d] => by destruct d
      end ].

Lemma steady_getUserBySocketId w0 w sid :
  steady w0 w → steady w0 (getUserBySocketId sid w).1.
Proof.
  intros H. unfold getUserBySocketId.
  destruct (List.find _ _); [done|]. by apply steady_out.
Qed.

Lemma steady_producers_map w0 w peer :
  steady w0 w → steady w0 (producers_map peer w).1.
Proof.
  intros H. unfold producers_map. destruct (producers _); [done|].
  cbn [fst]. apply steady_update_user; [by intros [] ..|].
  by apply steady_set_producerMaps.
Qed.

Lemma steady_consumers_map w0 w peer :
  steady w0 w → steady w0 (consumers_map peer w).1.
Proof.
  intros H. unfold consumers_map. destruct (consumers _); [done|].
  cbn [fst]. apply steady_update_user; [by intros [] ..|].
  by apply steady_set_consumerMaps.
Qed.

Ltac steady_step :=
  match goal with
  | H : steady ?a ?b |- steady ?a ?b => exact H
  | |- steady ?w ?w => apply steady_refl
  | |- steady _ (out _ _) => apply steady_out
  | |- steady _ (error _ _ _) => apply steady_out
  | |- steady _ (ack _ _ _) => apply steady_out
  | |- steady _ (emit_to_room _ _ _ _) => apply steady_out
  | |- steady _ (ack_if ?b _ _ _) => destruct b; cbn [ack_if]
  | |- steady _ (set_pending _ _) => apply steady_set_pending
  | |- steady _ (set_producerMaps _ _) => apply steady_set_producerMaps
  | |- steady _ (set_consumerMaps _ _) => apply steady_set_consumerMaps
  | |- steady ?w0 ?g =>
      match g with
      | context [producers_map ?peer ?w] =>
          let H' := fresh "Hsteady" in
          assert (H' : steady w0 (producers_map peer w).1)
            by (apply steady_producers_map; repeat steady_step);
          destruct (producers_map peer w) as [? ?]; cbn [fst] in H'
      | context [consumers_map ?peer ?w] =>
          let H' := fresh "Hsteady" in
          assert (H' : steady w0 (consumers_map peer w).1)
            by (apply steady_consumers_map; repeat steady_step);
          destruct (consumers_map peer w) as [? ?]; cbn [fst] in H'
      end
  | |- steady _ (update_user _ _ _) =>
      apply steady_update_user; [user_field | user_field |]
  | |- steady _ (engine _ _ _) => apply steady_engine
  | |- steady _ (park _) => apply steady_park
  | |- steady _ (fst (_, _)) => cbn [fst]
  | H : steady ?w0 ?w |- context [getUserBySocketId ?sid ?w] =>
      let H' := fresh "Hsteady" in
      pose proof (steady_getUserBySocketId w0 w sid H) as H';
      destruct (getUserBySocketId sid w) as [? [[? ?]|]]; cbn [fst] in H'
  | |- context [match ?d with _ => _ end] => destruct d eqn:?
  end.

Section Frames.

Variable canConsume : string → JsValue → bool.

Lemma steady_createConsumer peer p w0 w :
  steady w0 w → steady w0 (createConsumer canConsume peer p w).1.
Proof. intros H. unfold createConsumer. by repeat steady_step. Qed.

Lemma steady_consume_from peer sid otherPeer es : ∀ idx acc w0 w,
  steady w0 w →
  steady w0 (consume_from canConsume peer sid otherPeer es idx acc w).1.
Proof.
  induction es as [|[key p] es IH]; intros idx acc w0 w H; cbn [consume_from].
  - by repeat steady_step.
  - pose proof (steady_createConsumer peer p w0 w H) as Hc.
    destruct (createConsumer canConsume peer p w) as [w1 [e|rq]];
      cbn [fst] in *; [|done].
    apply IH. unfold consume_failed. by repeat steady_step.
Qed.

Lemma steady_consume_loop peer sid otherPeer idx acc w0 w :
  steady w0 w →
  steady w0 (consume_loop canConsume peer sid otherPeer idx acc w).1.
Proof. apply steady_consume_from. Qed.

Lemma steady_cascade_loop m p arr ui ci w0 w :
  steady w0 w → steady w0 (cascade_loop m p arr ui ci w).1.
Proof.
  intros H. unfold cascade_loop.
  by destruct (next_consumer w p arr ui ci) as [[[? ?] ?]|].
Qed.

Lemma steady_toggle k sid enabled callback w0 w :
  steady w0 w → steady w0 (toggle k sid enabled callback w).
Proof.
  intros H. unfold toggle.
  repeat first [rewrite park_all | steady_step].
Qed.

Lemma steady_resume rq k o w0 w :
  steady w0 w → steady w0 (resume canConsume rq k o w).1.
Proof.
  intros H. destruct k, o; cbn [resume];
    unfold transport_created, transport_failed, produced, consumer_created,
      cascade_failed, consume_failed.
  all: repeat first
         [ apply steady_consume_loop
         | apply steady_cascade_loop
         | steady_step ].
Qed.

(** A message other than JOIN_REQUEST, an answer of the engine and a
    notification are steady. *)
Lemma steady_handle sid msg w :
  (∀ user, msg ≠ JOIN_REQUEST user) →
  steady w (handle canConsume sid msg w).
Proof.
  intros Hmsg. destruct msg; cbn [handle]; [by destruct (Hmsg user)|..];
    try apply steady_toggle;
    unfold on_JOIN_ROUTER, on_CREATE_PRODUCER_TRANSPORT,
      on_CREATE_CONSUMER_TRANSPORT, create_transport, on_PRODUCE, on_CONSUME,
      on_RESUME_CONSUMER.
  all: pose proof (steady_refl w).
  all: repeat first [apply steady_consume_loop | steady_step].
Qed.

Lemma steady_settle n o w : steady w (react canConsume (EvSettle n o) w).
Proof.
  cbn [react]. destruct (pending w !! n) as [[[rq k]|]|]; try apply steady_refl.
  apply steady_park, steady_resume, steady_set_pending, steady_refl.
Qed.

Lemma steady_notify c m w : steady w (react canConsume (EvNotify c m) w).
Proof. cbn [react]. apply steady_park, steady_refl. Qed.



End Frames.

(** ** C4: the flag a consumer starts with *)



(** ** Registered peers are in their room *)

Lemma registry_steady w w' : steady w w' → registry w' = registry w.
Proof. intros []. unfold registry. congruence. Qed.

Lemma room_members_steady w w' room :
  steady w w' → room_members room w' = room_members room w.
Proof. intros []. unfold room_members. congruence. Qed.

Lemma steady_rooms_ok w w' :
  steady w w' → rooms_ok w ∧ registry_ok w → rooms_ok w' ∧ registry_ok w'.
Proof.
  intros Hs [Hrooms Hreg]. split; intros r Hr;
    rewrite (registry_steady _ _ Hs) in Hr.
  - rewrite (steady_socketId _ _ Hs), (steady_roomId _ _ Hs),
      (room_members_steady _ _ _ Hs). by apply Hrooms.
  - rewrite (steady_length _ _ Hs). by apply Hreg.
Qed.

Lemma room_members_join sid room r s w :
  s ∈ room_members r w → s ∈ room_members r (socket_join sid room w).
Proof.
  unfold room_members, socket_join. cbn [set_ioRooms ioRooms].
  destruct (decide (room = r)) as [->|Hne].
  - rewrite lookup_insert_eq. simpl. set_solver.
  - by rewrite lookup_insert_ne.
Qed.

Lemma room_members_joined sid room w :
  sid ∈ room_members room (socket_join sid room w).
Proof.
  unfold room_members, socket_join. cbn [set_ioRooms ioRooms].
  rewrite lookup_insert_eq. simpl. set_solver.
Qed.

Lemma rooms_ok_join sid room w :
  rooms_ok w ∧ registry_ok w →
  rooms_ok (socket_join sid room w) ∧ registry_ok (socket_join sid room w).
Proof.
  intros [Hrooms Hreg]. split; [|done].
  intros r Hr. apply room_members_join. by apply Hrooms.
Qed.

Lemma registry_push u w r :
  r ∈ registry (push_user u w) → r ∈ registry w ∨ r = length (users w).
Proof.
  unfold registry, push_user.
  cbn [set_arrays set_users arrays userSocketMap users].
  rewrite list_lookup_total_alter. case_decide as Hd; [|by left].
  rewrite elem_of_app, list_elem_of_singleton. tauto.
Qed.

Lemma rooms_ok_push u w :
  rooms_ok w ∧ registry_ok w →
  socketId u ∈ room_members (roomId u) w →
  rooms_ok (push_user u w) ∧ registry_ok (push_user u w).
Proof.
  intros [Hrooms Hreg] Hu.
  assert (Hold : ∀ r, r ∈ registry w →
            users (push_user u w) !!! r = users w !!! r).
  { intros r Hr. cbn [push_user set_arrays set_users users].
    apply lookup_total_app_l. by apply Hreg. }
  assert (Hnew : users (push_user u w) !!! length (users w) = u).
  { cbn [push_user set_arrays set_users users].
    by apply list_lookup_total_middle. }
  split; intros r Hr; apply registry_push in Hr as [Hr| ->].
  - rewrite (Hold r Hr). by apply Hrooms.
  - by rewrite Hnew.
  - cbn [push_user set_arrays set_users users]. rewrite length_app.
    specialize (Hreg r Hr). lia.
  - cbn [push_user set_arrays set_users users]. rewrite length_app. simpl. lia.
Qed.

Section Reachable.

Variable canConsume : string → JsValue → bool.

Lemma rooms_ok_JOIN_REQUEST sid user w :
  rooms_ok w ∧ registry_ok w →
  rooms_ok (on_JOIN_REQUEST sid user w)
  ∧ registry_ok (on_JOIN_REQUEST sid user w).
Proof.
  intros Hinv. unfold on_JOIN_REQUEST. cbv zeta.
  destruct (List.find _ _).
  { eapply steady_rooms_ok; [|done]. apply steady_out, steady_refl. }
  set (u := mkUser _ _ _ _ _ _ _ _ _ _ _ _ _ _).
  set (room := roomId user).
  assert (Hpushed : rooms_ok (push_user u (socket_join sid room w))
                    ∧ registry_ok (push_user u (socket_join sid room w))).
  { apply rooms_ok_push; [by apply rooms_ok_join|].
    apply room_members_joined. }
  eapply steady_rooms_ok; [|exact Hpushed].
  unfold getUsersInRoom. destruct (String.eqb room EmptyString);
    repeat steady_step.
Qed.

Lemma rooms_ok_listener sid w :
  rooms_ok w ∧ registry_ok w →
  rooms_ok (on_disconnecting sid w) ∧ registry_ok (on_disconnecting sid w).
Proof.
  intros [Hrooms Hreg]. unfold on_disconnecting, getUserBySocketId.
  destruct (List.find _ _) as [peer|].
  2:{ eapply steady_rooms_ok; [|done]. apply steady_out, steady_refl. }
  set (user := users w !!! peer).
  set (kept_refs := List.filter _ _).
  assert (Hregistry : ∀ w1, registry
            (socket_leave sid (roomId user) (rebind kept_refs w1))
          = kept_refs).
  { intros w1. unfold registry.
    cbn [socket_leave set_ioRooms rebind set_userSocketMap set_arrays
         arrays userSocketMap].
    by rewrite list_lookup_total_middle. }
  split; intros r Hr; rewrite Hregistry in Hr;
    apply list_elem_of_In, filter_In in Hr as [Hr Hsid];
    apply list_elem_of_In in Hr.
  - specialize (Hrooms r Hr).
    unfold socket_leave, rebind, emit_to_room, out, set_ioRooms,
      set_userSocketMap, set_arrays, room_members in *.
    cbn [ioRooms users] in *.
    destruct (decide (roomId user = roomId (users w !!! r))) as [Heq|Hne].
    + rewrite <- Heq in *. rewrite lookup_insert_eq. simpl.
      apply elem_of_difference. split; [done|].
      unfold user_is in Hsid. cbn [users] in Hsid.
      intros Hs%elem_of_singleton.
      rewrite Hs, String.eqb_refl in Hsid. done.
    + by rewrite lookup_insert_ne.
  - by apply Hreg.
Qed.

(** The listener leaves no peer of the socket in the registry. *)
Lemma on_disconnecting_unregisters sid w r :
  r ∈ registry (on_disconnecting sid w) →
  socketId (users (on_disconnecting sid w) !!! r) ≠ sid.
Proof.
  unfold on_disconnecting, getUserBySocketId.
  destruct (List.find _ _) as [peer|] eqn:Hfind.
  - unfold registry at 1.
    cbn [socket_leave set_ioRooms rebind set_userSocketMap set_arrays
         arrays userSocketMap users emit_to_room out].
    rewrite list_lookup_total_middle by done.
    intros Hr%list_elem_of_In%filter_In. destruct Hr as [_ Hsid].
    unfold user_is in Hsid. cbn [users out emit_to_room] in Hsid.
    intros Heq. by rewrite Heq, String.eqb_refl in Hsid.
  - intros Hr%list_elem_of_In.
    pose proof (List.find_none _ _ Hfind _ Hr) as Hno.
    unfold user_is in Hno. cbn [error out users]. intros Heq.
    by rewrite Heq, String.eqb_refl in Hno.
Qed.

Lemma room_members_leave_all sid room w s :
  s ∈ room_members room (socket_leave_all sid w)
  ↔ s ∈ room_members room w ∧ s ≠ sid.
Proof.
  unfold room_members, socket_leave_all. cbn [set_ioRooms ioRooms].
  rewrite lookup_fmap. destruct (ioRooms w !! room) as [members|]; simpl.
  - by rewrite elem_of_difference, elem_of_singleton.
  - rewrite elem_of_empty. tauto.
Qed.

Lemma rooms_ok_disconnecting sid w :
  rooms_ok w ∧ registry_ok w →
  rooms_ok (react canConsume (EvDisconnecting sid) w)
  ∧ registry_ok (react canConsume (EvDisconnecting sid) w).
Proof.
  intros Hinv. destruct (rooms_ok_listener sid w Hinv) as [Hrooms Hreg].
  cbn [react]. split; [|done].
  intros r Hr. apply room_members_leave_all. split.
  - by apply Hrooms.
  - by apply on_disconnecting_unregisters.
Qed.

Lemma rooms_ok_react ev w :
  rooms_ok w ∧ registry_ok w →
  rooms_ok (react canConsume ev w) ∧ registry_ok (react canConsume ev w).
Proof.
  intros Hinv. destruct ev as [sid|sid msg|sid|n o|c m].
  - by apply rooms_ok_join.
  - destruct msg;
      try (eapply steady_rooms_ok; [apply steady_handle; by intros|done]).
    by apply rooms_ok_JOIN_REQUEST.
  - by apply rooms_ok_disconnecting.
  - eapply steady_rooms_ok; [apply steady_settle|done].
  - eapply steady_rooms_ok; [apply steady_notify|done].
Qed.


End Reachable.

(** ** C2: disconnecting *)




(** ** The active editors of [types/editor.ts] *)

(** What was set for a socket in a room is what is found for them. *)
Lemma getActiveEditor_set_same room sid file cursor m :
  getActiveEditor room sid (setActiveEditor room sid file cursor m)
  = Some (mkActiveEditor file cursor).
Proof.
  unfold getActiveEditor, setActiveEditor.
  by rewrite !lookup_insert_eq.
Qed.

(** X1 (getActiveEditor, setActiveEditor, clearActiveEditor): what
    [setActiveEditor] records for a user in a room is what [getActiveEditor]
    returns for that user in that room, until it is set again or cleared;
    after [clearActiveEditor] the answer is null; and setting or clearing the
    editor of one user in one room changes the answer for no other user and
    no other room. *)
Theorem active_editor_is_last_set
    (room sid file : string) (cursor : option Z) (m : EditorMap)
    (room' sid' : string) :
  getActiveEditor room' sid' (setActiveEditor room sid file cursor m)
  = (if decide (room' = room ∧ sid' = sid)
     then Some (mkActiveEditor file cursor)
     else getActiveEditor room' sid' m)
  ∧ getActiveEditor room' sid' (clearActiveEditor room sid m)
    = (if decide (room' = room ∧ sid' = sid) then None
       else getActiveEditor room' sid' m).
Proof.
  unfold getActiveEditor, setActiveEditor, clearActiveEditor. split.
  { destruct (decide (room' = room)) as [->|Hroom].
    - rewrite lookup_insert_eq.
      destruct (decide (sid' = sid)) as [->|Hsid].
      + rewrite lookup_insert_eq. by rewrite decide_True.
      + rewrite lookup_insert_ne by done.
        rewrite decide_False by (by intros [_ ?]).
        destruct (m !! room) as [eds|] eqn:Hm.
        * by rewrite (lookup_total_correct _ _ _ Hm).
        * by rewrite lookup_total_insert_eq.
    - rewrite lookup_insert_ne by done.
      rewrite decide_False by (by intros [? _]).
      destruct (m !! room) as [eds|] eqn:Hm; [done|].
      by rewrite lookup_insert_ne. }
  destruct (m !! room) as [eds|] eqn:Hm.
  2:{ case_decide as Hd; [|done]. destruct Hd as [-> _]. by rewrite Hm. }
  destruct (size (delete sid eds) =? 0)%nat eqn:Hsize.
  - apply Nat.eqb_eq, map_size_empty_inv in Hsize.
    destruct (decide (room' = room)) as [->|Hroom].
    + rewrite lookup_delete_eq, Hm.
      destruct (decide (sid' = sid)) as [->|Hsid].
      * by rewrite decide_True.
      * rewrite decide_False by (by intros [_ ?]).
        rewrite <- (lookup_delete_ne eds sid sid') by done.
        by rewrite Hsize.
    + rewrite lookup_delete_ne by done.
      by rewrite decide_False by (by intros [? _]).
  - destruct (decide (room' = room)) as [->|Hroom].
    + rewrite lookup_insert_eq, Hm.
      destruct (decide (sid' = sid)) as [->|Hsid].
      * rewrite lookup_delete_eq. by rewrite decide_True.
      * rewrite lookup_delete_ne by done.
        by rewrite decide_False by (by intros [_ ?]).
    + rewrite lookup_insert_ne by done.
      by rewrite decide_False by (by intros [? _]).
Qed.

Lemma editors_ok_set room sid file cursor m :
  editors_ok m → editors_ok (setActiveEditor room sid file cursor m).
Proof.
  intros Hok room' eds. unfold setActiveEditor.
  destruct (decide (room' = room)) as [->|Hroom].
  - rewrite lookup_insert_eq. intros [= <-]. apply insert_non_empty.
  - rewrite lookup_insert_ne by done.
    destruct (m !! room) eqn:Hm; [apply Hok|].
    rewrite lookup_insert_ne by done. apply Hok.
Qed.

Lemma editors_ok_clear room sid m :
  editors_ok m → editors_ok (clearActiveEditor room sid m).
Proof.
  intros Hok room' eds. unfold clearActiveEditor.
  destruct (m !! room) as [eds0|] eqn:Hm; [|apply Hok].
  destruct (size (delete sid eds0) =? 0)%nat eqn:Hsize.
  - intros [_ H]%lookup_delete_Some. by apply Hok in H.
  - destruct (decide (room' = room)) as [->|Hroom].
    + rewrite lookup_insert_eq. intros [= <-] Hempty.
      rewrite Hempty, map_size_empty in Hsize. done.
    + rewrite lookup_insert_ne by done. apply Hok.
Qed.

(** X2 (setActiveEditor, clearActiveEditor): whatever calls of
    [setActiveEditor] and [clearActiveEditor] are made, starting with the
    empty map, no room of [activeEditorMap] is left with an empty map: a room
    is in the map exactly when some user has an active editor in it. *)
Theorem rooms_without_editors_are_dropped
    (calls : list EditorCall) (room : string) :
  let m := foldl (flip editor_call) ∅ calls in
  editors_ok m
  ∧ (is_Some (m !! room) ↔ ∃ sid, is_Some (getActiveEditor room sid m)).
Proof.
  intros m.
  assert (Hok : editors_ok m).
  { unfold m. clear m.
    assert (H : ∀ m0 : EditorMap, editors_ok m0 →
              editors_ok (foldl (flip editor_call) m0 calls)).
    { induction calls as [|c calls IH]; intros m0 Hm0; [done|].
      cbn [foldl]. apply IH. unfold flip.
      destruct c; [by apply editors_ok_set | by apply editors_ok_clear]. }
    apply H. intros ? ?. by rewrite lookup_empty. }
  split; [done|]. unfold getActiveEditor. split.
  - intros [eds Heds]. rewrite Heds.
    destruct (map_choose eds (Hok _ _ Heds)) as (sid & e & He).
    exists sid. by rewrite He.
  - intros [sid Hsid]. by destruct (m !! room).
Qed.

(** ** The address picked by [config.ts] *)

(** X3 (getLocalIp): [getLocalIp] returns the first IPv4 address that is
    not internal of the last interface that has one, and 127.0.0.1 when no
    interface has one: an interface later in the list takes the place of
    what an earlier one gave. *)
Theorem getLocalIp_is_last_external
    (ifaces : list (string * option (list NetworkInterfaceInfo))) :
  getLocalIp ifaces
  = default "127.0.0.1"
      (address <$> last (omap (λ entry, entry.2 ≫= external_IPv4) ifaces)).
Proof.
  unfold getLocalIp. generalize "127.0.0.1" as ip.
  induction ifaces as [|[name [iface|]] ifaces IH]; intros ip; [done|..];
    cbn [foldl omap list_omap snd mbind option_bind]; rewrite IH.
  - fold (external_IPv4 iface).
    destruct (external_IPv4 iface) as [info|]; [|done].
    rewrite last_cons.
    by destruct (last (omap _ ifaces)).
  - done.
Qed.

(** ** JOIN_REQUEST with a name that is free *)

Lemma registry_push_eq u w :
  bound w → registry (push_user u w) = registry w ++ [length (users w)].
Proof.
  intros H. unfold registry, push_user.
  cbn [set_arrays set_users arrays userSocketMap users].
  rewrite list_lookup_total_alter. by rewrite decide_True.
Qed.

Lemma user_is_old w w' f r :
  r < length (users w) → (∃ more, users w' = users w ++ more) →
  user_is w' f r = user_is w f r.
Proof.
  intros Hr [more Hmore]. unfold user_is.
  by rewrite Hmore, lookup_total_app_l.
Qed.

(** The registry after an accepted JOIN_REQUEST. *)
Lemma join_accepted sid user w :
  bound w →
  List.find
    (user_is w (λ u, String.eqb (roomId u) (roomId user)
                     && String.eqb (username u) (username user)))
    (registry w) = None →
  users (on_JOIN_REQUEST sid user w)
  = users w ++ [newcomer sid user]
  ∧ registry (on_JOIN_REQUEST sid user w)
    = registry w ++ [length (users w)].
Proof.
  intros Hbound Hfree. unfold on_JOIN_REQUEST. rewrite Hfree. cbv zeta.
  fold (newcomer sid user).
  pose proof (registry_push_eq (newcomer sid user)
                (socket_join sid (roomId user) w) Hbound) as Hregistry.
  unfold getUsersInRoom.
  by destruct (String.eqb (roomId user) EmptyString).
Qed.

(** X4 (JOIN_REQUEST): a JOIN_REQUEST with a name no registered peer of the
    room has is accepted.  The new peer is the object sent with socketId,
    status, cursorPosition, typing and currentFile set by the handler (this
    socket, ONLINE, 0, false, null): the capabilities, transports, maps and
    flags of the payload, if it has any, stay on it.  It goes last in the
    registry, the socket joins the room, the sender gets JOIN_ACCEPTED with
    the registered peers of the room that have another socket, in the order
    of the registry, and every other socket of the room gets USER_JOINED; a
    join with the empty room name is accepted as well, with an empty list. *)
Theorem join_with_free_username
    (canConsume : string → JsValue → bool) (w : World)
    (sid : string) (user : User) :
  bound w → registry_ok w →
  List.find
    (user_is w (λ u, String.eqb (roomId u) (roomId user)
                     && String.eqb (username u) (username user)))
    (registry w) = None →
  let room := roomId user in
  let others :=
    if String.eqb room EmptyString then []
    else
      List.filter (user_is w (λ u, negb (String.eqb (socketId u) sid)))
        (List.filter (user_is w (λ u, String.eqb (roomId u) room))
           (registry w)) in
  let w' := react canConsume (EvMessage sid (JOIN_REQUEST user)) w in
  users w' = users w ++ [newcomer sid user]
  ∧ registry w' = registry w ++ [length (users w)]
  ∧ ioRooms w' = <[room := {[sid]} ∪ room_members room w]> (ioRooms w)
  ∧ trace w'
    = trace w
      ++ (if String.eqb room EmptyString
          then [OError "Attempted to get users with undefined roomId" None]
          else [])
      ++ [OEmit sid (JOIN_ACCEPTED (newcomer sid user)
                       ((λ r, users w !!! r) <$> others))]
      ++ ((λ s, OEmit s (USER_JOINED (newcomer sid user)))
            <$> recipients room sid w).
Proof.
  intros Hbound Hreg Hfree room others w'. subst w'. cbn [react handle].
  unfold on_JOIN_REQUEST. rewrite Hfree. cbv zeta.
  fold (newcomer sid user). set (u := newcomer sid user). fold room.
  set (w2 := push_user u (socket_join sid room w)).
  assert (Hreg2 : registry w2 = registry w ++ [length (users w)]).
  { unfold w2. by rewrite registry_push_eq. }
  assert (Husers2 : users w2 = users w ++ [u]) by done.
  assert (Hrec : ∀ w0, ioRooms w0 = ioRooms w2 →
            recipients room sid w0 = recipients room sid w).
  { intros w0 Hw0. unfold recipients, room_members. rewrite Hw0.
    unfold w2. cbn [push_user socket_join set_arrays set_users set_ioRooms
                    ioRooms].
    rewrite lookup_insert_eq. cbn [from_option id]. f_equal.
    fold (room_members room w). apply set_eq. intros x.
    rewrite !elem_of_difference, elem_of_union, elem_of_singleton. tauto. }
  unfold getUsersInRoom. subst others.
  destruct (String.eqb room EmptyString) eqn:Hroom.
  - cbn [List.filter fmap list_fmap].
    cbn [emit_to_room out error users trace ioRooms]. rewrite Hrec by done.
    split; [done|]. split; [exact Hreg2|]. split; [done|].
    cbn [app]. by rewrite <- !app_assoc.
  - cbn [emit_to_room out users trace ioRooms]. rewrite Hrec by done.
    split; [done|]. split; [exact Hreg2|]. split; [done|].
    cbn [app]. rewrite <- !app_assoc. cbn [app].
    f_equal. f_equal. f_equal. f_equal.
    rewrite Hreg2. rewrite List.filter_app. cbn [List.filter].
    assert (Hin : user_is w2 (λ u0, String.eqb (roomId u0) room)
                    (length (users w)) = true).
    { unfold user_is. rewrite Husers2, list_lookup_total_middle by done.
      apply String.eqb_refl. }
    rewrite Hin. rewrite List.filter_app. cbn [List.filter].
    assert (Hout : user_is w2 (λ u0, negb (String.eqb (socketId u0) sid))
                     (length (users w)) = false).
    { unfold user_is. rewrite Husers2, list_lookup_total_middle by done.
      cbn [u newcomer socketId]. by rewrite String.eqb_refl. }
    rewrite Hout, app_nil_r.
    assert (Hsame : ∀ f l, (∀ r, r ∈ l → r ∈ registry w) →
              List.filter (user_is w2 f) l = List.filter (user_is w f) l).
    { intros f l Hl. apply List.filter_ext_in. intros r Hr.
      apply user_is_old; [|by exists [u]].
      apply Hreg, Hl. by apply list_elem_of_In. }
    rewrite (Hsame _ (registry w)) by done.
    rewrite Hsame.
    2:{ intros r Hr. apply list_elem_of_In, List.filter_In in Hr as [Hr _].
        by apply list_elem_of_In. }
    apply list_fmap_ext. intros i r Hr.
    rewrite Husers2. apply lookup_total_app_l. apply Hreg.
    apply list_elem_of_lookup_2 in Hr.
    apply list_elem_of_In, List.filter_In in Hr as [Hr _].
    apply List.filter_In in Hr as [Hr _]. by apply list_elem_of_In.
Qed.

Lemma join_with_free_username_witness :
  let user :=
    mkUser "carol" "r1" OFFLINE 7 true (Some "a.ts") "Z" (VObject "caps")
      None None None None (Some true) None in
  let room := roomId user in
  let others :=
    if String.eqb room EmptyString then []
    else
      List.filter (user_is lobby (λ u, negb (String.eqb (socketId u) "C")))
        (List.filter (user_is lobby (λ u, String.eqb (roomId u) room))
           (registry lobby)) in
  let w' := react always (EvMessage "C" (JOIN_REQUEST user)) lobby in
  users w' = users lobby ++ [newcomer "C" user]
  ∧ registry w' = registry lobby ++ [length (users lobby)]
  ∧ ioRooms w'
    = <[room := {["C"]} ∪ room_members room lobby]> (ioRooms lobby)
  ∧ trace w'
    = trace lobby
      ++ (if String.eqb room EmptyString
          then [OError "Attempted to get users with undefined roomId" None]
          else [])
      ++ [OEmit "C" (JOIN_ACCEPTED (newcomer "C" user)
                       ((λ r, users lobby !!! r) <$> others))]
      ++ ((λ s, OEmit s (USER_JOINED (newcomer "C" user)))
            <$> recipients room "C" lobby).
Proof.
  apply (join_with_free_username always lobby "C"
           (mkUser "carol" "r1" OFFLINE 7 true (Some "a.ts") "Z"
              (VObject "caps") None None None None (Some true) None)).
  - vm_compute. lia.
  - intros r Hr. apply list_elem_of_In in Hr. vm_compute in Hr. vm_compute.
    destruct Hr as [<-|[<-|[]]]; lia.
  - by vm_compute.
Defined.

Lemma names_unique_out w os : names_unique w → names_unique (out os w).
Proof. done. Qed.

(** X5 (JOIN_REQUEST): JOIN_REQUEST never makes two registered peers of a
    room share a name: if no two have the same name in the same room before
    the request, none have after it, whether it is accepted or refused. *)
Theorem join_request_keeps_names_unique
    (canConsume : string → JsValue → bool) (w : World)
    (sid : string) (user : User) :
  bound w → registry_ok w → names_unique w →
  names_unique (react canConsume (EvMessage sid (JOIN_REQUEST user)) w).
Proof.
  intros Hbound Hreg Huniq. cbn [react handle].
  destruct (List.find
              (user_is w (λ u, String.eqb (roomId u) (roomId user)
                               && String.eqb (username u) (username user)))
              (registry w)) as [r|] eqn:Hfind.
  { unfold on_JOIN_REQUEST. rewrite Hfind. by apply names_unique_out. }
  destruct (join_accepted sid user w Hbound Hfind)
    as (Husers & Hregistry).
  unfold names_unique. rewrite Hregistry, fmap_app.
  assert (Hold : name_in_room (on_JOIN_REQUEST sid user w)
                   <$> registry w
                 = name_in_room w <$> registry w).
  { apply list_fmap_ext. intros i r Hr. unfold name_in_room.
    rewrite Husers, lookup_total_app_l; [done|].
    apply Hreg. by eapply list_elem_of_lookup_2. }
  rewrite Hold. apply NoDup_app. split; [done|]. split.
  - intros x Hx Hnew. apply list_elem_of_fmap in Hx as (r & -> & Hr).
    apply list_elem_of_fmap in Hnew as (r' & Heq & Hr').
    apply list_elem_of_singleton in Hr'. subst r'.
    unfold name_in_room in Heq.
    rewrite Husers, list_lookup_total_middle in Heq by done.
    cbn [newcomer roomId username] in Heq. injection Heq as Hroom Hname.
    apply list_elem_of_In in Hr.
    pose proof (List.find_none _ _ Hfind _ Hr) as Hno.
    unfold user_is in Hno. by rewrite Hroom, Hname, !String.eqb_refl in Hno.
  - cbn [fmap list_fmap]. apply NoDup_singleton.
Qed.

Lemma join_request_keeps_names_unique_witness :
  names_unique
    (react always (EvMessage "C" (JOIN_REQUEST (client_user "carol" "r1")))
       lobby).
Proof.
  apply (join_request_keeps_names_unique always lobby "C"
           (client_user "carol" "r1")).
  - vm_compute. lia.
  - intros r Hr. apply list_elem_of_In in Hr. vm_compute in Hr. vm_compute.
    destruct Hr as [<-|[<-|[]]]; lia.
  - apply (bool_decide_unpack _). by vm_compute.
Defined.

(** ** PRODUCE *)

(** X6 (PRODUCE): whatever it is sent, PRODUCE changes no peer and no
    producer before the engine answers, and asks the engine for at most one
    thing: to produce on the producer transport of the peer registered for
    the sending socket, with this socket and this peer's name as appData.
    When it does not ask, it answers with an error. *)
Theorem produce_asks_for_own_transport_only
    (canConsume : string → JsValue → bool) (w : World) (sid : string)
    (kind : MediaKind) (rtpParameters : JsValue)
    (transportId : option string) :
  let w' :=
    react canConsume
      (EvMessage sid (PRODUCE kind rtpParameters transportId)) w in
  users w' = users w
  ∧ producerObjs w' = producerObjs w
  ∧ registry w' = registry w
  ∧ ((∃ peer t,
        registered w sid peer
        ∧ producerTransport (users w !!! peer) = Some t
        ∧ trace w' = trace w
        ∧ pending w'
          = pending w
            ++ [Some (RqProduce t kind rtpParameters
                        (mkAppData (Some sid)
                           (Some (username (users w !!! peer)))),
                      KProduced peer sid kind)])
     ∨ (pending w' = pending w
        ∧ ∃ logs msg,
            Forall is_log logs
            ∧ trace w' = trace w ++ logs ++ [OAck sid (RError msg)])).
Proof.
  intros w'. subst w'. cbn [react handle]. unfold on_PRODUCE, getUserBySocketId.
  destruct (List.find _ (registry w)) as [peer|] eqn:Hfind.
  2:{ do 3 (split; [done|]). right. split; [done|].
      eexists [_], _. split; [repeat constructor; by eexists _, _|].
      cbn [park ack error out trace]. by rewrite <- app_assoc. }
  destruct (producerTransport (users w !!! peer)) as [t|] eqn:Ht.
  2:{ do 3 (split; [done|]). right. split; [done|].
      exists [], "Peer or producer transport not found". by split. }
  destruct transportId as [i|].
  - destruct (negb (String.eqb i EmptyString) && _).
    + do 3 (split; [done|]). right. split; [done|].
      exists [], "Invalid transport ID". by split.
    + do 3 (split; [done|]). left. by exists peer, t.
  - do 3 (split; [done|]). left. by exists peer, t.
Qed.

Lemma settle_parked canConsume w rq k o :
  react canConsume (EvSettle (length (pending w)) o) (park (w, Some (rq, k)))
  = park (resume canConsume rq k o (set_pending (λ q, q ++ [None]) w)).
Proof.
  cbn [react park set_pending pending].
  rewrite list_lookup_middle by done. do 2 f_equal.
  destruct w. unfold set_pending; cbn. f_equal.
  by rewrite insert_app_r_alt, Nat.sub_diag.
Qed.

Lemma produce_accepted canConsume w sid peer t kind rtpParameters transportId :
  registered w sid peer →
  producerTransport (users w !!! peer) = Some t →
  transportId = None ∨ transportId = Some EmptyString
  ∨ transportId = Some (transport_id (transportObjs w !!! t)) →
  react canConsume (EvMessage sid (PRODUCE kind rtpParameters transportId)) w
  = park (w, Some (RqProduce t kind rtpParameters
                     (mkAppData (Some sid)
                        (Some (username (users w !!! peer)))),
                   KProduced peer sid kind)).
Proof.
  intros Hpeer Ht Hid. cbn [react handle]. unfold on_PRODUCE.
  rewrite (getUserBySocketId_registered _ _ _ Hpeer), Ht.
  destruct Hid as [->|[->| ->]]; [done|done|].
  by rewrite String.eqb_refl, andb_false_r.
Qed.

(** X7 (PRODUCE): a PRODUCE that names no transport, the empty id or the id
    of the peer's producer transport, and that the engine serves, leaves a
    new producer of the kind asked, not paused, labelled with the socket and
    name of the peer; the Map of the peer, made now if the peer had none,
    gets it under its id, the flag of this kind is set on the peer and the
    flag of the other kind is left alone, every other socket of the peer's
    room is told, and the sender gets the id. *)
Theorem produce_stores_and_announces
    (canConsume : string → JsValue → bool) (w : World) (sid : string)
    (peer : uref) (t : tref) (kind : MediaKind) (rtpParameters : JsValue)
    (transportId : option string) (rep : Reply) :
  registered w sid peer →
  producerTransport (users w !!! peer) = Some t →
  transportId = None ∨ transportId = Some EmptyString
  ∨ transportId = Some (transport_id (transportObjs w !!! t)) →
  let U := users w !!! peer in
  let p := length (producerObjs w) in
  let m := default (length (producerMaps w)) (producers U) in
  let w' :=
    run canConsume
      [EvMessage sid (PRODUCE kind rtpParameters transportId);
       EvSettle (length (pending w)) (Resolved rep)] w in
  producerObjs w'
  = producerObjs w
    ++ [mkProducer (reply_id rep) kind false false
          (mkAppData (Some sid) (Some (username U)))]
  ∧ users w'
    = alter
        (λ u, user_set_has kind (Some true) (user_set_producers (Some m) u))
        peer (users w)
  ∧ producerMaps w'
    = alter (JsMap.set (reply_id rep) p) m
        (match producers U with
         | Some _ => producerMaps w
         | None => producerMaps w ++ [[]]
         end)
  ∧ consumerMaps w' = consumerMaps w
  ∧ pending w' = pending w ++ [None]
  ∧ trace w'
    = trace w
      ++ ((λ s, OEmit s (state_changed kind sid true))
            <$> recipients (roomId U) sid w)
      ++ [OAck sid (RProduced (reply_id rep))].
Proof.
  intros Hpeer Ht Hid U p m w'. subst w'. cbn [run foldl flip].
  rewrite (produce_accepted _ _ _ _ _ _ _ _ Hpeer Ht Hid), settle_parked.
  cbn [resume engine set_pending producerObjs].
  unfold produced, producers_map.
  cbn [set_producerObjs set_pending users producerObjs producerMaps].
  rewrite list_lookup_total_middle by done. cbn [producer_id].
  fold U. subst m.
  destruct (producers U) as [m|] eqn:Hm; cbn [from_option id];
    cbn [set_producerMaps update_user set_users users producerMaps];
    rewrite ?roomId_alter by done; fold U.
  - assert (Hsame : ∀ f : User → User,
      alter (λ u, f (user_set_producers (Some m) u)) peer (users w)
      = alter f peer (users w)).
    { intros f. apply list_alter_ext; [|done]. intros u Hu.
      unfold U in Hm. rewrite (list_lookup_total_correct _ _ _ Hu) in Hm.
      destruct u. cbn in Hm. by subst. }
    rewrite Hsame.
    destruct kind;
      cbn [park ack out emit_to_room update_user set_users set_producerMaps
           producerObjs users producerMaps consumerMaps pending trace
           state_changed user_set_has];
      repeat (split; [done|]); by rewrite <- app_assoc.
  - destruct kind;
      cbn [park ack out emit_to_room update_user set_users set_producerMaps
           producerObjs users producerMaps consumerMaps pending trace
           state_changed user_set_has];
      rewrite list_alter_alter_eq;
      repeat (split; [done|]); by rewrite <- app_assoc.
Qed.

Lemma produce_stores_and_announces_witness :
  let U := users lobby !!! 0 in
  let p := length (producerObjs lobby) in
  let m := default (length (producerMaps lobby)) (producers U) in
  let w' :=
    run always
      [EvMessage "A" (PRODUCE audio (VObject "opus") None);
       EvSettle (length (pending lobby)) (Resolved (reply "p2"))] lobby in
  producerObjs w'
  = producerObjs lobby
    ++ [mkProducer (reply_id (reply "p2")) audio false false
          (mkAppData (Some "A") (Some (username U)))]
  ∧ users w'
    = alter
        (λ u, user_set_has audio (Some true)
                (user_set_producers (Some m) u))
        0 (users lobby)
  ∧ producerMaps w'
    = alter (JsMap.set (reply_id (reply "p2")) p) m
        (match producers U with
         | Some _ => producerMaps lobby
         | None => producerMaps lobby ++ [[]]
         end)
  ∧ consumerMaps w' = consumerMaps lobby
  ∧ pending w' = pending lobby ++ [None]
  ∧ trace w'
    = trace lobby
      ++ ((λ s, OEmit s (state_changed audio "A" true))
            <$> recipients (roomId U) "A" lobby)
      ++ [OAck "A" (RProduced (reply_id (reply "p2")))].
Proof.
  apply (produce_stores_and_announces always lobby "A" 0 0 audio
           (VObject "opus") None (reply "p2")).
  - by vm_compute.
  - by vm_compute.
  - by left.
Defined.

(** ** Creating a transport *)

Lemma create_accepted canConsume d w sid peer :
  registered w sid peer →
  transport_of d (users w !!! peer) = None →
  react canConsume (EvMessage sid (CREATE_TRANSPORT d)) w
  = park (w, Some (createWebRtcTransport d peer sid)).
Proof.
  intros Hpeer Hnone.
  destruct d; cbn [CREATE_TRANSPORT react handle];
    unfold on_CREATE_PRODUCER_TRANSPORT, on_CREATE_CONSUMER_TRANSPORT,
      create_transport;
    rewrite (getUserBySocketId_registered _ _ _ Hpeer);
    by rewrite Hnone.
Qed.

(** X8 (createWebRtcTransport): once the engine has created the transport,
    the request succeeds whether [setMaxIncomingBitrate] resolves or is
    rejected: the transport is stored in the peer's field of this direction
    and its parameters are sent back; a rejected call only leaves a line in
    the log. *)
Theorem transport_is_stored_whatever_the_bitrate_call
    (canConsume : string → JsValue → bool) (d : Direction) (w : World)
    (sid : string) (peer : uref) (rep : Reply) (o : Outcome) :
  registered w sid peer →
  transport_of d (users w !!! peer) = None →
  let n := length (pending w) in
  let t := length (transportObjs w) in
  let w' :=
    run canConsume
      [EvMessage sid (CREATE_TRANSPORT d); EvSettle n (Resolved rep);
       EvSettle (S n) o] w in
  transportObjs w'
  = transportObjs w ++ [mkTransport (reply_id rep) (reply_data rep) false]
  ∧ users w' = alter (user_set_transport d (Some t)) peer (users w)
  ∧ pending w' = pending w ++ [None; None]
  ∧ trace w'
    = trace w
      ++ match o with
         | Resolved _ => []
         | Rejected e => [OError "setMaxIncomingBitrate error:" (Some e)]
         end
      ++ [OAck sid (RTransportParams (reply_id rep) (reply_data rep))].
Proof.
  intros Hpeer Hnone n t w'. subst w'. cbn [run foldl flip].
  rewrite (create_accepted _ _ _ _ _ Hpeer Hnone).
  unfold createWebRtcTransport, n. rewrite settle_parked.
  cbn [resume]. change (negb (maxIncomingBitrate =? 0)%Z) with true.
  cbn match.
  set (w1 := engine RqCreateWebRtcTransport rep _).
  replace (S (length (pending w))) with (length (pending w1)).
  2:{ unfold w1. cbn [engine set_transportObjs set_pending pending].
      rewrite length_app. simpl. lia. }
  rewrite settle_parked.
  assert (HT : ∀ w2, transportObjs w2 = transportObjs w1 →
            transportObjs w2 !!! length (transportObjs w)
            = mkTransport (reply_id rep) (reply_data rep) false).
  { intros w2 ->. unfold w1.
    cbn [engine set_transportObjs set_pending transportObjs].
    by rewrite list_lookup_total_middle. }
  destruct o as [rep'|e]; cbn [resume engine park]; unfold transport_created;
    cbn [set_pending error out transportObjs]; rewrite HT by done;
    cbn [ack out update_user set_users set_pending transportObjs users
         pending trace transport_id transport_params];
    unfold w1;
    cbn [engine error out set_transportObjs set_pending transportObjs users
         pending trace].
  - split; [done|]. split; [done|]. split; [by rewrite <- app_assoc|done].
  - split; [done|]. split; [done|]. split; [by rewrite <- app_assoc|].
    by rewrite <- app_assoc.
Qed.

Lemma transport_is_stored_whatever_the_bitrate_call_witness :
  let n := length (pending hall) in
  let t := length (transportObjs hall) in
  let w' :=
    run always
      [EvMessage "A" (CREATE_TRANSPORT ProducerSide);
       EvSettle n (Resolved (reply "t1"));
       EvSettle (S n) (Rejected "overloaded")] hall in
  transportObjs w'
  = transportObjs hall
    ++ [mkTransport (reply_id (reply "t1")) (reply_data (reply "t1")) false]
  ∧ users w' = alter (user_set_transport ProducerSide (Some t)) 0 (users hall)
  ∧ pending w' = pending hall ++ [None; None]
  ∧ trace w'
    = trace hall
      ++ match Rejected "overloaded" with
         | Resolved _ => []
         | Rejected e => [OError "setMaxIncomingBitrate error:" (Some e)]
         end
      ++ [OAck "A" (RTransportParams (reply_id (reply "t1"))
                      (reply_data (reply "t1")))].
Proof.
  apply (transport_is_stored_whatever_the_bitrate_call always ProducerSide
           hall "A" 0 (reply "t1") (Rejected "overloaded")).
  - by vm_compute.
  - by vm_compute.
Defined.

(** X9 (CREATE_PRODUCER_TRANSPORT, CREATE_CONSUMER_TRANSPORT): when the
    engine refuses to create the transport, the error is logged twice, the
    sender is told that the creation failed, and the peer is left without a
    transport of this direction, so that its next request is taken up and
    asks the engine again. *)
Theorem failed_creation_can_be_retried
    (canConsume : string → JsValue → bool) (d : Direction) (w : World)
    (sid : string) (peer : uref) (e : string) :
  registered w sid peer →
  transport_of d (users w !!! peer) = None →
  let w' :=
    run canConsume
      [EvMessage sid (CREATE_TRANSPORT d);
       EvSettle (length (pending w)) (Rejected e)] w in
  transportObjs w' = transportObjs w
  ∧ users w' = users w
  ∧ trace w'
    = trace w
      ++ [OError "Error creating WebRTC transport:" (Some e);
          OError (create_error d) (Some e);
          OAck sid (RError (failed_to_create d))]
  ∧ react canConsume (EvMessage sid (CREATE_TRANSPORT d)) w'
    = park (w', Some (createWebRtcTransport d peer sid)).
Proof.
  intros Hpeer Hnone w'. subst w'. cbn [run foldl flip].
  rewrite (create_accepted _ _ _ _ _ Hpeer Hnone).
  unfold createWebRtcTransport. rewrite settle_parked.
  cbn [resume park]. unfold transport_failed.
  split; [done|]. split; [done|]. split.
  - cbn [ack error out set_pending trace]. by rewrite <- !app_assoc.
  - by apply create_accepted.
Qed.

Lemma failed_creation_can_be_retried_witness :
  let w' :=
    run always
      [EvMessage "B" (CREATE_TRANSPORT ConsumerSide);
       EvSettle (length (pending lobby)) (Rejected "no port left")] lobby in
  transportObjs w' = transportObjs lobby
  ∧ users w' = users lobby
  ∧ trace w'
    = trace lobby
      ++ [OError "Error creating WebRTC transport:" (Some "no port left");
          OError (create_error ConsumerSide) (Some "no port left");
          OAck "B" (RError (failed_to_create ConsumerSide))]
  ∧ react always (EvMessage "B" (CREATE_TRANSPORT ConsumerSide)) w'
    = park (w', Some (createWebRtcTransport ConsumerSide 1 "B")).
Proof.
  apply (failed_creation_can_be_retried always ConsumerSide lobby "B" 1
           "no port left").
  - by vm_compute.
  - by vm_compute.
Defined.

(** ** RESUME_CONSUMER and the toggles of a peer that sends nothing *)

(** X10 (RESUME_CONSUMER): RESUME_CONSUMER looks the id up in the consumer
    map of the peer registered for the sending socket and nowhere else: an
    id that is not there is answered with "Consumer not found" and nothing
    is asked of the engine, so that a peer cannot resume a consumer held by
    another peer; for an id that is there the engine is asked to resume that
    consumer, which is not paused any more once the engine has done so and
    is left as it was when the engine refuses.  No other consumer and no
    peer changes. *)
Theorem resume_consumer_acts_on_own_consumer
    (canConsume : string → JsValue → bool) (w : World) (sid : string)
    (peer : uref) (consumerId : string) (callback : bool) (o : Outcome) :
  registered w sid peer →
  let w' :=
    run canConsume
      [EvMessage sid (RESUME_CONSUMER consumerId callback);
       EvSettle (length (pending w)) o] w in
  users w' = users w
  ∧ producerObjs w' = producerObjs w
  ∧ match consumers_in w (users w !!! peer) ≫= JsMap.get consumerId with
    | None =>
        consumerObjs w' = consumerObjs w
        ∧ pending w' = pending w
        ∧ trace w'
          = trace w
            ++ (if callback then [OAck sid (RError "Consumer not found")]
                else [])
    | Some c =>
        pending w' = pending w ++ [None]
        ∧ match o with
          | Resolved _ =>
              consumerObjs w'
              = alter (consumer_set_paused false) c (consumerObjs w)
              ∧ trace w'
                = trace w ++ (if callback then [OAck sid RSuccess] else [])
          | Rejected e =>
              consumerObjs w' = consumerObjs w
              ∧ trace w'
                = trace w
                  ++ OError "resumeConsumer error:" (Some e)
                     :: (if callback
                         then [OAck sid (RError "Failed to resume consumer")]
                         else [])
          end
    end.
Proof.
  intros Hpeer w'. subst w'. cbn [run foldl flip].
  assert (Hfirst :
    react canConsume (EvMessage sid (RESUME_CONSUMER consumerId callback)) w
    = park (on_RESUME_CONSUMER sid consumerId callback w)) by done.
  rewrite Hfirst. unfold on_RESUME_CONSUMER.
  rewrite (getUserBySocketId_registered _ _ _ Hpeer).
  destruct (consumers_in w (users w !!! peer) ≫= JsMap.get consumerId) as [c|].
  - rewrite settle_parked.
    destruct o as [rep|e], callback; cbn [resume engine park ack_if ack error
      out set_consumerObjs set_pending users producerObjs consumerObjs
      pending trace paused_after]; rewrite ?app_nil_r, <- ?app_assoc; done.
  - assert (Hgone : ∀ w0, pending w0 = pending w →
              react canConsume (EvSettle (length (pending w)) o) w0 = w0).
    { intros w0 Hw0. cbn [react]. rewrite Hw0.
      by rewrite lookup_ge_None_2. }
    destruct callback; cbn [park ack_if ack]; rewrite Hgone by done;
      cbn [out users producerObjs consumerObjs pending trace];
      by rewrite ?app_nil_r.
Qed.

Lemma resume_consumer_acts_on_own_consumer_witness :
  let w' :=
    run always
      [EvMessage "B" (RESUME_CONSUMER "c1" true);
       EvSettle (length (pending call)) (Resolved (reply "ok"))] call in
  users w' = users call
  ∧ producerObjs w' = producerObjs call
  ∧ match consumers_in call (users call !!! 1) ≫= JsMap.get "c1" with
    | None =>
        consumerObjs w' = consumerObjs call
        ∧ pending w' = pending call
        ∧ trace w'
          = trace call
            ++ (if true then [OAck "B" (RError "Consumer not found")]
                else [])
    | Some c =>
        pending w' = pending call ++ [None]
        ∧ match Resolved (reply "ok") with
          | Resolved _ =>
              consumerObjs w'
              = alter (consumer_set_paused false) c (consumerObjs call)
              ∧ trace w'
                = trace call ++ (if true then [OAck "B" RSuccess] else [])
          | Rejected e =>
              consumerObjs w' = consumerObjs call
              ∧ trace w'
                = trace call
                  ++ OError "resumeConsumer error:" (Some e)
                     :: (if true
                         then [OAck "B" (RError "Failed to resume consumer")]
                         else [])
          end
    end.
Proof.
  apply (resume_consumer_acts_on_own_consumer always call "B" 1 "c1" true
           (Resolved (reply "ok"))).
  by vm_compute.
Defined.

(** X11 (TOGGLE_VIDEO, TOGGLE_AUDIO): a toggle sent by a registered peer
    that has produced nothing yet is refused with "User not found": the
    state it announces is not recorded on the peer, the room is not told and
    nothing is asked of the engine. *)
Theorem toggle_before_producing_is_refused
    (canConsume : string → JsValue → bool) (k : MediaKind) (w : World)
    (sid : string) (peer : uref) (enabled callback : bool) :
  registered w sid peer →
  producers_in w (users w !!! peer) = None →
  let w' := react canConsume (EvMessage sid (TOGGLE k enabled callback)) w in
  users w' = users w
  ∧ pending w' = pending w
  ∧ producerObjs w' = producerObjs w
  ∧ trace w'
    = trace w
      ++ [OWarn ("User not found or has no producers: " +:+ sid)]
      ++ (if callback then [OAck sid (RError "User not found")] else []).
Proof.
  intros Hpeer Hnone w'. subst w'.
  destruct k; cbn [TOGGLE react handle];
    unfold on_TOGGLE_VIDEO, on_TOGGLE_AUDIO, toggle;
    rewrite !(getUserBySocketId_registered _ _ _ Hpeer), Hnone;
    destruct callback; cbn [ack_if ack out users pending producerObjs trace];
    by rewrite ?app_nil_r, <- ?app_assoc.
Qed.

Lemma toggle_before_producing_is_refused_witness :
  let w' := react always (EvMessage "B" (TOGGLE video true true)) lobby in
  users w' = users lobby
  ∧ pending w' = pending lobby
  ∧ producerObjs w' = producerObjs lobby
  ∧ trace w'
    = trace lobby
      ++ [OWarn ("User not found or has no producers: " +:+ "B")]
      ++ (if true then [OAck "B" (RError "User not found")] else []).
Proof.
  apply (toggle_before_producing_is_refused always video lobby "B" 1 true
           true).
  - by vm_compute.
  - by vm_compute.
Defined.

(** ** From CONSUME to the cascade *)

Lemma JsMap_set_elem {V} (k : string) (v : V) (m : JsMap.t V) :
  (k, v) ∈ JsMap.set k v m.
Proof.
  induction m as [|[k' v'] m IH]; cbn [JsMap.set]; [by left|].
  destruct (String.eqb k' k) eqn:Hk.
  - apply String.eqb_eq in Hk as ->. by left.
  - by right.
Qed.

Lemma JsMap_get_set {V} (k : string) (v : V) (m : JsMap.t V) :
  JsMap.get k (JsMap.set k v m) = Some v.
Proof.
  unfold JsMap.get.
  induction m as [|[k' v'] m IH]; cbn [JsMap.set List.find fst].
  - by rewrite String.eqb_refl.
  - destruct (String.eqb k' k) eqn:Hk; cbn [List.find fst]; by rewrite Hk.
Qed.

Lemma consume_from_out canConsume peer sid otherPeer es : ∀ idx acc w,
  ∃ os, (consume_from canConsume peer sid otherPeer es idx acc w).1 = out os w.
Proof.
  induction es as [|[key p] es IH]; intros idx acc w; cbn [consume_from].
  - by eexists.
  - unfold createConsumer.
    destruct (consumerTransport _).
    + destruct (negb _ || negb _).
      * destruct (IH (S idx) acc
                    (consume_failed p
                       "cannot consume - incompatible RTP capabilities"
                       (error "Cannot consume - incompatible RTP capabilities"
                          None w))) as [os ->].
        unfold consume_failed, error. rewrite !out_out. by eexists.
      * exists []. by rewrite out_nil.
    + destruct (IH (S idx) acc
                  (consume_failed p "consumerTransport not found"
                     (error "consumerTransport not found" None w)))
        as [os ->].
      unfold consume_failed, error. rewrite !out_out. by eexists.
Qed.

(** The consumer the engine creates for a CONSUME of a registered peer is
    stored in the Map of that peer under its id, with the id of the producer
    as its producerId. *)
Lemma created_consumer_is_stored
    (canConsume : string → JsValue → bool) (w : World) (n : nat)
    (t : tref) (p : pref) (caps : JsValue) (paused : bool)
    (appData : AppData) (peer : uref) (sid : string) (otherPeer : uref)
    (idx : nat) (acc : list ConsumerDetails) (rep : Reply) :
  pending w !! n
  = Some (Some (RqConsume t p caps paused appData,
                KConsumed peer sid otherPeer idx acc p)) →
  peer ∈ registry w →
  peer < length (users w) →
  (∀ m, consumers (users w !!! peer) = Some m → m < length (consumerMaps w)) →
  let c := length (consumerObjs w) in
  let w' := react canConsume (EvSettle n (Resolved rep)) w in
  consumerObjs w'
  = consumerObjs w
    ++ [mkConsumer (reply_id rep) (producer_id (producerObjs w !!! p))
          (producer_kind (producerObjs w !!! p)) (reply_data rep)
          (reply_type rep) paused false appData]
  ∧ JsMap.get (reply_id rep)
      (default [] (consumers_in w' (users w' !!! peer)))
    = Some c
  ∧ c ∈ consumers_of w' p.
Proof.
  intros Hn Hpeer Hlt Hvalid c w'. subst w'. cbn [react]. rewrite Hn.
  cbn [resume engine].
  set (w1 := set_consumerObjs _ (set_pending _ w)).
  assert (Hnew :
    consumerObjs w1 !!! c
    = mkConsumer (reply_id rep) (producer_id (producerObjs w !!! p))
        (producer_kind (producerObjs w !!! p)) (reply_data rep)
        (reply_type rep) paused false appData).
  { unfold w1, c. cbn [set_consumerObjs set_pending consumerObjs producerObjs].
    by rewrite list_lookup_total_middle. }
  change (length (consumerObjs (set_pending <[n:=None]> w))) with c.
  assert (Hst : ∃ w3,
    (consumer_created peer p c w1).1 = w3
    ∧ consumers_in w3 (users w3 !!! peer)
      = Some (JsMap.set (reply_id rep) c
                (default [] (consumers_in w (users w !!! peer))))
    ∧ arrays w3 = arrays w ∧ userSocketMap w3 = userSocketMap w
    ∧ consumerObjs w3 = consumerObjs w1 ∧ producerObjs w3 = producerObjs w).
  { eexists. split; [done|].
    unfold consumer_created, consumers_map, consumers_in.
    rewrite Hnew. cbn [consumer_id].
    change (users w1) with (users w).
    change (consumerMaps w1) with (consumerMaps w).
    destruct (consumers (users w !!! peer)) as [m|] eqn:Hm;
      cbn [fst set_consumerMaps update_user set_users users consumerMaps
           arrays userSocketMap consumerObjs producerObjs].
    - change (users w1) with (users w).
      change (consumerMaps w1) with (consumerMaps w). rewrite Hm.
      cbn [fmap option_fmap option_map from_option id].
      rewrite list_lookup_total_alter, decide_True; [done|].
      split; [done|by apply Hvalid].
    - change (users w1) with (users w).
      change (consumerMaps w1) with (consumerMaps w).
      rewrite list_lookup_total_alter, decide_True by done.
      cbn [consumers user_set_consumers fmap option_fmap option_map
           from_option id].
      rewrite list_lookup_total_alter, decide_True.
      2:{ split; [done|]. rewrite length_app. simpl. lia. }
      by rewrite list_lookup_total_middle. }
  destruct Hst as (w3 & Hw3 & Hmap & Ha3 & Hm3 & Hc3 & Hp3).
  destruct (consumer_created peer p c w1) as [w3' details].
  cbn [fst] in Hw3. subst w3'.
  unfold consume_loop.
  destruct (consume_from_out canConsume peer sid otherPeer
              (drop (S idx)
                 (default [] (producers_in w3 (users w3 !!! otherPeer))))
              (S idx) (acc ++ [details]) w3) as [os Hos].
  destruct (consume_from _ _ _ _ _ _ _ _) as [w4 parked].
  cbn [fst] in Hos. subst w4.
  assert (Hfields : ∀ w5, w5 = park (out os w3, parked) →
            users w5 = users w3 ∧ arrays w5 = arrays w3
            ∧ consumerObjs w5 = consumerObjs w3
            ∧ producerObjs w5 = producerObjs w3
            ∧ userSocketMap w5 = userSocketMap w3
            ∧ consumerMaps w5 = consumerMaps w3).
  { intros w5 ->. by destruct parked. }
  destruct (Hfields _ eq_refl) as (Hu & Ha & Hc & Hp & Hm & Hcm).
  split; [by rewrite Hc, Hc3|]. split.
  - unfold consumers_in in *. rewrite Hu, Hcm, Hmap.
    cbn [from_option id]. apply JsMap_get_set.
  - unfold consumers_of. rewrite Hm.
    rewrite (remaining_ext w3) by (by rewrite ?Hu, ?Ha, ?Hc, ?Hp, ?Hcm).
    eapply (consumers_of_elem w3 p peer _ (reply_id rep) c).
    + unfold registry. by rewrite Ha3, Hm3.
    + exact Hmap.
    + apply JsMap_set_elem.
    + unfold sourced_from. rewrite Hc3, Hp3, Hnew.
      cbn [consumer_producerId]. apply String.eqb_refl.
Qed.

(** X12 (createConsumer, CONSUME, pauseProducer, resumeProducer): when the
    engine resolves the request CONSUME made for a registered peer, the new
    consumer is stored in the map of that peer under its id, with the id of
    the producer as its producerId.  In the state this leaves, it is among
    the consumers the loops of pauseProducer and resumeProducer meet for
    this producer: a cascade of the producer run from there, its calls
    resolving, completes with this consumer paused (resumed). *)
Theorem created_consumer_is_in_reach_of_cascade
    (canConsume : string → JsValue → bool) (w : World) (n : nat)
    (t : tref) (p : pref) (caps : JsValue) (paused : bool)
    (appData : AppData) (peer : uref) (sid : string) (otherPeer : uref)
    (idx : nat) (acc : list ConsumerDetails) (rep : Reply) :
  pending w !! n
  = Some (Some (RqConsume t p caps paused appData,
                KConsumed peer sid otherPeer idx acc p)) →
  peer ∈ registry w →
  peer < length (users w) →
  (∀ m, consumers (users w !!! peer) = Some m → m < length (consumerMaps w)) →
  let c := length (consumerObjs w) in
  let w' := react canConsume (EvSettle n (Resolved rep)) w in
  consumerObjs w'
  = consumerObjs w
    ++ [mkConsumer (reply_id rep) (producer_id (producerObjs w !!! p))
          (producer_kind (producerObjs w !!! p)) (reply_data rep)
          (reply_type rep) paused false appData]
  ∧ JsMap.get (reply_id rep)
      (default [] (consumers_in w' (users w' !!! peer)))
    = Some c
  ∧ c ∈ consumers_of w' p
  ∧ ∀ eng m fuel,
      obliging eng →
      length (consumers_of w' p) < fuel →
      ∃ w2,
        drive canConsume fuel eng (w', Some (start_cascade m p)) = (w2, None)
        ∧ consumer_paused <$> consumerObjs w2 !! c = Some (paused_after m).
Proof.
  intros Hn Hpeer Hlt Hvalid c w'.
  destruct (created_consumer_is_stored canConsume w n t p caps paused
              appData peer sid otherPeer idx acc rep Hn Hpeer Hlt Hvalid)
    as (Hobjs & Hget & Hin).
  fold c w' in Hobjs, Hget, Hin.
  split; [done|]. split; [done|]. split; [done|].
  intros eng m fuel Heng Hfuel.
  replace (start_cascade m p) with (RqProducer m p, KProducerDone m p)
    by (by destruct m).
  rewrite (cascade_complete canConsume eng m p w' fuel) by auto.
  eexists. split; [done|].
  cbn [after_cascade set_pending set_consumerObjs set_producerObjs
       consumerObjs].
  assert (HC : consumerObjs w' !! c
               = Some (mkConsumer (reply_id rep)
                         (producer_id (producerObjs w !!! p))
                         (producer_kind (producerObjs w !!! p))
                         (reply_data rep) (reply_type rep) paused false
                         appData)).
  { rewrite Hobjs. by apply list_lookup_middle. }
  by rewrite (flagged_lookup _ _ _ _ _ HC), decide_True.
Qed.

Lemma created_consumer_is_in_reach_of_cascade_witness :
  let w := react always (EvMessage "B" (CONSUME "A")) studio in
  let c := length (consumerObjs w) in
  let w' := react always (EvSettle 5 (Resolved (reply "c1"))) w in
  consumerObjs w'
  = consumerObjs w
    ++ [mkConsumer (reply_id (reply "c1")) (producer_id (producerObjs w !!! 0))
          (producer_kind (producerObjs w !!! 0)) (reply_data (reply "c1"))
          (reply_type (reply "c1")) true false
          (mkAppData (Some "A") (Some "alice"))]
  ∧ JsMap.get (reply_id (reply "c1"))
      (default [] (consumers_in w' (users w' !!! 1)))
    = Some c
  ∧ c ∈ consumers_of w' 0
  ∧ ∀ eng m fuel,
      obliging eng →
      length (consumers_of w' 0) < fuel →
      ∃ w2,
        drive always fuel eng (w', Some (start_cascade m 0)) = (w2, None)
        ∧ consumer_paused <$> consumerObjs w2 !! c = Some (paused_after m).
Proof.
  apply (created_consumer_is_in_reach_of_cascade always
           (react always (EvMessage "B" (CONSUME "A")) studio) 5 1 0
           (VObject "caps") true (mkAppData (Some "A") (Some "alice")) 1 "B"
           0 0 [] (reply "c1")).
  - by vm_compute.
  - apply list_elem_of_In. vm_compute. tauto.
  - vm_compute. lia.
  - intros m Hm. vm_compute in Hm. discriminate Hm.
Defined.

(** ** Messages passed on to the room *)

Lemma find_fmap {A B} (g : B → bool) (h : A → B) (l : list A) :
  List.find g (h <$> l) = h <$> List.find (λ x, g (h x)) l.
Proof.
  induction l as [|x l IH]; [done|]. cbn [fmap list_fmap List.find].
  fold (fmap h l). rewrite IH. by destruct (g (h x)).
Qed.

Lemma user_of_find w sid :
  user_of w sid
  = (λ r, users w !!! r)
      <$> List.find (user_is w (λ u, String.eqb (socketId u) sid))
            (registry w).
Proof. unfold user_of, roster. by rewrite find_fmap. Qed.

Lemma getRoomId_room_of sid w :
  ∃ os,
    getRoomId sid w = (out os w, room_of w sid)
    ∧ Forall is_log os
    ∧ length os = match room_of w sid with Some _ => 0 | None => 1 end.
Proof.
  unfold getRoomId, room_of. rewrite user_of_find.
  destruct (List.find _ (registry w)) as [r|];
    cbn [fmap option_fmap option_map].
  - destruct (String.eqb (roomId (users w !!! r)) EmptyString).
    + eexists [_]. split; [done|]. split; [|done].
      repeat constructor. by eexists _, _.
    + exists []. by rewrite out_nil.
  - eexists [_]. split; [done|]. split; [|done].
    repeat constructor. by eexists _, _.
Qed.

Lemma getUserBySocketId_user_of sid w :
  ∃ os,
    (getUserBySocketId sid w).1 = out os w
    ∧ snd <$> (getUserBySocketId sid w).2 = user_of w sid.
Proof.
  unfold getUserBySocketId. rewrite user_of_find.
  destruct (List.find _ (registry w)) as [r|].
  - exists []. by rewrite out_nil.
  - by eexists [_].
Qed.

Lemma recipients_spec room sid w s :
  s ∈ recipients room sid w ↔ s ∈ room_members room w ∧ s ≠ sid.
Proof.
  unfold recipients. rewrite elem_of_elements, elem_of_difference.
  by rewrite elem_of_singleton.
Qed.



(** X14 (getRoomId and the handlers that call it): a message for the room
    sent by a socket that has no registered peer, or whose peer has the
    empty room name, is dropped: one line is logged, nothing is sent and
    nothing else changes. *)
Theorem room_message_of_a_stranger_is_dropped
    (w : World) (sid : string) (m : RoomMessage) :
  room_of w sid = None →
  on_room_message sid m w
  = (error ("Room ID is undefined for socket ID: " +:+ sid) None w, []).
Proof.
  intros Hroom. unfold on_room_message, getRoomId.
  unfold room_of in Hroom. rewrite user_of_find in Hroom.
  destruct (List.find _ (registry w)) as [r|]; [|done].
  cbn [fmap option_fmap option_map] in Hroom.
  by destruct (String.eqb (roomId (users w !!! r)) EmptyString).
Qed.

Lemma room_message_of_a_stranger_is_dropped_witness :
  on_room_message "Z" (FILE_DELETED (VString "f1")) call
  = (error ("Room ID is undefined for socket ID: " +:+ "Z") None call, []).
Proof.
  apply (room_message_of_a_stranger_is_dropped call "Z"
           (FILE_DELETED (VString "f1"))).
  by vm_compute.
Defined.



(** ** Status, typing and the active editor: the registry rebuilt *)

Lemma map_users_spec test f rs : ∀ us,
  (∀ r, r ∈ rs → r < length us) →
  (∃ more, (map_users test f rs us).1 = us ++ more)
  ∧ length (map_users test f rs us).2 = length rs
  ∧ ∀ i r, rs !! i = Some r →
      ∃ r', (map_users test f rs us).2 !! i = Some r'
            ∧ r' < length (map_users test f rs us).1
            ∧ (map_users test f rs us).1 !!! r' = copy_if test f (us !!! r)
            ∧ (if test (us !!! r) then (length us ≤ r')%nat else r' = r).
Proof.
  induction rs as [|r0 rs IH]; intros us Hlt.
  - split; [exists []; by rewrite app_nil_r|]. split; [done|].
    intros i r Hi. by rewrite lookup_nil in Hi.
  - cbn [map_users fst snd].
    set (user := us !!! r0).
    set (us1 := if test user then us ++ [f user] else us).
    assert (Hext : ∃ m1, us1 = us ++ m1).
    { unfold us1. destruct (test user); [by eexists|].
      exists []. by rewrite app_nil_r. }
    destruct Hext as [m1 Hm1].
    assert (Hlt1 : ∀ r, r ∈ rs → r < length us1).
    { intros r Hr. rewrite Hm1, length_app.
      assert (r < length us) by (apply Hlt; by right). lia. }
    destruct (IH us1 Hlt1) as ((more & Hmore) & Hlen & Hall).
    assert (Hr0 : r0 < length us) by (apply Hlt; by left).
    split; [|split].
    + exists (m1 ++ more). by rewrite Hmore, Hm1, <- app_assoc.
    + cbn [length]. by rewrite Hlen.
    + intros [|i] r Hi.
      * injection Hi as <-. cbn [lookup list_lookup]. eexists. split; [done|].
        fold user. unfold copy_if. rewrite Hmore. unfold us1.
        destruct (test user) eqn:Htest.
        -- split; [rewrite !length_app; simpl; lia|]. split; [|done].
           rewrite <- app_assoc. cbn [app].
           by rewrite list_lookup_total_middle.
        -- split; [rewrite length_app; lia|]. split; [|done].
           by rewrite lookup_total_app_l.
      * cbn [lookup list_lookup] in *.
        destruct (Hall i r Hi) as (r' & Hr' & Hlt' & Hval & Hpos).
        assert (Hr : r < length us).
        { apply Hlt. right. by eapply list_elem_of_lookup_2. }
        assert (Hsame : us1 !!! r = us !!! r).
        { rewrite Hm1. by apply lookup_total_app_l. }
        rewrite Hsame in Hval, Hpos.
        exists r'. split; [done|]. split; [done|]. split; [done|].
        destruct (test (us !!! r)); [|done].
        rewrite Hm1, length_app in Hpos. lia.
Qed.

Lemma registry_rebind a w : registry (rebind a w) = a.
Proof.
  unfold registry, rebind.
  cbn [set_userSocketMap set_arrays arrays userSocketMap].
  by rewrite list_lookup_total_middle.
Qed.

Lemma remap_spec test f w :
  registry_ok w →
  (∃ more, users (remap test f w) = users w ++ more)
  ∧ length (registry (remap test f w)) = length (registry w)
  ∧ ∀ i r, registry w !! i = Some r →
      ∃ r', registry (remap test f w) !! i = Some r'
            ∧ r' < length (users (remap test f w))
            ∧ users (remap test f w) !!! r' = copy_if test f (users w !!! r)
            ∧ (if test (users w !!! r) then (length (users w) ≤ r')%nat
               else r' = r).
Proof.
  intros Hreg. unfold remap. rewrite registry_rebind.
  cbn [rebind set_userSocketMap set_arrays set_users users].
  by apply map_users_spec.
Qed.

Lemma roster_remap test f w :
  registry_ok w → roster (remap test f w) = copy_if test f <$> roster w.
Proof.
  intros Hreg. destruct (remap_spec test f w Hreg) as (_ & Hlen & Hall).
  unfold roster.
  apply (list_eq_same_length _ _ (length (registry w)));
    [by rewrite !length_fmap | by rewrite length_fmap|].
  intros i x y Hi. rewrite !list_lookup_fmap.
  destruct (registry w !! i) as [r|] eqn:Hr; [|done].
  destruct (Hall i r Hr) as (r' & -> & _ & Hval & _).
  cbn [fmap option_fmap option_map]. intros [= <-] [= <-]. done.
Qed.

Lemma registry_ok_remap test f w :
  registry_ok w → registry_ok (remap test f w).
Proof.
  intros Hreg r' Hr'. destruct (remap_spec test f w Hreg) as (_ & Hlen & Hall).
  apply list_elem_of_lookup in Hr' as [i Hi].
  destruct (registry w !! i) as [r|] eqn:Hr.
  - destruct (Hall i r Hr) as (r1 & Hr1 & Hlt & _). congruence.
  - apply lookup_ge_None in Hr. apply lookup_lt_Some in Hi. lia.
Qed.

Lemma rooms_ok_remap test f w :
  (∀ u, socketId (f u) = socketId u) →
  (∀ u, roomId (f u) = roomId u) →
  rooms_ok w ∧ registry_ok w →
  rooms_ok (remap test f w) ∧ registry_ok (remap test f w).
Proof.
  intros Hs Hr [Hrooms Hreg]. split; [|by apply registry_ok_remap].
  intros r' Hr'. destruct (remap_spec test f w Hreg) as (_ & Hlen & Hall).
  apply list_elem_of_lookup in Hr' as [i Hi].
  destruct (registry w !! i) as [r|] eqn:Hri.
  2:{ apply lookup_ge_None in Hri. apply lookup_lt_Some in Hi. lia. }
  destruct (Hall i r Hri) as (r1 & Hr1 & _ & Hval & _).
  assert (r1 = r') as -> by congruence. rewrite Hval.
  assert (Hsame : socketId (copy_if test f (users w !!! r))
                  = socketId (users w !!! r)
                  ∧ roomId (copy_if test f (users w !!! r))
                    = roomId (users w !!! r)).
  { unfold copy_if. by destruct (test _). }
  destruct Hsame as [-> ->].
  change (room_members ?x (remap test f w)) with (room_members x w).
  apply Hrooms. by eapply list_elem_of_lookup_2.
Qed.

Lemma find_ext {A} (g h : A → bool) (l : list A) :
  (∀ x, g x = h x) → List.find g l = List.find h l.
Proof.
  intros H. induction l as [|x l IH]; [done|].
  cbn [List.find]. by rewrite H, IH.
Qed.

Lemma user_of_remap test f w sid :
  (∀ u, socketId (f u) = socketId u) →
  registry_ok w →
  user_of (remap test f w) sid = copy_if test f <$> user_of w sid.
Proof.
  intros Hs Hreg. unfold user_of. rewrite roster_remap by done.
  rewrite find_fmap. f_equal. apply find_ext. intros u.
  unfold copy_if. destruct (test u); by rewrite ?Hs.
Qed.

Lemma room_of_remap test f w sid :
  (∀ u, socketId (f u) = socketId u) →
  (∀ u, roomId (f u) = roomId u) →
  registry_ok w →
  room_of (remap test f w) sid = room_of w sid.
Proof.
  intros Hs Hr Hreg. unfold room_of. rewrite user_of_remap by done.
  destruct (user_of w sid) as [u|]; [|done].
  cbn [fmap option_fmap option_map]. unfold copy_if.
  destruct (test u); by rewrite ?Hr.
Qed.

Lemma broadcast_ext room sender ev w w' :
  ioRooms w' = ioRooms w →
  broadcast room sender ev w' = broadcast room sender ev w.
Proof.
  intros H. unfold broadcast, recipients, room_members. by rewrite H.
Qed.

(** X16 (USER_OFFLINE, USER_ONLINE): the status is set for the socket the
    message names, which need not be the socket that sends it: every
    registered peer of that socket is replaced in the registry, at its
    place, by a copy with the new status, and the others stay; the objects
    replaced are left as they were.  The sockets of the room of the socket
    named, but the sender, are told. *)
Theorem status_is_set_for_the_socket_named
    (st : USER_CONNECTION_STATUS) (w : World) (sender target : string) :
  registry_ok w →
  roster (on_status st sender target w).1
  = copy_if (of_socket target) (user_set_status st) <$> roster w
  ∧ (∃ more, users (on_status st sender target w).1 = users w ++ more)
  ∧ (on_status st sender target w).2
    = match room_of w target with
      | Some room => broadcast room sender (status_event st target) w
      | None => []
      end.
Proof.
  intros Hreg.
  assert (Hshape : on_status st sender target w
                   = set_status st sender target (status_event st target) w)
    by (by destruct st).
  rewrite Hshape. unfold set_status.
  set (w1 := remap _ _ w).
  destruct (getRoomId_room_of target w1) as (os & -> & _ & _).
  assert (Hroom : room_of w1 target = room_of w target).
  { by apply room_of_remap. }
  rewrite Hroom.
  assert (Hroster : roster (out os w1)
                    = copy_if (of_socket target) (user_set_status st)
                        <$> roster w).
  { change (roster (out os w1)) with (roster w1). by apply roster_remap. }
  assert (Husers : ∃ more, users (out os w1) = users w ++ more).
  { by destruct (remap_spec (of_socket target) (user_set_status st) w Hreg)
      as (H & _). }
  destruct (room_of w target); (split; [done|]); (split; [done|]); [|done].
  by apply broadcast_ext.
Qed.

(** The references of a registry that is given are below the number of
    users that is given. *)
Ltac registry_refs :=
  let r := fresh "r" in
  let Hr := fresh "Hr" in
  intros r Hr; apply list_elem_of_In in Hr; vm_compute in Hr; vm_compute;
  repeat (destruct Hr as [<-|Hr]; [lia|]); destruct Hr.

Lemma status_is_set_for_the_socket_named_witness :
  roster (on_status OFFLINE "C" "B" call).1
  = copy_if (of_socket "B") (user_set_status OFFLINE) <$> roster call
  ∧ (∃ more, users (on_status OFFLINE "C" "B" call).1 = users call ++ more)
  ∧ (on_status OFFLINE "C" "B" call).2
    = match room_of call "B" with
      | Some room => broadcast room "C" (status_event OFFLINE "B") call
      | None => []
      end.
Proof.
  apply (status_is_set_for_the_socket_named OFFLINE call "C" "B").
  registry_refs.
Defined.

Lemma announce_spec sid (k : User → Sent.t) w1 :
  (let '(w, found) := getUserBySocketId sid w1 in
   match found with
   | None => (w, [])
   | Some (_, user) => (w, broadcast (roomId user) sid (k user) w)
   end)
  = ((getUserBySocketId sid w1).1,
     match user_of w1 sid with
     | Some u => broadcast (roomId u) sid (k u) w1
     | None => []
     end).
Proof.
  unfold getUserBySocketId. rewrite user_of_find.
  by destruct (List.find _ (registry w1)).
Qed.

Lemma typing_spec sid f (k : User → Sent.t) w :
  (∀ u, socketId (f u) = socketId u) →
  (∀ u, roomId (f u) = roomId u) →
  registry_ok w →
  let res :=
    (let '(w, found) :=
       getUserBySocketId sid (remap (of_socket sid) f w) in
     match found with
     | None => (w, [])
     | Some (_, user) => (w, broadcast (roomId user) sid (k user) w)
     end) in
  roster res.1 = copy_if (of_socket sid) f <$> roster w
  ∧ res.2
    = match user_of w sid with
      | Some u => broadcast (roomId u) sid (k (f u)) w
      | None => []
      end.
Proof.
  intros Hs Hr Hreg res. subst res. rewrite announce_spec. cbn [fst snd].
  destruct (getUserBySocketId_user_of sid (remap (of_socket sid) f w))
    as (os & -> & _).
  split; [change (roster (out os ?x)) with (roster x); by apply roster_remap|].
  rewrite user_of_remap by done.
  destruct (user_of w sid) as [u|] eqn:Hu; [|done].
  cbn [fmap option_fmap option_map].
  assert (Htest : of_socket sid u = true).
  { unfold user_of in Hu. by apply List.find_some in Hu as [_ Hu]. }
  unfold copy_if. rewrite Htest, Hr. by apply broadcast_ext.
Qed.

(** X17 (TYPING_START, TYPING_PAUSE): TYPING_START replaces every
    registered peer of the sending socket, at its place in the registry, by
    a copy that is typing at the position sent, and TYPING_PAUSE by a copy
    that is not typing; the other peers stay.  The other sockets of the room
    of the first such peer are sent the event with the copy, that is the
    peer as it is after the change; a socket without a registered peer
    changes nothing and nobody is told. *)
Theorem typing_is_recorded_and_announced
    (w : World) (sid : string) (pos : Z) :
  registry_ok w →
  let started := λ u, user_set_cursorPosition pos (user_set_typing true u) in
  roster (on_TYPING_START sid pos w).1
  = copy_if (of_socket sid) started <$> roster w
  ∧ (on_TYPING_START sid pos w).2
    = match user_of w sid with
      | Some u => broadcast (roomId u) sid (Sent.TYPING_START (started u)) w
      | None => []
      end
  ∧ roster (on_TYPING_PAUSE sid w).1
    = copy_if (of_socket sid) (user_set_typing false) <$> roster w
  ∧ (on_TYPING_PAUSE sid w).2
    = match user_of w sid with
      | Some u =>
          broadcast (roomId u) sid
            (Sent.TYPING_PAUSE (user_set_typing false u)) w
      | None => []
      end.
Proof.
  intros Hreg started.
  destruct (typing_spec sid started Sent.TYPING_START w) as [H1 H2];
    try done.
  destruct (typing_spec sid (user_set_typing false) Sent.TYPING_PAUSE w)
    as [H3 H4]; try done.
Qed.

Lemma typing_is_recorded_and_announced_witness :
  let started := λ u, user_set_cursorPosition 42%Z (user_set_typing true u) in
  roster (on_TYPING_START "B" 42%Z call).1
  = copy_if (of_socket "B") started <$> roster call
  ∧ (on_TYPING_START "B" 42%Z call).2
    = match user_of call "B" with
      | Some u => broadcast (roomId u) "B" (Sent.TYPING_START (started u)) call
      | None => []
      end
  ∧ roster (on_TYPING_PAUSE "B" call).1
    = copy_if (of_socket "B") (user_set_typing false) <$> roster call
  ∧ (on_TYPING_PAUSE "B" call).2
    = match user_of call "B" with
      | Some u =>
          broadcast (roomId u) "B"
            (Sent.TYPING_PAUSE (user_set_typing false u)) call
      | None => []
      end.
Proof.
  apply (typing_is_recorded_and_announced call "B" 42%Z).
  registry_refs.
Defined.

(** X18 (ACTIVE_EDITOR_CHANGED, setActiveEditor): the file and cursor sent
    become the active editor of the sending socket in the room the message
    names, which [getActiveEditor] returns from then on; every registered
    peer of the socket is replaced by a copy with this file as currentFile;
    and the other sockets of the room named are told.  The room is taken
    from the message: it is not compared with the room of the peer. *)
Theorem active_editor_change_is_recorded
    (s : Server) (sid room file : string) (cursor : option Z) :
  registry_ok (world s) →
  let s' := signal sid (ACTIVE_EDITOR_CHANGED room file cursor) s in
  getActiveEditor room sid (activeEditorMap s')
  = Some (mkActiveEditor file cursor)
  ∧ roster (world s')
    = copy_if (of_socket sid) (user_set_currentFile (Some file))
        <$> roster (world s)
  ∧ sent s'
    = sent s
      ++ broadcast room sid (Sent.ACTIVE_EDITOR_CHANGED sid file cursor)
           (world s).
Proof.
  intros Hreg s'. subst s'. cbn [signal]. unfold on_ACTIVE_EDITOR_CHANGED.
  cbn [activeEditorMap world sent].
  split; [apply getActiveEditor_set_same|].
  split; [by apply roster_remap|]. done.
Qed.

Lemma active_editor_change_is_recorded_witness :
  let s' :=
    signal "B" (ACTIVE_EDITOR_CHANGED "r1" "main.ts" (Some 7%Z))
      (serving call) in
  getActiveEditor "r1" "B" (activeEditorMap s')
  = Some (mkActiveEditor "main.ts" (Some 7%Z))
  ∧ roster (world s')
    = copy_if (of_socket "B") (user_set_currentFile (Some "main.ts"))
        <$> roster (world (serving call))
  ∧ sent s'
    = sent (serving call)
      ++ broadcast "r1" "B"
           (Sent.ACTIVE_EDITOR_CHANGED "B" "main.ts" (Some 7%Z))
           (world (serving call)).
Proof.
  apply (active_editor_change_is_recorded (serving call) "B" "r1"
           "main.ts" (Some 7%Z)).
  registry_refs.
Defined.

(** ** The coordinator and the other handlers together *)

Lemma signal_world sid m s :
  (∀ room name, m ≠ JOIN_ROOM room name) →
  ∃ os test f,
    Forall is_log os
    ∧ (∀ u, same_media u (f u))
    ∧ (world (signal sid m s) = out os (world s)
       ∨ world (signal sid m s) = out os (remap test f (world s))).
Proof.
  intros Hm.
  assert (Hid : ∀ u : User, same_media u u) by (by intros u).
  destruct m as [m|fs op af target|target|target|pos| |dd target|name room
                 |callback|room file cursor|room name]; cbn [signal within];
    [..|by destruct (Hm room name)].
  - unfold within, on_room_message.
    destruct (getRoomId_room_of sid (world s)) as (os & -> & Hos & _).
    exists os, (λ _, false), id. split; [done|]. split; [done|]. left.
    by destruct (room_of (world s) sid).
  - exists [], (λ _, false), id. split; [done|]. split; [done|]. left.
    unfold within, on_SYNC_FILE_STRUCTURE. cbn [world]. by rewrite out_nil.
  - unfold within, on_USER_OFFLINE, set_status.
    set (w1 := remap _ _ (world s)).
    destruct (getRoomId_room_of target w1) as (os & -> & Hos & _).
    eexists os, _, _. split; [done|]. split; [|right].
    2:{ by destruct (room_of w1 target). }
    by intros u.
  - unfold within, on_USER_ONLINE, set_status.
    set (w1 := remap _ _ (world s)).
    destruct (getRoomId_room_of target w1) as (os & -> & Hos & _).
    eexists os, _, _. split; [done|]. split; [|right].
    2:{ by destruct (room_of w1 target). }
    by intros u.
  - unfold within, on_TYPING_START. rewrite announce_spec.
    set (w1 := remap _ _ (world s)). unfold getUserBySocketId.
    destruct (List.find _ (registry w1)).
    + eexists [], _, _. split; [done|]. split; [|right].
      2:{ cbn [world fst]. by rewrite out_nil. }
      by intros u.
    + eexists [_], _, _. split; [repeat constructor; by eexists _, _|].
      split; [|by right]. by intros u.
  - unfold within, on_TYPING_PAUSE. rewrite announce_spec.
    set (w1 := remap _ _ (world s)). unfold getUserBySocketId.
    destruct (List.find _ (registry w1)).
    + eexists [], _, _. split; [done|]. split; [|right].
      2:{ cbn [world fst]. by rewrite out_nil. }
      by intros u.
    + eexists [_], _, _. split; [repeat constructor; by eexists _, _|].
      split; [|by right]. by intros u.
  - exists [], (λ _, false), id. split; [done|]. split; [done|]. left.
    unfold within, on_SYNC_DRAWING. cbn [world]. by rewrite out_nil.
  - exists [], (λ _, false), id. split; [done|]. split; [done|]. left.
    unfold within, on_VIDEO_CALL_STARTED. cbn [world]. by rewrite out_nil.
  - unfold within, on_GET_USERS_IN_ROOM.
    destruct (getRoomId_room_of sid (world s)) as (os & -> & Hos & _).
    exists os, (λ _, false), id. split; [done|]. split; [done|]. left.
    destruct (room_of (world s) sid) as [room|] eqn:Hroom; [|done].
    unfold getUsersInRoom.
    assert (Hne : String.eqb room EmptyString = false).
    { unfold room_of in Hroom.
      destruct (user_of (world s) sid) as [u|]; [|done].
      destruct (String.eqb (roomId u) EmptyString) eqn:Hu; [done|].
      by injection Hroom as <-. }
    by rewrite Hne.
  - eexists [], _, _. split; [done|]. split; [|right].
    2:{ unfold on_ACTIVE_EDITOR_CHANGED. cbn [world]. by rewrite out_nil. }
    by intros u.
Qed.

Lemma rooms_ok_out os w :
  rooms_ok w ∧ registry_ok w → rooms_ok (out os w) ∧ registry_ok (out os w).
Proof. done. Qed.

Lemma rooms_ok_JOIN_ROOM sid room name s :
  rooms_ok (world s) ∧ registry_ok (world s) →
  rooms_ok (world (on_JOIN_ROOM sid room name s))
  ∧ registry_ok (world (on_JOIN_ROOM sid room name s)).
Proof.
  intros Hok. unfold on_JOIN_ROOM.
  set (w1 := socket_join sid room (world s)).
  assert (H1 : rooms_ok w1 ∧ registry_ok w1) by (by apply rooms_ok_join).
  set (w2 := match List.find _ (registry w1) with
             | Some _ => w1
             | None => push_user _ w1
             end).
  assert (H2 : rooms_ok w2 ∧ registry_ok w2).
  { unfold w2. destruct (List.find _ (registry w1)); [done|].
    apply rooms_ok_push; [done|]. apply room_members_joined. }
  by destruct (bool_decide (room ∈ inherited)).
Qed.

Lemma rooms_ok_signal sid m s :
  rooms_ok (world s) ∧ registry_ok (world s) →
  rooms_ok (world (signal sid m s)) ∧ registry_ok (world (signal sid m s)).
Proof.
  intros Hok.
  assert (Hm : (∃ room name, m = JOIN_ROOM room name)
               ∨ ∀ room name, m ≠ JOIN_ROOM room name).
  { destruct m; try (by right); left; by eexists _, _. }
  destruct Hm as [(room & name & ->)|Hm].
  { by apply rooms_ok_JOIN_ROOM. }
  destruct (signal_world sid m s Hm) as (os & test & f & _ & Hf & [-> | ->]).
  - by apply rooms_ok_out.
  - apply rooms_ok_out. apply rooms_ok_remap; [apply Hf..|done].
Qed.

(** X19 (JOIN_REQUEST, JOIN_ROOM, disconnecting and every handler
    modelled): in every state the server reaches, whatever is sent to it and
    whatever the engine answers, each registered peer is a member of the
    socket.io room named by its roomId, so that what is sent to the room of
    a peer reaches the registered peers of that room. *)
Theorem registered_peers_are_in_their_room
    (canConsume : string → JsValue → bool) (ins : list Incoming) :
  rooms_ok (world (serve_all canConsume ins start))
  ∧ registry_ok (world (serve_all canConsume ins start)).
Proof.
  assert (H : ∀ s, rooms_ok (world s) ∧ registry_ok (world s) →
            rooms_ok (world (serve_all canConsume ins s))
            ∧ registry_ok (world (serve_all canConsume ins s))).
  { induction ins as [|i ins IH]; intros s Hs; [done|].
    apply IH. destruct i as [ev|sid m]; cbn [flip serve world].
    - by apply rooms_ok_react.
    - by apply rooms_ok_signal. }
  apply H. split; intros r Hr; by apply elem_of_nil in Hr.
Qed.

Lemma Forall2_same_media_copy test f l :
  (∀ u, same_media u (f u)) →
  Forall2 same_media l (copy_if test f <$> l).
Proof.
  intros Hf. induction l as [|u l IH]; [constructor|].
  rewrite fmap_cons. constructor; [|done].
  unfold copy_if. destruct (test u); [apply Hf|done].
Qed.

(** X20 (the handlers for files, chat, drawing, status, typing, the users
    of the room and the active editor): a message other than JOIN_ROOM and
    those of the coordinator asks nothing of the engine and changes no
    transport, producer, consumer or room of socket.io; the coordinator's
    own output gets nothing but log lines; the registry keeps its length and
    order, and each registered peer keeps its name, room, socket,
    capabilities, transports, producers, consumers and flags, though it may
    be another object than before. *)
Theorem signals_leave_the_media_state_alone
    (sid : string) (m : Signal) (s : Server) :
  (∀ room name, m ≠ JOIN_ROOM room name) →
  registry_ok (world s) →
  let w := world s in
  let w' := world (signal sid m s) in
  transportObjs w' = transportObjs w
  ∧ producerObjs w' = producerObjs w
  ∧ consumerObjs w' = consumerObjs w
  ∧ producerMaps w' = producerMaps w
  ∧ consumerMaps w' = consumerMaps w
  ∧ pending w' = pending w
  ∧ ioRooms w' = ioRooms w
  ∧ (∃ logs, Forall is_log logs ∧ trace w' = trace w ++ logs)
  ∧ (∃ more, users w' = users w ++ more)
  ∧ Forall2 same_media (roster w) (roster w').
Proof.
  intros Hm Hreg w w'. subst w w'.
  destruct (signal_world sid m s Hm)
    as (os & test & f & Hos & Hf & [-> | ->]).
  - do 7 (split; [done|]). split; [by exists os|].
    split; [exists []; by rewrite app_nil_r|].
    change (roster (out os (world s))) with (roster (world s)).
    induction (roster (world s)); by constructor.
  - do 7 (split; [done|]). split; [by exists os|].
    split.
    + by destruct (remap_spec test f (world s) Hreg) as (H & _).
    + change (roster (out os ?x)) with (roster x).
      rewrite roster_remap by done. by apply Forall2_same_media_copy.
Qed.

Lemma signals_leave_the_media_state_alone_witness :
  let w := world (serving call) in
  let w' := world (signal "B" (TYPING_START 3) (serving call)) in
  transportObjs w' = transportObjs w
  ∧ producerObjs w' = producerObjs w
  ∧ consumerObjs w' = consumerObjs w
  ∧ producerMaps w' = producerMaps w
  ∧ consumerMaps w' = consumerMaps w
  ∧ pending w' = pending w
  ∧ ioRooms w' = ioRooms w
  ∧ (∃ logs, Forall is_log logs ∧ trace w' = trace w ++ logs)
  ∧ (∃ more, users w' = users w ++ more)
  ∧ Forall2 same_media (roster w) (roster w').
Proof.
  apply (signals_leave_the_media_state_alone "B" (TYPING_START 3)
           (serving call)).
  - done.
  - registry_refs.
Defined.

(** ** A copy made while a transport is being created *)

Lemma find_Some_first {A} (h : A → bool) (l : list A) (x : A) :
  List.find h l = Some x →
  ∃ i, l !! i = Some x ∧ h x = true
       ∧ ∀ j y, j < i → l !! j = Some y → h y = false.
Proof.
  induction l as [|a l IH]; [done|]. cbn [List.find].
  destruct (h a) eqn:Ha.
  - intros [= <-]. exists 0. split; [done|]. split; [done|]. intros; lia.
  - intros Hx. destruct (IH Hx) as (i & Hi & Hhx & Hbefore).
    exists (S i). split; [done|]. split; [done|].
    intros [|j] y Hj Hy; [by injection Hy as <-|].
    apply (Hbefore j); [lia|done].
Qed.

Lemma find_first_Some {A} (h : A → bool) (l : list A) (x : A) (i : nat) :
  l !! i = Some x → h x = true →
  (∀ j y, j < i → l !! j = Some y → h y = false) →
  List.find h l = Some x.
Proof.
  revert i. induction l as [|a l IH]; intros i Hi Hx Hbefore; [done|].
  cbn [List.find]. destruct i as [|i].
  - injection Hi as ->. by rewrite Hx.
  - rewrite (Hbefore 0 a) by (done || lia).
    apply (IH i); [done|done|]. intros j y Hj Hy.
    apply (Hbefore (S j)); [lia|done].
Qed.

(** The peer registered for a socket after the registry was rebuilt is the
    copy of the peer that was registered for it. *)
Lemma registered_remap f w sid peer :
  (∀ u, socketId (f u) = socketId u) →
  registry_ok w →
  registered w sid peer →
  ∃ peer',
    registered (remap (of_socket sid) f w) sid peer'
    ∧ (length (users w) ≤ peer')%nat
    ∧ users (remap (of_socket sid) f w) !!! peer' = f (users w !!! peer).
Proof.
  intros Hs Hreg Hpeer.
  destruct (remap_spec (of_socket sid) f w Hreg) as (_ & Hlen & Hall).
  apply find_Some_first in Hpeer as (i & Hi & Htest & Hbefore).
  change (of_socket sid (users w !!! peer) = true) in Htest.
  destruct (Hall i peer Hi) as (peer' & Hi' & _ & Hval & Hpos).
  unfold copy_if in Hval. rewrite Htest in Hval, Hpos.
  exists peer'. split; [|done].
  apply (find_first_Some _ _ _ i Hi').
  - unfold user_is. by rewrite Hval, Hs.
  - intros j r' Hj Hr'.
    destruct (registry w !! j) as [r|] eqn:Hr.
    2:{ apply lookup_ge_None in Hr. apply lookup_lt_Some in Hi. lia. }
    destruct (Hall j r Hr) as (r1 & Hr1 & _ & Hval1 & _).
    assert (r1 = r') as -> by congruence.
    unfold user_is. rewrite Hval1. unfold copy_if.
    pose proof (Hbefore j r Hj Hr) as Hno.
    change (of_socket sid (users w !!! r) = false) in Hno. by rewrite Hno.
Qed.

Lemma registered_ext w w' sid peer :
  users w' = users w → registry w' = registry w →
  registered w sid peer → registered w' sid peer.
Proof.
  unfold registered, user_is. intros -> ->. done.
Qed.

Lemma settle_at canConsume w n rq k o :
  pending w !! n = Some (Some (rq, k)) →
  react canConsume (EvSettle n o) w
  = park (resume canConsume rq k o (set_pending <[n := None]> w)).
Proof. intros H. cbn [react]. by rewrite H. Qed.

(** X21 (TYPING_START and CREATE_PRODUCER_TRANSPORT,
    CREATE_CONSUMER_TRANSPORT): the handler that creates a transport keeps
    the peer it found before it waited for the engine, and TYPING_START puts
    a copy of the peer in the registry.  When a peer's TYPING_START is
    handled while its transport is being created, the transport is stored
    on the object that is no longer registered: the request is answered
    with the parameters of the transport, the peer registered for the socket
    has no transport of this direction, its next request for one is taken up
    again, and its PRODUCE is refused. *)
Theorem typing_during_creation_loses_the_transport
    (canConsume : string → JsValue → bool) (d : Direction) (s : Server)
    (sid : string) (peer : uref) (pos : Z) (rep : Reply) (o : Outcome) :
  registered (world s) sid peer →
  registry_ok (world s) →
  transport_of d (users (world s) !!! peer) = None →
  let n := length (pending (world s)) in
  let w' :=
    world
      (serve_all canConsume
         [Core (EvMessage sid (CREATE_TRANSPORT d));
          Other sid (TYPING_START pos);
          Core (EvSettle n (Resolved rep));
          Core (EvSettle (S n) o)] s) in
  ∃ peer',
    registered w' sid peer'
    ∧ peer' ≠ peer
    ∧ transport_of d (users w' !!! peer)
      = Some (length (transportObjs (world s)))
    ∧ transport_of d (users w' !!! peer') = None
    ∧ last (trace w')
      = Some (OAck sid (RTransportParams (reply_id rep) (reply_data rep)))
    ∧ react canConsume (EvMessage sid (CREATE_TRANSPORT d)) w'
      = park (w', Some (createWebRtcTransport d peer' sid))
    ∧ (d = ProducerSide →
       ∀ kind rtpParameters transportId,
         react canConsume
           (EvMessage sid (PRODUCE kind rtpParameters transportId)) w'
         = ack sid (RError "Peer or producer transport not found") w').
Proof.
  intros Hpeer Hreg Hnone n w'. subst w'.
  set (w := world s) in *.
  cbn [serve_all foldl flip serve world signal].
  rewrite (create_accepted _ _ _ _ _ Hpeer Hnone).
  set (w1 := park (w, Some (createWebRtcTransport d peer sid))).
  assert (Hreg1 : registry_ok w1) by done.
  assert (Hpeer1 : registered w1 sid peer) by done.
  set (started := λ u, user_set_cursorPosition pos (user_set_typing true u)).
  destruct (registered_remap started w1 sid peer)
    as (peer' & Hpeer' & Hge & Hval); [done|done|done|].
  assert (Hw2 :
    world (within (on_TYPING_START sid pos)
             (mkServer w1 (activeEditorMap s) (rooms s) (sent s)))
    = remap (of_socket sid) started w1).
  { unfold within, on_TYPING_START. cbn [world]. fold started.
    change (λ u : User, String.eqb (socketId u) sid) with (of_socket sid).
    rewrite (getUserBySocketId_registered _ _ _ Hpeer'). done. }
  rewrite Hw2. set (w2 := remap (of_socket sid) started w1) in *.
  assert (Hlt : peer < length (users w)).
  { apply Hreg. apply find_Some_first in Hpeer as (i & Hi & _).
    by eapply list_elem_of_lookup_2. }
  destruct (remap_spec (of_socket sid) started w1 Hreg1)
    as ((more & Hmore) & _).
  fold w2 in Hmore. change (users w1) with (users w) in Hmore, Hge, Hval.
  assert (Hn : pending w2 !! n
               = Some (Some (createWebRtcTransport d peer sid))).
  { change (pending w2)
      with (pending w ++ [Some (createWebRtcTransport d peer sid)]).
    by rewrite list_lookup_middle. }
  unfold createWebRtcTransport in Hn.
  rewrite (settle_at _ _ _ _ _ _ Hn).
  cbn [resume]. change (negb (maxIncomingBitrate =? 0)%Z) with true.
  cbn match.
  set (t := length (transportObjs (set_pending <[n:=None]> w2))).
  assert (Ht : t = length (transportObjs w)) by done.
  set (w3 := park (engine RqCreateWebRtcTransport rep
                     (set_pending <[n:=None]> w2),
                   Some (RqSetMaxIncomingBitrate t,
                         KBitrateSet d peer sid t))).
  assert (Hn3 :
    pending w3 !! S n
    = Some (Some (RqSetMaxIncomingBitrate t, KBitrateSet d peer sid t))).
  { unfold w3. cbn [park engine set_transportObjs set_pending pending].
    change (pending w2)
      with (pending w
            ++ [Some (RqCreateWebRtcTransport, KCreated d peer sid)]).
    rewrite lookup_app_r; rewrite length_insert, length_app; simpl; [|lia].
    by replace (S n - (length (pending w) + 1)) with 0 by (unfold n; lia). }
  rewrite (settle_at _ _ _ _ _ _ Hn3).
  set (w3' := set_pending <[S n:=None]> w3).
  assert (Hfinal : ∃ w4 os,
    resume canConsume (RqSetMaxIncomingBitrate t)
      (KBitrateSet d peer sid t) o w3'
    = (w4, None)
    ∧ users w4 = alter (user_set_transport d (Some t)) peer (users w2)
    ∧ registry w4 = registry w2
    ∧ trace w4
      = os ++ [OAck sid (RTransportParams (reply_id rep) (reply_data rep))]).
  { assert (HT : transportObjs w3' !!! t
                 = mkTransport (reply_id rep) (reply_data rep) false).
    { unfold w3', w3.
      cbn [park engine set_transportObjs set_pending transportObjs].
      rewrite Ht. change (transportObjs w2) with (transportObjs w).
      by rewrite list_lookup_total_middle. }
    destruct o as [rep'|e]; cbn [resume engine]; unfold transport_created;
      cbn [error out transportObjs]; rewrite HT; eexists _, _;
      (split; [done|]); (split; [done|]); (split; [done|]);
      cbn [ack out trace transport_id transport_params]; done. }
  destruct Hfinal as (w4 & os & -> & Husers & Hregistry & Htrace).
  cbn [park].
  assert (Hne : peer' ≠ peer) by lia.
  assert (Hreg4 : registered w4 sid peer').
  { apply (registered_ext
             (update_user peer (user_set_transport d (Some t)) w2));
      [done|done|].
    apply registered_update_user; [by destruct d|done]. }
  assert (Hnone4 : transport_of d (users w4 !!! peer') = None).
  { rewrite Husers, list_lookup_total_alter_ne by done.
    rewrite Hval. by destruct d. }
  exists peer'. split; [done|]. split; [done|]. split.
  { rewrite Husers, list_lookup_total_alter.
    rewrite decide_True by (rewrite Hmore, length_app; split; [done|lia]).
    rewrite <- Ht. by destruct d. }
  split; [done|]. split; [by rewrite Htrace, last_snoc|]. split.
  - by apply create_accepted.
  - intros -> kind rtpParameters transportId. cbn [react handle].
    unfold on_PRODUCE.
    rewrite (getUserBySocketId_registered _ _ _ Hreg4).
    cbn [transport_of] in Hnone4. by rewrite Hnone4.
Qed.

Lemma typing_during_creation_loses_the_transport_witness :
  let n := length (pending (world (serving hall))) in
  let w' :=
    world
      (serve_all always
         [Core (EvMessage "A" (CREATE_TRANSPORT ProducerSide));
          Other "A" (TYPING_START 5);
          Core (EvSettle n (Resolved (reply "t1")));
          Core (EvSettle (S n) (Resolved (reply "ok")))]
         (serving hall)) in
  ∃ peer',
    registered w' "A" peer'
    ∧ peer' ≠ 0
    ∧ transport_of ProducerSide (users w' !!! 0)
      = Some (length (transportObjs (world (serving hall))))
    ∧ transport_of ProducerSide (users w' !!! peer') = None
    ∧ last (trace w')
      = Some (OAck "A" (RTransportParams (reply_id (reply "t1"))
                          (reply_data (reply "t1"))))
    ∧ react always (EvMessage "A" (CREATE_TRANSPORT ProducerSide)) w'
      = park (w', Some (createWebRtcTransport ProducerSide peer' "A"))
    ∧ (ProducerSide = ProducerSide →
       ∀ kind rtpParameters transportId,
         react always
           (EvMessage "A" (PRODUCE kind rtpParameters transportId)) w'
         = ack "A" (RError "Peer or producer transport not found") w').
Proof.
  apply (typing_during_creation_loses_the_transport always ProducerSide
           (serving hall) "A" 0 5 (reply "t1")
           (Resolved (reply "ok"))).
  - by vm_compute.
  - registry_refs.
  - by vm_compute.
Defined.

(** ** After a peer has left *)

(** X22 (disconnecting, pauseProducer, resumeProducer): the loops of
    pauseProducer and resumeProducer go through the peers that are
    registered when they run.  Once a peer has disconnected, a consumer that
    only this peer held is not met any more: the cascade of its producer
    completes without a call for this consumer, without the event it emits
    on the consumers it meets, and without a change to the consumer.  (The
    listener of the consumer still forwards what the engine itself
    notifies.) *)
Theorem cascade_skips_the_consumers_of_departed_peers
    (canConsume : string → JsValue → bool) (eng : Request → Outcome)
    (m : Mode) (w : World) (sid : string) (peer : uref) (p : pref)
    (c : cref) (fuel : nat) :
  registered w sid peer →
  obliging eng →
  (∀ r es key,
     r ∈ registry w → socketId (users w !!! r) ≠ sid →
     consumers_in w (users w !!! r) = Some es → (key, c) ∉ es) →
  length (consumers_of (react canConsume (EvDisconnecting sid) w) p) < fuel →
  ∃ w2,
    drive canConsume fuel eng
      (react canConsume (EvDisconnecting sid) w, Some (start_cascade m p))
    = (w2, None)
    ∧ consumerObjs w2 !! c = consumerObjs w !! c
    ∧ (c ∉ consumers_of (react canConsume (EvDisconnecting sid) w) p)
    ∧ pending w2
      = pending w
        ++ ((λ c', Some (forward m c'))
              <$> consumers_of (react canConsume (EvDisconnecting sid) w) p).
Proof.
  intros Hpeer Heng Hheld Hfuel.
  set (w1 := react canConsume (EvDisconnecting sid) w) in *.
  assert (Hw1 : users w1 = users w ∧ consumerObjs w1 = consumerObjs w
                ∧ pending w1 = pending w
                ∧ consumerMaps w1 = consumerMaps w
                ∧ registry w1
                  = List.filter
                      (user_is w (λ u, negb (String.eqb (socketId u) sid)))
                      (registry w)).
  { unfold w1. cbn [react]. unfold on_disconnecting.
    rewrite (getUserBySocketId_registered _ _ _ Hpeer).
    do 4 (split; [done|]). unfold registry at 1.
    cbn [socket_leave_all socket_leave set_ioRooms rebind set_userSocketMap
         set_arrays arrays userSocketMap].
    by rewrite list_lookup_total_middle. }
  destruct Hw1 as (Husers & Hobjs & Hpending & Hmaps & Hregistry).
  assert (Hout : c ∉ consumers_of w1 p).
  { unfold consumers_of, remaining. rewrite drop_0, rest_matching_0.
    fold (registry w1). rewrite Hregistry.
    intros Hin. apply list_elem_of_In, in_concat in Hin as (l & Hl & Hc).
    apply list_elem_of_In, list_elem_of_fmap in Hl as (r & -> & Hr).
    apply list_elem_of_In, List.filter_In in Hr as [Hr Hsid].
    unfold user_matching in Hc.
    replace (consumers_in w1 (users w1 !!! r))
      with (consumers_in w (users w !!! r)) in Hc
      by (unfold consumers_in; by rewrite Husers, Hmaps).
    destruct (consumers_in w (users w !!! r)) as [es|] eqn:Hes; [|done].
    rewrite drop_0 in Hc. unfold matching in Hc.
    apply List.filter_In in Hc as [Hc _].
    apply list_elem_of_In, list_elem_of_fmap in Hc as ([key c'] & -> & Hc).
    apply (Hheld r es key); [by apply list_elem_of_In| |done|done].
    unfold user_is in Hsid. intros Heq.
    by rewrite Heq, String.eqb_refl in Hsid. }
  replace (start_cascade m p) with (RqProducer m p, KProducerDone m p)
    by (by destruct m).
  rewrite (cascade_complete canConsume eng m p w1 fuel); [|done| |done].
  2:{ intros c' _. apply Heng. }
  eexists. split; [done|].
  cbn [after_cascade set_pending set_consumerObjs set_producerObjs
       consumerObjs pending].
  rewrite flagged_lookup_notin, Hobjs, Hpending by done. done.
Qed.

Lemma cascade_skips_the_consumers_of_departed_peers_witness :
  ∃ w2,
    drive always 3 sound_engine
      (react always (EvDisconnecting "B") call, Some (start_cascade Pause 0))
    = (w2, None)
    ∧ consumerObjs w2 !! 0 = consumerObjs call !! 0
    ∧ (0 ∉ consumers_of (react always (EvDisconnecting "B") call) 0)
    ∧ pending w2
      = pending call
        ++ ((λ c', Some (forward Pause c'))
              <$> consumers_of (react always (EvDisconnecting "B") call) 0).
Proof.
  apply (cascade_skips_the_consumers_of_departed_peers always sound_engine
           Pause call "B" 1 0 0 3).
  - by vm_compute.
  - intros rq. by exists (reply "ok").
  - intros r es key Hr Hsid Hes Hin. apply list_elem_of_In in Hr.
    vm_compute in Hr. destruct Hr as [<-|[<-|[<-|[]]]].
    + vm_compute in Hes. discriminate Hes.
    + exfalso. apply Hsid. vm_compute. reflexivity.
    + vm_compute in Hes. injection Hes as <-.
      apply list_elem_of_singleton in Hin. discriminate Hin.
  - vm_compute. lia.
Defined.

(** ** Rooms and sockets share their names *)

Lemma join_accepted_rooms sid user w :
  List.find
    (user_is w (λ u, String.eqb (roomId u) (roomId user)
                     && String.eqb (username u) (username user)))
    (registry w) = None →
  sid ∈ room_members (roomId user) (on_JOIN_REQUEST sid user w).
Proof.
  intros Hfree. unfold on_JOIN_REQUEST. rewrite Hfree. cbv zeta.
  set (room := roomId user). unfold getUsersInRoom.
  assert (H : ∀ w0, ioRooms w0 = ioRooms (socket_join sid room w) →
            sid ∈ room_members room w0).
  { intros w0 Hw0. unfold room_members. rewrite Hw0.
    apply room_members_joined. }
  by destruct (String.eqb room EmptyString); apply H.
Qed.

(** X23 (SYNC_FILE_STRUCTURE, SYNC_DRAWING, JOIN_REQUEST): what is addressed
    to a socket goes to the socket.io room that has the socket's id as its
    name, and JOIN_REQUEST lets a socket join the room of any name: a socket
    whose JOIN_REQUEST for the room named like another socket's id has been
    accepted is sent the file structure and the drawings addressed to that
    socket. *)
Theorem room_named_as_a_socket_gets_its_mail
    (canConsume : string → JsValue → bool) (w : World)
    (sid : string) (user : User) (sender : string)
    (fileStructure openFiles activeFile drawingData : JsValue) :
  List.find
    (user_is w (λ u, String.eqb (roomId u) (roomId user)
                     && String.eqb (username u) (username user)))
    (registry w) = None →
  sender ≠ sid →
  let target := roomId user in
  let w' := react canConsume (EvMessage sid (JOIN_REQUEST user)) w in
  Emit sid (Sent.SYNC_FILE_STRUCTURE fileStructure openFiles activeFile)
    ∈ (on_SYNC_FILE_STRUCTURE fileStructure openFiles activeFile target w').2
  ∧ Emit sid (Sent.SYNC_DRAWING drawingData)
      ∈ (on_SYNC_DRAWING sender drawingData target w').2.
Proof.
  intros Hfree Hne target w'. subst w'. cbn [react handle].
  pose proof (join_accepted_rooms sid user w Hfree) as Hin. fold target in Hin.
  unfold on_SYNC_FILE_STRUCTURE, on_SYNC_DRAWING, emit_to_all, broadcast.
  cbn [snd]. split; apply list_elem_of_fmap; exists sid; (split; [done|]).
  - by apply elem_of_elements.
  - by apply recipients_spec.
Qed.

Lemma room_named_as_a_socket_gets_its_mail_witness :
  let target := roomId (client_user "carol" "A") in
  let w' :=
    react always (EvMessage "C" (JOIN_REQUEST (client_user "carol" "A")))
      lobby in
  Emit "C" (Sent.SYNC_FILE_STRUCTURE (VObject "tree") (VObject "[]") VNull)
    ∈ (on_SYNC_FILE_STRUCTURE (VObject "tree") (VObject "[]") VNull target
         w').2
  ∧ Emit "C" (Sent.SYNC_DRAWING (VObject "shapes"))
      ∈ (on_SYNC_DRAWING "B" (VObject "shapes") target w').2.
Proof.
  apply (room_named_as_a_socket_gets_its_mail always lobby "C"
           (client_user "carol" "A") "B" (VObject "tree") (VObject "[]")
           VNull (VObject "shapes")).
  - by vm_compute.
  - done.
Defined.

(** ** A socket that joins again *)

Lemma find_snoc {A} (g : A → bool) (l : list A) (x : A) :
  List.find g (l ++ [x])
  = match List.find g l with
    | Some y => Some y
    | None => if g x then Some x else None
    end.
Proof.
  induction l as [|a l IH]; [done|]. cbn [app List.find].
  by destruct (g a).
Qed.

(** X24 (JOIN_REQUEST, getUserBySocketId, getRoomId): JOIN_REQUEST does not
    look whether the socket is registered already, and the lookups by socket
    return the first peer of the socket in the registry.  After an accepted
    JOIN_REQUEST of a socket that was not registered, the socket stands for
    the new peer; after one of a socket that was, it goes on standing for
    the peer and the room it stood for before, the new peer being in the
    registry as well. *)
Theorem socket_stands_for_its_first_peer
    (canConsume : string → JsValue → bool) (w : World)
    (sid : string) (user : User) :
  bound w → registry_ok w →
  List.find
    (user_is w (λ u, String.eqb (roomId u) (roomId user)
                     && String.eqb (username u) (username user)))
    (registry w) = None →
  let w' := react canConsume (EvMessage sid (JOIN_REQUEST user)) w in
  roster w' = roster w ++ [newcomer sid user]
  ∧ user_of w' sid
    = match user_of w sid with
      | Some u => Some u
      | None => Some (newcomer sid user)
      end
  ∧ (is_Some (user_of w sid) → room_of w' sid = room_of w sid).
Proof.
  intros Hbound Hreg Hfree w'. subst w'. cbn [react handle].
  destruct (join_accepted sid user w Hbound Hfree)
    as (Husers & Hregistry).
  assert (Hroster : roster (on_JOIN_REQUEST sid user w)
                    = roster w ++ [newcomer sid user]).
  { unfold roster. rewrite Hregistry, fmap_app. f_equal.
    - apply list_fmap_ext. intros i r Hr.
      rewrite Husers. apply lookup_total_app_l, Hreg.
      by eapply list_elem_of_lookup_2.
    - cbn [fmap list_fmap]. by rewrite Husers, list_lookup_total_middle. }
  assert (Huser : user_of (on_JOIN_REQUEST sid user w) sid
                  = match user_of w sid with
                    | Some u => Some u
                    | None => Some (newcomer sid user)
                    end).
  { unfold user_of. rewrite Hroster, find_snoc.
    cbn [newcomer socketId]. by rewrite String.eqb_refl. }
  split; [done|]. split; [done|].
  intros [u Hu]. unfold room_of. by rewrite Huser, Hu.
Qed.

Lemma socket_stands_for_its_first_peer_witness :
  let w' :=
    react always (EvMessage "B" (JOIN_REQUEST (client_user "bobby" "r2")))
      lobby in
  roster w' = roster lobby ++ [newcomer "B" (client_user "bobby" "r2")]
  ∧ user_of w' "B"
    = match user_of lobby "B" with
      | Some u => Some u
      | None => Some (newcomer "B" (client_user "bobby" "r2"))
      end
  ∧ (is_Some (user_of lobby "B") → room_of w' "B" = room_of lobby "B").
Proof.
  apply (socket_stands_for_its_first_peer always lobby "B"
           (client_user "bobby" "r2")).
  - vm_compute. lia.
  - registry_refs.
  - by vm_compute.
Defined.

(** ** JOIN_ROOM *)

Lemma roster_push u w :
  bound w → registry_ok w → roster (push_user u w) = roster w ++ [u].
Proof.
  intros Hbound Hreg. unfold roster. rewrite registry_push_eq by done.
  rewrite fmap_app. f_equal.
  - apply list_fmap_ext. intros i r Hr.
    cbn [push_user set_arrays set_users users].
    apply lookup_total_app_l, Hreg. by eapply list_elem_of_lookup_2.
  - cbn [fmap list_fmap push_user set_arrays set_users users].
    by rewrite list_lookup_total_middle.
Qed.

(** What JOIN_ROOM does before it looks at [rooms]. *)
Lemma join_room_world sid room name s :
  bound (world s) → registry_ok (world s) →
  ∃ os,
    Forall is_log os
    ∧ roster (world (on_JOIN_ROOM sid room name s))
      = roster (world s) ++ registered_by_join_room (world s) sid name room
    ∧ ioRooms (world (on_JOIN_ROOM sid room name s))
      = <[room := {[sid]} ∪ room_members room (world s)]> (ioRooms (world s))
    ∧ trace (world (on_JOIN_ROOM sid room name s)) = trace (world s) ++ os
    ∧ (room ∉ inherited → os = []).
Proof.
  intros Hbound Hreg. unfold on_JOIN_ROOM, registered_by_join_room.
  rewrite user_of_find.
  set (w1 := socket_join sid room (world s)).
  change (registry w1) with (registry (world s)).
  change (user_is w1) with (user_is (world s)).
  fold (roommate sid name room).
  set (w2 := match List.find _ (registry (world s)) with
             | Some _ => w1
             | None => push_user (roommate sid name room) w1
             end).
  assert (H2 : roster w2
               = roster (world s)
                 ++ match (λ r, users (world s) !!! r)
                          <$> List.find
                                (user_is (world s)
                                   (λ u, String.eqb (socketId u) sid))
                                (registry (world s)) with
                    | Some _ => []
                    | None => [roommate sid name room]
                    end
               ∧ ioRooms w2
                 = <[room := {[sid]} ∪ room_members room (world s)]>
                     (ioRooms (world s))
               ∧ trace w2 = trace (world s)).
  { unfold w2. destruct (List.find _ (registry (world s))).
    - cbn [fmap option_fmap option_map]. by rewrite app_nil_r.
    - cbn [fmap option_fmap option_map].
      split; [|done]. by apply (roster_push _ w1). }
  destruct H2 as (Hroster & Hrooms & Htrace).
  case_bool_decide as Hin.
  - eexists [_]. split; [repeat constructor; by eexists _, _|].
    cbn [world error out trace]. rewrite Htrace.
    split; [done|]. split; [done|]. split; [done|]. done.
  - exists []. split; [constructor|].
    cbn [world]. by rewrite Htrace, app_nil_r.
Qed.

Lemma recipients_joined sid room w w' :
  ioRooms w' = <[room := {[sid]} ∪ room_members room w]> (ioRooms w) →
  recipients room sid w' = recipients room sid w.
Proof.
  intros H. unfold recipients. f_equal. unfold room_members at 1.
  rewrite H, lookup_insert_eq. cbn [from_option id].
  apply set_eq. intros x.
  rewrite !elem_of_difference, elem_of_union, elem_of_singleton. tauto.
Qed.

(** X25 (JOIN_ROOM): JOIN_ROOM for a room name that is not a property of
    [Object.prototype] makes the socket join the room, registers a peer
    with the name and room sent when the socket has none in the registry
    and no peer otherwise, puts a new entry for the socket in the [users]
    of the room in [rooms], at the place of the entry the socket had there
    or last, tells the other sockets of the room, and answers with the
    entries of the room in [rooms], the sender's among them. *)
Theorem join_room_registers_and_lists
    (s : Server) (sid room name : string) :
  room ∉ inherited →
  bound (world s) →
  registry_ok (world s) →
  let s' := signal sid (JOIN_ROOM room name) s in
  let roomUsers :=
    JsMap.set sid (room_entry sid name) (default [] (rooms s !! room)) in
  roster (world s')
  = roster (world s) ++ registered_by_join_room (world s) sid name room
  ∧ ioRooms (world s')
    = <[room := {[sid]} ∪ room_members room (world s)]> (ioRooms (world s))
  ∧ trace (world s') = trace (world s)
  ∧ rooms s' = <[room := roomUsers]> (rooms s)
  ∧ sent s'
    = sent s
      ++ ((λ t, Emit t (Sent.USER_JOINED sid name sid false false))
            <$> recipients room sid (world s))
      ++ [Joined sid (member <$> JsMap.values roomUsers)]
  ∧ member (room_entry sid name) ∈ member <$> JsMap.values roomUsers.
Proof.
  intros Hroom Hbound Hreg s' roomUsers. subst s'. cbn [signal].
  destruct (join_room_world sid room name s Hbound Hreg)
    as (os & _ & Hroster & Hrooms & Htrace & Hos).
  rewrite (Hos Hroom), app_nil_r in Htrace.
  split; [done|]. split; [done|]. split; [done|].
  revert Hrooms. unfold on_JOIN_ROOM.
  rewrite bool_decide_false by done. cbn [world rooms sent].
  intros Hrooms. split; [done|]. split.
  - unfold broadcast. by rewrite (recipients_joined _ _ _ _ Hrooms).
  - apply list_elem_of_fmap. exists (room_entry sid name). split; [done|].
    unfold JsMap.values. apply list_elem_of_fmap.
    exists (sid, room_entry sid name). split; [done|]. apply JsMap_set_elem.
Qed.

Lemma join_room_registers_and_lists_witness :
  let s' := signal "D" (JOIN_ROOM "r1" "bob") (serving lobby) in
  let roomUsers :=
    JsMap.set "D" (room_entry "D" "bob")
      (default [] (rooms (serving lobby) !! "r1")) in
  roster (world s')
  = roster (world (serving lobby))
    ++ registered_by_join_room (world (serving lobby)) "D" "bob" "r1"
  ∧ ioRooms (world s')
    = <["r1" := {["D"]} ∪ room_members "r1" (world (serving lobby))]>
        (ioRooms (world (serving lobby)))
  ∧ trace (world s') = trace (world (serving lobby))
  ∧ rooms s' = <["r1" := roomUsers]> (rooms (serving lobby))
  ∧ sent s'
    = sent (serving lobby)
      ++ ((λ t, Emit t (Sent.USER_JOINED "D" "bob" "D" false false))
            <$> recipients "r1" "D" (world (serving lobby)))
      ++ [Joined "D" (member <$> JsMap.values roomUsers)]
  ∧ member (room_entry "D" "bob") ∈ member <$> JsMap.values roomUsers.
Proof.
  apply (join_room_registers_and_lists (serving lobby) "D" "r1" "bob").
  - apply (bool_decide_unpack _). by vm_compute.
  - vm_compute. lia.
  - registry_refs.
Defined.

(** X26 (JOIN_ROOM, JOIN_REQUEST): JOIN_ROOM does not compare the name it
    is sent with the names of the room: sent by a socket that has no peer
    in the registry, with a name that a registered peer of the room has, it
    registers a second peer of this name in this room. *)
Theorem join_room_does_not_check_names
    (s : Server) (sid room name : string) (r : uref) :
  bound (world s) →
  registry_ok (world s) →
  user_of (world s) sid = None →
  r ∈ registry (world s) →
  roomId (users (world s) !!! r) = room →
  username (users (world s) !!! r) = name →
  ¬ names_unique (world (signal sid (JOIN_ROOM room name) s)).
Proof.
  intros Hbound Hreg Hnone Hr Hroom Hname. cbn [signal].
  destruct (join_room_world sid room name s Hbound Hreg)
    as (os & _ & Hroster & _).
  unfold registered_by_join_room in Hroster. rewrite Hnone in Hroster.
  unfold names_unique.
  assert (Hnames : ∀ w, name_in_room w <$> registry w
                        = (λ u, (roomId u, username u)) <$> roster w).
  { intros w. unfold roster. by rewrite <- list_fmap_compose. }
  rewrite Hnames, Hroster, fmap_app. intros Hdup.
  apply NoDup_app in Hdup as (_ & Hdup & _).
  apply (Hdup (room, name)).
  - apply list_elem_of_fmap. exists (users (world s) !!! r).
    split; [by rewrite Hroom, Hname|].
    apply list_elem_of_fmap. by exists r.
  - cbn [fmap list_fmap roommate roomId username]. by left.
Qed.

Lemma join_room_does_not_check_names_witness :
  ¬ names_unique (world (signal "D" (JOIN_ROOM "r1" "bob") (serving lobby))).
Proof.
  apply (join_room_does_not_check_names (serving lobby) "D" "r1" "bob" 1).
  - vm_compute. lia.
  - registry_refs.
  - by vm_compute.
  - apply list_elem_of_In. vm_compute. tauto.
  - by vm_compute.
  - by vm_compute.
Defined.

(** X27 (JOIN_ROOM): for a room name that is a property of
    [Object.prototype] (constructor, toString, __proto__, ..) JOIN_ROOM
    fails after it has acted: the socket has joined the socket.io room of
    this name and, if it had no peer in the registry, a peer is registered
    for it, yet no entry is made in [rooms], nobody is told, the error is
    logged and the sender is answered "Failed to join room". *)
Theorem join_room_named_as_object_property_fails_halfway
    (s : Server) (sid room name : string) :
  room ∈ inherited →
  bound (world s) →
  registry_ok (world s) →
  let s' := signal sid (JOIN_ROOM room name) s in
  roster (world s')
  = roster (world s) ++ registered_by_join_room (world s) sid name room
  ∧ ioRooms (world s')
    = <[room := {[sid]} ∪ room_members room (world s)]> (ioRooms (world s))
  ∧ trace (world s')
    = trace (world s) ++ [OError "Error joining room:" (Some "TypeError")]
  ∧ rooms s' = rooms s
  ∧ sent s' = sent s ++ [Failed sid "Failed to join room"].
Proof.
  intros Hroom Hbound Hreg s'. subst s'. cbn [signal].
  destruct (join_room_world sid room name s Hbound Hreg)
    as (os & _ & Hroster & Hrooms & _).
  split; [done|]. split; [done|].
  unfold on_JOIN_ROOM. rewrite bool_decide_true by done.
  cbn [world rooms sent error out trace].
  split; [|done]. f_equal.
  by destruct (List.find _ _).
Qed.

Lemma join_room_named_as_object_property_fails_halfway_witness :
  let s' := signal "D" (JOIN_ROOM "toString" "dan") (serving lobby) in
  roster (world s')
  = roster (world (serving lobby))
    ++ registered_by_join_room (world (serving lobby)) "D" "dan" "toString"
  ∧ ioRooms (world s')
    = <["toString" := {["D"]}
                       ∪ room_members "toString" (world (serving lobby))]>
        (ioRooms (world (serving lobby)))
  ∧ trace (world s')
    = trace (world (serving lobby))
      ++ [OError "Error joining room:" (Some "TypeError")]
  ∧ rooms s' = rooms (serving lobby)
  ∧ sent s' = sent (serving lobby) ++ [Failed "D" "Failed to join room"].
Proof.
  apply (join_room_named_as_object_property_fails_halfway (serving lobby)
           "D" "toString" "dan").
  - apply (bool_decide_unpack _). by vm_compute.
  - vm_compute. lia.
  - registry_refs.
Defined.

Lemma JsMap_get_set_ne {V} (k k' : string) (v : V) (m : JsMap.t V) :
  k ≠ k' → JsMap.get k (JsMap.set k' v m) = JsMap.get k m.
Proof.
  intros Hne. unfold JsMap.get.
  induction m as [|[k0 v0] m IH]; cbn [JsMap.set List.find fst].
  - by rewrite (proj2 (String.eqb_neq k' k)) by done.
  - destruct (String.eqb k0 k') eqn:Hk0; cbn [List.find fst].
    + apply String.eqb_eq in Hk0 as ->.
      by rewrite (proj2 (String.eqb_neq k' k)) by done.
    + by destruct (String.eqb k0 k).
Qed.

Lemma listed_JOIN_ROOM sid2 room2 name2 s room sid :
  listed s room sid → listed (on_JOIN_ROOM sid2 room2 name2 s) room sid.
Proof.
  intros (user & Hget & Hid). unfold listed, on_JOIN_ROOM.
  case_bool_decide as Hin; cbn [rooms]; [by exists user|].
  destruct (decide (room2 = room)) as [->|Hroom].
  - rewrite lookup_insert_eq. cbn [from_option id].
    destruct (decide (sid = sid2)) as [->|Hsid].
    + eexists. by rewrite JsMap_get_set.
    + exists user. by rewrite JsMap_get_set_ne.
  - rewrite lookup_insert_ne by done. by exists user.
Qed.

Lemma rooms_within h s : rooms (within h s) = rooms s.
Proof. unfold within. by destruct (h (world s)). Qed.

Lemma listed_serve canConsume i s room sid :
  listed s room sid → listed (serve canConsume i s) room sid.
Proof.
  intros H. destruct i as [ev|sid2 m]; [done|].
  destruct m; cbn [serve signal]; try by apply listed_JOIN_ROOM.
  all: unfold listed; by rewrite ?rooms_within.
Qed.

(** X28 (JOIN_ROOM, disconnecting): nothing removes an entry from [rooms]:
    a socket that has an entry in a room keeps one whatever happens later,
    its disconnection included, and every later JOIN_ROOM for this room is
    answered with a list that has an entry for this socket. *)
Theorem rooms_keep_who_joined
    (canConsume : string → JsValue → bool) (ins : list Incoming)
    (s : Server) (room sid sid2 name2 : string) :
  listed s room sid →
  room ∉ inherited →
  let s' := serve_all canConsume ins s in
  listed s' room sid
  ∧ ∃ members,
      last (sent (signal sid2 (JOIN_ROOM room name2) s'))
      = Some (Joined sid2 members)
      ∧ sid ∈ rm_id <$> members.
Proof.
  intros Hlisted Hroom s'.
  assert (Hs' : listed s' room sid).
  { unfold s'. clear s'. revert s Hlisted.
    induction ins as [|i ins IH]; intros s Hs; [done|].
    cbn [serve_all foldl flip]. apply IH. by apply listed_serve. }
  split; [done|].
  pose proof (listed_JOIN_ROOM sid2 room name2 s' room sid Hs')
    as (user & Hget & Hid).
  revert Hget. cbn [signal]. unfold on_JOIN_ROOM.
  rewrite bool_decide_false by done. cbn [rooms sent].
  rewrite lookup_insert_eq. cbn [from_option id].
  set (roomUsers := JsMap.set sid2 _ _). intros Hget.
  eexists. rewrite app_assoc, last_snoc. split; [done|].
  rewrite <- list_fmap_compose.
  apply list_elem_of_fmap. exists user. split; [done|].
  unfold JsMap.get in Hget. unfold JsMap.values.
  destruct (List.find _ roomUsers) as [[k u]|] eqn:Hfind; [|done].
  injection Hget as ->. apply List.find_some in Hfind as [Hin _].
  apply list_elem_of_fmap. exists (k, user). split; [done|].
  by apply list_elem_of_In.
Qed.

Lemma rooms_keep_who_joined_witness :
  let s :=
    serve_all always
      [Core (EvConnect "D"); Other "D" (JOIN_ROOM "r1" "dan")]
      (serving lobby) in
  let s' := serve_all always [Core (EvDisconnecting "D")] s in
  listed s' "r1" "D"
  ∧ ∃ members,
      last (sent (signal "E" (JOIN_ROOM "r1" "eve") s'))
      = Some (Joined "E" members)
      ∧ "D" ∈ rm_id <$> members.
Proof.
  apply (rooms_keep_who_joined always [Core (EvDisconnecting "D")]
           (serve_all always
              [Core (EvConnect "D"); Other "D" (JOIN_ROOM "r1" "dan")]
              (serving lobby))
           "r1" "D" "E" "eve").
  - eexists. split; by vm_compute.
  - apply (bool_decide_unpack _). by vm_compute.
Defined.

(** ** Every request is answered once *)

Lemma answers_app a b : answers (a ++ b) = answers a ++ answers b.
Proof. unfold answers. apply omap_app. Qed.

Lemma answers_logs os : Forall is_log os → answers os = [].
Proof.
  induction 1 as [|o os (msg & err & ->) _ IH]; [done|].
  unfold answers in *. cbn [omap list_omap]. exact IH.
Qed.

Lemma answers_emits {A} (f : A → string) (ev : A → ServerEvent) l :
  answers ((λ x, OEmit (f x) (ev x)) <$> l) = [].
Proof. by induction l. Qed.

Lemma produced_answers peer sid kind p w :
  ∃ emits,
    answers emits = []
    ∧ trace (produced peer sid kind p w)
      = trace w ++ emits
        ++ [OAck sid (RProduced (producer_id (producerObjs w !!! p)))].
Proof.
  unfold produced, producers_map.
  destruct (producers (users w !!! peer)), kind;
    cbn [ack out emit_to_room update_user set_users set_producerMaps trace
         producerObjs];
    eexists; (split; [apply (answers_emits id)|]);
    by rewrite <- app_assoc.
Qed.

Lemma getUserBySocketId_unknown sid w w' :
  List.find (user_is w (λ u, String.eqb (socketId u) sid)) (registry w)
  = None →
  users w' = users w → registry w' = registry w →
  getUserBySocketId sid w'
  = (error ("User not found for socket ID: " +:+ sid) None w', None).
Proof.
  intros H Hu Hr. unfold getUserBySocketId, user_is. rewrite Hu, Hr.
  unfold user_is in H. by rewrite H.
Qed.

Lemma toggle_answers k sid enabled callback w :
  ∃ news,
    trace (toggle k sid enabled callback w) = trace w ++ news
    ∧ ∃ r, answers news = (if callback then [(sid, r)] else []).
Proof.
  unfold toggle.
  destruct (List.find (user_is w (λ u, String.eqb (socketId u) sid))
              (registry w)) as [peer|] eqn:Hfind.
  2:{ rewrite (getUserBySocketId_unknown sid w w Hfind) by done.
      rewrite (getUserBySocketId_unknown sid w _ Hfind) by done.
      destruct callback; cbn [ack_if ack error out trace];
        eexists; (split; [by rewrite <- ?app_assoc|]);
        by (exists (RError "User not found")). }
  rewrite !(getUserBySocketId_registered _ _ _ Hfind).
  - destruct (producers_in w (users w !!! peer)) as [m|].
    + rewrite (park_all (λ p, if enabled then resumeProducer p
                              else pauseProducer p)).
      cbn [update_user set_users set_pending users].
      set (room := roomId _).
      exists ((if negb (String.eqb room EmptyString)
               then (λ s, OEmit s (state_changed k sid enabled))
                      <$> recipients room sid w
               else [])
              ++ (if callback then [OAck sid RSuccess] else [])).
      split.
      * destruct callback, (negb (String.eqb room EmptyString));
          cbn [ack_if ack out emit_to_room trace update_user set_users
               set_pending];
          by rewrite ?app_nil_r, <- ?app_assoc.
      * exists RSuccess. rewrite answers_app.
        assert (Hemits :
          answers (if negb (String.eqb room EmptyString)
                   then (λ s, OEmit s (state_changed k sid enabled))
                          <$> recipients room sid w
                   else []) = []).
        { destruct (negb _); [apply (answers_emits id)|done]. }
        rewrite Hemits. by destruct callback.
    + destruct callback; cbn [ack_if ack out trace];
        eexists; (split; [by rewrite <- ?app_assoc|]);
        by (exists (RError "User not found")).
Qed.

(** X29 (JOIN_ROUTER, CREATE_PRODUCER_TRANSPORT, CREATE_CONSUMER_TRANSPORT,
    PRODUCE, CONSUME, RESUME_CONSUMER, TOGGLE_VIDEO, TOGGLE_AUDIO): run to
    its end with nothing else in between, whatever the engine answers, the
    handler of a message that comes with a callback calls it exactly once,
    with an error or with a result, and calls no other; a message without
    callback, JOIN_REQUEST among them, gets no answer of this kind. *)
Theorem every_request_is_answered_once
    (canConsume : string → JsValue → bool) (eng : Request → Outcome)
    (sid : string) (m : Message) (w : World) (fuel : nat) :
  (awaits m w ≤ fuel)%nat →
  ∃ w' news r,
    drive canConsume fuel eng (begin canConsume sid m w) = (w', None)
    ∧ trace w' = trace w ++ news
    ∧ answers news = (if expects_answer m then [(sid, r)] else []).
Proof.
  intros Hfuel.
  assert (Hcreate : ∀ d, (2 ≤ fuel)%nat →
    ∃ w' news r,
      drive canConsume fuel eng (create_transport d sid w) = (w', None)
      ∧ trace w' = trace w ++ news
      ∧ answers news = [(sid, r)]).
  { intros d H2. unfold create_transport, getUserBySocketId.
    destruct (List.find _ (registry w)) as [peer|].
    2:{ rewrite ?drive_done. eexists _, _, _. split; [done|].
        cbn [ack error out trace]. rewrite <- app_assoc. by split. }
    destruct (transport_of d (users w !!! peer)).
    { rewrite ?drive_done. by eexists _, [_], _. }
    destruct fuel as [|[|fuel]]; [lia|lia|].
    unfold createWebRtcTransport. cbn [drive].
    destruct (eng RqCreateWebRtcTransport) as [rep|e]; cbn [resume].
    - change (negb (maxIncomingBitrate =? 0)%Z) with true. cbn match.
      cbn [drive].
      destruct (eng (RqSetMaxIncomingBitrate _)) as [rep'|e];
        cbn [resume]; rewrite ?drive_done; unfold transport_created;
        eexists _, _, _; (split; [done|]);
        cbn [ack error out update_user engine set_users set_transportObjs
             trace]; rewrite <- ?app_assoc; by split.
    - rewrite ?drive_done. unfold transport_failed.
      eexists _, _, _. split; [done|].
      cbn [ack error out trace]. rewrite <- !app_assoc. by split. }
  destruct m as [user|caps| | |kind rtp tid|src|cid callback
                 |enabled callback|enabled callback];
    cbn [begin expects_answer awaits] in *.
  - rewrite ?drive_done. exists (on_JOIN_REQUEST sid user w).
    unfold on_JOIN_REQUEST, getUsersInRoom.
    destruct (List.find _ (registry w)).
    { by eexists [_], RSuccess. }
    cbv zeta. destruct (String.eqb (roomId user) EmptyString);
      cbn [emit_to_room error out trace];
      eexists _, RSuccess; (split; [done|]);
      (split; [by rewrite <- ?app_assoc|]);
      rewrite ?answers_app; cbn [answers omap list_omap app];
      apply (answers_emits id).
  - rewrite ?drive_done. unfold on_JOIN_ROUTER, getUserBySocketId.
    destruct (List.find _ (registry w)) as [peer|].
    + destruct (truthy _); by eexists _, [_], _.
    + eexists _, _, _. split; [done|].
      cbn [ack error out trace]. rewrite <- app_assoc. by split.
  - by apply (Hcreate ProducerSide).
  - by apply (Hcreate ConsumerSide).
  - unfold on_PRODUCE, getUserBySocketId.
    destruct (List.find _ (registry w)) as [peer|].
    2:{ rewrite ?drive_done. eexists _, _, _. split; [done|].
        cbn [ack error out trace]. rewrite <- app_assoc. by split. }
    destruct (producerTransport (users w !!! peer)) as [t|].
    2:{ rewrite ?drive_done. by eexists _, [_], _. }
    destruct (match tid with Some _ => _ | None => _ end).
    { rewrite ?drive_done. by eexists _, [_], _. }
    destruct fuel as [|fuel]; [lia|]. cbn [drive].
    destruct (eng _) as [rep|e]; cbn [resume]; rewrite ?drive_done.
    + destruct (produced_answers peer sid kind (length (producerObjs w))
                  (engine (RqProduce t kind rtp
                             (mkAppData (Some sid)
                                (Some (username (users w !!! peer)))))
                     rep w)) as (emits & Hemits & Htr).
      eexists _, _, _. split; [done|]. split; [exact Htr|].
      by rewrite answers_app, Hemits.
    + eexists _, _, _. split; [done|].
      cbn [ack error out trace]. rewrite <- app_assoc. by split.
  - unfold on_CONSUME, getUserBySocketId.
    destruct (List.find (user_is w (λ u, String.eqb (socketId u) sid))
                (registry w)) as [peer|] eqn:Hpeer.
    2:{ rewrite ?drive_done. eexists _, _, _. split; [done|].
        cbn [ack error out trace]. rewrite <- app_assoc. by split. }
    destruct (List.find
                (user_is w (λ u, String.eqb (socketId u) src)) (registry w))
      as [otherPeer|].
    2:{ rewrite ?drive_done. by eexists _, [_], _. }
    destruct (producers_in w (users w !!! otherPeer)) as [ps|] eqn:Hps.
    2:{ rewrite ?drive_done. by eexists _, [_], _. }
    destruct (0 <? JsMap.size ps)%nat.
    2:{ rewrite ?drive_done. by eexists _, [_], _. }
    unfold consume_loop. rewrite Hps. cbn [from_option id]. rewrite drop_0.
    destruct (consume_from_run canConsume eng peer sid otherPeer w ps ps
                0 [] w fuel) as (w' & logs & Hrun & Hlogs & Htr);
      try done.
    exists w', (logs ++ [OAck sid (RConsumed
      ([] ++ omap (created_details canConsume eng w peer) (ps.*2)))]).
    eexists. split; [done|]. split; [done|].
    by rewrite answers_app, (answers_logs _ Hlogs).
  - unfold on_RESUME_CONSUMER, getUserBySocketId.
    destruct (List.find _ (registry w)) as [peer|].
    2:{ rewrite ?drive_done.
        destruct callback;
          [eexists _, _, _|eexists _, _, RSuccess]; (split; [done|]);
          cbn [ack_if ack error out trace]; rewrite <- ?app_assoc;
          by split. }
    destruct (consumers_in w (users w !!! peer) ≫= JsMap.get cid) as [c|].
    2:{ rewrite ?drive_done.
        destruct callback; cbn [ack_if ack out trace].
        - by eexists _, [_], _.
        - eexists _, [], RSuccess. by rewrite app_nil_r. }
    destruct fuel as [|fuel]; [lia|]. cbn [drive].
    destruct (eng _) as [rep|e], callback; cbn [resume]; rewrite ?drive_done;
      cbn [ack_if ack error out engine set_consumerObjs trace].
    + by eexists _, [_], _.
    + eexists _, [], RSuccess. by rewrite app_nil_r.
    + eexists _, _, _. split; [done|]. cbn [ack error out trace].
      rewrite <- app_assoc. by split.
    + by eexists _, [_], RSuccess.
  - rewrite ?drive_done.
    destruct (toggle_answers video sid enabled callback w)
      as (news & Htr & r & Hans).
    by exists (on_TOGGLE_VIDEO sid enabled callback w), news, r.
  - rewrite ?drive_done.
    destruct (toggle_answers audio sid enabled callback w)
      as (news & Htr & r & Hans).
    by exists (on_TOGGLE_AUDIO sid enabled callback w), news, r.
Qed.

Lemma every_request_is_answered_once_witness :
  ∃ w' news r,
    drive always 1 sound_engine (begin always "B" (CONSUME "A") studio)
    = (w', None)
    ∧ trace w' = trace studio ++ news
    ∧ answers news
      = (if expects_answer (CONSUME "A") then [("B", r)] else []).
Proof.
  apply (every_request_is_answered_once always sound_engine "B"
           (CONSUME "A") studio 1).
  vm_compute. lia.
Defined.

(** ** Active editors are kept *)

Lemma getActiveEditor_set_other room sid file cursor m room' sid' :
  ¬ (room' = room ∧ sid' = sid) →
  getActiveEditor room' sid' (setActiveEditor room sid file cursor m)
  = getActiveEditor room' sid' m.
Proof.
  intros Hother. unfold getActiveEditor, setActiveEditor.
  destruct (decide (room' = room)) as [->|Hroom].
  - rewrite lookup_insert_eq.
    rewrite lookup_insert_ne by (intros ->; by apply Hother).
    destruct (m !! room) as [eds|] eqn:Hm.
    + by rewrite (lookup_total_correct _ _ _ Hm).
    + by rewrite lookup_total_insert_eq.
  - rewrite lookup_insert_ne by done.
    destruct (m !! room) as [eds|] eqn:Hm; [done|].
    by rewrite lookup_insert_ne.
Qed.

Lemma activeEditorMap_within h s :
  activeEditorMap (within h s) = activeEditorMap s.
Proof. unfold within. by destruct (h (world s)). Qed.

(** Only ACTIVE_EDITOR_CHANGED touches the active editors. *)
Lemma activeEditorMap_serve canConsume i s :
  activeEditorMap (serve canConsume i s)
  = match i with
    | Other sid (ACTIVE_EDITOR_CHANGED room file cursor) =>
        setActiveEditor room sid file cursor (activeEditorMap s)
    | _ => activeEditorMap s
    end.
Proof.
  destruct i as [ev|sid m]; [done|].
  destruct m; cbn [serve signal]; rewrite ?activeEditorMap_within; try done.
  unfold on_JOIN_ROOM. by case_bool_decide.
Qed.

(** X30 (ACTIVE_EDITOR_CHANGED, setActiveEditor, getActiveEditor,
    disconnecting): at any time the active editor recorded for a socket in
    a room is what the last ACTIVE_EDITOR_CHANGED of that socket for that
    room announced, whatever else has happened since, the disconnection of
    the socket and JOIN_REQUEST for another room included; without such a
    message it is what it was.  No handler clears an entry. *)
Theorem active_editor_is_the_last_announced
    (canConsume : string → JsValue → bool) (ins : list Incoming)
    (s : Server) (room sid : string) :
  getActiveEditor room sid
    (activeEditorMap (serve_all canConsume ins s))
  = match last (announced room sid ins) with
    | Some e => Some e
    | None => getActiveEditor room sid (activeEditorMap s)
    end.
Proof.
  induction ins as [|i ins IH] using rev_ind; [done|].
  unfold serve_all, announced in *.
  rewrite foldl_app, omap_app. cbn [foldl flip omap list_omap].
  rewrite activeEditorMap_serve.
  destruct i as [ev|sid' m]; [by rewrite app_nil_r|].
  destruct m as [| | | | | | | | |room' file cursor|];
    try by rewrite app_nil_r.
  case_decide as Hsame.
  - destruct Hsame as [-> ->]. cbn [mbind option_bind app].
    rewrite last_snoc. apply getActiveEditor_set_same.
  - rewrite app_nil_r, <- IH.
    apply getActiveEditor_set_other. intros [-> ->]. by apply Hsame.
Qed.
